(** * FB-notifier: the dedup / filter / estimate / notify pipeline

    A shallow embedding of [improved_fb_notifier_images.js] (the loop of
    [scrapeTerm], [estimateResaleValue], [notify], [loadPastItems],
    [savePastItems] and [run]) together with the properties the
    specification states about it.

    Conventions of the embedding.
    - A JavaScript number is an IEEE-754 binary64 value.  Every finite
      binary64 value is an integer multiple of [2^-1074], so a finite number
      is represented by that integer ([Finite k] is [k * 2^-1074]); [+0] and
      [-0] are identified (the code never divides by a price).  [parseFloat]
      rounds the decimal it reads to the nearest double, ties to even.
    - A JavaScript string is the [string] of the bytes of its UTF-8 form
      (a string without lone surrogates); the case mapping is that of the
      Unicode Character Database, version 14.0, with the Final_Sigma rule,
      and the white space class is that of ECMAScript.
    - A [Set] is the list of its elements in insertion order, as
      [Array.from] enumerates it.  The ids it holds are strings,
      [undefined] (a listing without id) and [null] (what [undefined]
      becomes in the JSON file).
    - An object used as a map is the list of its entries in the order of
      [Object.keys].
    - Everything the program gets from outside (the page, the detail
      fetcher, the clock, the two files, the mail transport, the browser
      session) is an explicit input or a field of the [World] that is
      threaded through the run.  A call that can throw returns an
      [Outcome].  Console output is not modelled. *)

From Stdlib Require Import ZArith List String Ascii Bool Lia.
From Stdlib Require Import DecimalString.
Import ListNotations.

Local Open Scope string_scope.
Local Open Scope list_scope.
Local Open Scope Z_scope.

(** ** Numbers *)

Module JsNumber.

Inductive number : Type :=
| NaN
| PosInfinity
| NegInfinity
| Finite (k : Z).

(** [grid] is the number of units of [2^-1074] in [1]. *)
Definition grid : Z := 2 ^ 1074.

(** Nearest integer to [p / q] ([0 < q]), ties to the even one. *)
Definition rne (p q : Z) : Z :=
  let n := p / q in
  match (2 * (p mod q)) ?= q with
  | Lt => n
  | Gt => n + 1
  | Eq => if Z.even n then n else n + 1
  end.

(** The Number value for the rational [p / q] ([0 < q]): round to
    nearest, ties to even, at 53 bits of precision, gradual underflow
    below [2^-1022] and overflow to an infinity from [2^1024] on. *)
Definition round64 (p q : Z) : number :=
  let P := p * grid in
  let t := Z.abs P / q in
  let j := Z.max 0 (Z.log2 t - 52) in
  let k := rne P (q * 2 ^ j) * 2 ^ j in
  if 2 ^ 2098 <=? Z.abs k
  then (if 0 <? p then PosInfinity else NegInfinity)
  else Finite k.

Definition ofZ (n : Z) : number := round64 n 1.

Definition zero : number := Finite 0.

Definition isNaN (x : number) : bool :=
  match x with NaN => true | _ => false end.

(** [x < y] *)
Definition ltb (x y : number) : bool :=
  match x, y with
  | NaN, _ | _, NaN => false
  | Finite a, Finite b => a <? b
  | NegInfinity, NegInfinity => false
  | NegInfinity, _ => true
  | Finite _, PosInfinity => true
  | _, _ => false
  end.

(** [x > y] *)
Definition gtb (x y : number) : bool := ltb y x.

(** [x === y] *)
Definition strictEq (x y : number) : bool :=
  match x, y with
  | Finite a, Finite b => a =? b
  | PosInfinity, PosInfinity => true
  | NegInfinity, NegInfinity => true
  | _, _ => false
  end.

(** [x * 0.5] *)
Definition mulHalf (x : number) : number :=
  match x with
  | Finite k => Finite (rne k 2)
  | _ => x
  end.

Definition decimal (n : Z) : string :=
  NilZero.string_of_uint (N.to_uint (Z.to_N n)).

Definition digitChar (d : Z) : ascii :=
  ascii_of_N (Z.to_N (48 + d)).

(** [n / 100] written with exactly two decimals. *)
Definition fixed2 (n : Z) : string :=
  decimal (n / 100)
    ++ "." ++ String (digitChar (n mod 100 / 10))
                     (String (digitChar (n mod 10)) "").

(** Number::toString for a finite value of at least [10^21], given as the
    integer [V] it denotes: the shortest digit string [s] (of [kd] digits)
    with [s * 10^(n - kd)] rounding to the value, in exponential form. *)
Fixpoint shortest (fuel : nat) (kd V n : Z) : Z * Z :=
  let sc := 10 ^ (n - kd) in
  let lo := V / sc in
  let hi := lo + 1 in
  match fuel with
  | O => (lo, n)
  | S fuel' =>
      let okLo := strictEq (round64 (lo * sc) 1) (Finite (V * grid)) in
      let okHi := strictEq (round64 (hi * sc) 1) (Finite (V * grid)) in
      let dLo := V - lo * sc in
      let dHi := hi * sc - V in
      let pick (s : Z) := if s =? 10 ^ kd then (1, n + 1) else (s, n) in
      match okLo, okHi with
      | true, true =>
          if dLo <? dHi then pick lo
          else if dHi <? dLo then pick hi
          else if Z.even lo then pick lo else pick hi
      | true, false => pick lo
      | false, true => pick hi
      | false, false => shortest fuel' (kd + 1) V n
      end
  end.

Definition exponential (s n : Z) : string :=
  match decimal s with
  | String d "" => String d "" ++ "e+" ++ decimal (n - 1)
  | String d ds => String d "" ++ "." ++ ds ++ "e+" ++ decimal (n - 1)
  | "" => ""
  end.

Definition toStringLarge (V : Z) : string :=
  let n := Z.of_nat (String.length (decimal V)) in
  let '(s, n') := shortest 17 1 V n in
  exponential s n'.

(** [x.toFixed(2)]: not finite, the name of the value; from [10^21] on,
    Number::toString; otherwise the integer [n] with [n / 100] nearest to
    [x] (the larger one on a tie), printed with two decimals. *)
Definition toFixed2 (x : number) : string :=
  match x with
  | NaN => "NaN"
  | PosInfinity => "Infinity"
  | NegInfinity => "-Infinity"
  | Finite k =>
      let a := Z.abs k in
      let sign := if k <? 0 then "-" else "" in
      if a <? 10 ^ 21 * grid
      then sign ++ fixed2 ((200 * a + grid) / (2 * grid))
      else sign ++ toStringLarge (a / grid)
  end.

End JsNumber.

Import JsNumber.

(** ** Strings *)

Module JsString.

(** The double quote, which the program's templates contain. *)
Definition dq : string := String (ascii_of_N 34) "".

Definition code (c : ascii) : N := N_of_ascii c.

Definition isDigit (c : ascii) : bool :=
  ((48 <=? code c) && (code c <=? 57))%N.

(** The class [[0-9.]]. *)
Definition isNumericChar (c : ascii) : bool :=
  isDigit c || (code c =? 46)%N.

Fixpoint filterChars (keep : ascii -> bool) (s : string) : string :=
  match s with
  | "" => ""
  | String c s' =>
      if keep c then String c (filterChars keep s') else filterChars keep s'
  end.

(** [s.replace(/[^0-9.]/g, '')] *)
Definition stripNonNumeric (s : string) : string :=
  filterChars isNumericChar s.

(** *** UTF-8

    A [string] holds the UTF-8 form of the JavaScript string, one byte per
    character of the [string]. *)

Definition byte (n : N) : ascii := ascii_of_N n.

(** The UTF-8 form of a code point. *)
Definition encodeUtf8 (cp : N) : string :=
  if (cp <? 128)%N then String (byte cp) ""
  else if (cp <? 2048)%N
  then String (byte (192 + cp / 64))
         (String (byte (128 + cp mod 64)) "")
  else if (cp <? 65536)%N
  then String (byte (224 + cp / 4096))
         (String (byte (128 + (cp / 64) mod 64))
            (String (byte (128 + cp mod 64)) ""))
  else String (byte (240 + cp / 262144))
         (String (byte (128 + (cp / 4096) mod 64))
            (String (byte (128 + (cp / 64) mod 64))
               (String (byte (128 + cp mod 64)) ""))).

(** The payload of a continuation byte. *)
Definition continuation (c : ascii) : option N :=
  if ((128 <=? code c) && (code c <? 192))%N then Some (code c - 128)%N
  else None.

(** The code point whose UTF-8 form starts [s], with the number of bytes
    that follow its first byte; [None] when [s] does not start with a
    well-formed sequence (a stray byte, an overlong form, a surrogate). *)
Definition decodeUtf8 (s : string) : option (N * nat) :=
  match s with
  | "" => None
  | String a s1 =>
      let x := code a in
      if (x <? 128)%N then Some (x, 0%nat)
      else
        match s1 with
        | "" => None
        | String b s2 =>
            match continuation b with
            | None => None
            | Some y =>
                if ((194 <=? x) && (x <? 224))%N
                then Some (((x - 192) * 64 + y)%N, 1%nat)
                else
                  match s2 with
                  | "" => None
                  | String c s3 =>
                      match continuation c with
                      | None => None
                      | Some z =>
                          if ((224 <=? x) && (x <? 240))%N
                          then
                            let cp := ((x - 224) * 4096 + y * 64 + z)%N in
                            if ((2048 <=? cp)
                                && negb ((55296 <=? cp) && (cp <? 57344)))%N
                            then Some (cp, 2%nat)
                            else None
                          else
                            match s3 with
                            | "" => None
                            | String d _ =>
                                match continuation d with
                                | None => None
                                | Some u =>
                                    let cp :=
                                      ((x - 240) * 262144 + y * 4096
                                       + z * 64 + u)%N in
                                    if ((240 <=? x) && (65536 <=? cp)
                                        && (cp <? 1114112))%N
                                    then Some (cp, 3%nat)
                                    else None
                                end
                            end
                      end
                  end
            end
        end
  end.

Fixpoint dropBytes (n : nat) (s : string) : string :=
  match n, s with
  | S k, String _ s' => dropBytes k s'
  | _, _ => s
  end.

(** *** Lower case *)

(** The simple lower-case mappings of the Unicode Character Database
    (Unicode 14.0), in runs: [(first, last, step, target)] maps the code
    points [first], [first + step], ... up to [last] to [target],
    [target + step], ... *)
Definition lowerCaseRuns : list (N * N * N * N) :=
  [(65, 90, 1, 97); (192, 214, 1, 224); (216, 222, 1, 248);
   (256, 302, 2, 257); (306, 310, 2, 307); (313, 327, 2, 314);
   (330, 374, 2, 331); (376, 376, 1, 255); (377, 381, 2, 378);
   (385, 385, 1, 595); (386, 388, 2, 387); (390, 390, 1, 596);
   (391, 391, 1, 392); (393, 394, 1, 598); (395, 395, 1, 396);
   (398, 398, 1, 477); (399, 399, 1, 601); (400, 400, 1, 603);
   (401, 401, 1, 402); (403, 403, 1, 608); (404, 404, 1, 611);
   (406, 406, 1, 617); (407, 407, 1, 616); (408, 408, 1, 409);
   (412, 412, 1, 623); (413, 413, 1, 626); (415, 415, 1, 629);
   (416, 420, 2, 417); (422, 422, 1, 640); (423, 423, 1, 424);
   (425, 425, 1, 643); (428, 428, 1, 429); (430, 430, 1, 648);
   (431, 431, 1, 432); (433, 434, 1, 650); (435, 437, 2, 436);
   (439, 439, 1, 658); (440, 440, 1, 441); (444, 444, 1, 445);
   (452, 452, 1, 454); (453, 453, 1, 454); (455, 455, 1, 457);
   (456, 456, 1, 457); (458, 458, 1, 460); (459, 475, 2, 460);
   (478, 494, 2, 479); (497, 497, 1, 499); (498, 500, 2, 499);
   (502, 502, 1, 405); (503, 503, 1, 447); (504, 542, 2, 505);
   (544, 544, 1, 414); (546, 562, 2, 547); (570, 570, 1, 11365);
   (571, 571, 1, 572); (573, 573, 1, 410); (574, 574, 1, 11366);
   (577, 577, 1, 578); (579, 579, 1, 384); (580, 580, 1, 649);
   (581, 581, 1, 652); (582, 590, 2, 583); (880, 882, 2, 881);
   (886, 886, 1, 887); (895, 895, 1, 1011); (902, 902, 1, 940);
   (904, 906, 1, 941); (908, 908, 1, 972); (910, 911, 1, 973);
   (913, 929, 1, 945); (931, 939, 1, 963); (975, 975, 1, 983);
   (984, 1006, 2, 985); (1012, 1012, 1, 952); (1015, 1015, 1, 1016);
   (1017, 1017, 1, 1010); (1018, 1018, 1, 1019); (1021, 1023, 1, 891);
   (1024, 1039, 1, 1104); (1040, 1071, 1, 1072); (1120, 1152, 2, 1121);
   (1162, 1214, 2, 1163); (1216, 1216, 1, 1231); (1217, 1229, 2, 1218);
   (1232, 1326, 2, 1233); (1329, 1366, 1, 1377); (4256, 4293, 1, 11520);
   (4295, 4295, 1, 11559); (4301, 4301, 1, 11565); (5024, 5103, 1, 43888);
   (5104, 5109, 1, 5112); (7312, 7354, 1, 4304); (7357, 7359, 1, 4349);
   (7680, 7828, 2, 7681); (7838, 7838, 1, 223); (7840, 7934, 2, 7841);
   (7944, 7951, 1, 7936); (7960, 7965, 1, 7952); (7976, 7983, 1, 7968);
   (7992, 7999, 1, 7984); (8008, 8013, 1, 8000); (8025, 8031, 2, 8017);
   (8040, 8047, 1, 8032); (8072, 8079, 1, 8064); (8088, 8095, 1, 8080);
   (8104, 8111, 1, 8096); (8120, 8121, 1, 8112); (8122, 8123, 1, 8048);
   (8124, 8124, 1, 8115); (8136, 8139, 1, 8050); (8140, 8140, 1, 8131);
   (8152, 8153, 1, 8144); (8154, 8155, 1, 8054); (8168, 8169, 1, 8160);
   (8170, 8171, 1, 8058); (8172, 8172, 1, 8165); (8184, 8185, 1, 8056);
   (8186, 8187, 1, 8060); (8188, 8188, 1, 8179); (8486, 8486, 1, 969);
   (8490, 8490, 1, 107); (8491, 8491, 1, 229); (8498, 8498, 1, 8526);
   (8544, 8559, 1, 8560); (8579, 8579, 1, 8580); (9398, 9423, 1, 9424);
   (11264, 11311, 1, 11312); (11360, 11360, 1, 11361);
   (11362, 11362, 1, 619); (11363, 11363, 1, 7549); (11364, 11364, 1, 637);
   (11367, 11371, 2, 11368); (11373, 11373, 1, 593); (11374, 11374, 1, 625);
   (11375, 11375, 1, 592); (11376, 11376, 1, 594); (11378, 11378, 1, 11379);
   (11381, 11381, 1, 11382); (11390, 11391, 1, 575);
   (11392, 11490, 2, 11393); (11499, 11501, 2, 11500);
   (11506, 11506, 1, 11507); (42560, 42604, 2, 42561);
   (42624, 42650, 2, 42625); (42786, 42798, 2, 42787);
   (42802, 42862, 2, 42803); (42873, 42875, 2, 42874);
   (42877, 42877, 1, 7545); (42878, 42886, 2, 42879);
   (42891, 42891, 1, 42892); (42893, 42893, 1, 613);
   (42896, 42898, 2, 42897); (42902, 42920, 2, 42903);
   (42922, 42922, 1, 614); (42923, 42923, 1, 604); (42924, 42924, 1, 609);
   (42925, 42925, 1, 620); (42926, 42926, 1, 618); (42928, 42928, 1, 670);
   (42929, 42929, 1, 647); (42930, 42930, 1, 669); (42931, 42931, 1, 43859);
   (42932, 42946, 2, 42933); (42948, 42948, 1, 42900);
   (42949, 42949, 1, 642); (42950, 42950, 1, 7566); (42951, 42953, 2, 42952);
   (42960, 42960, 1, 42961); (42966, 42968, 2, 42967);
   (42997, 42997, 1, 42998); (65313, 65338, 1, 65345);
   (66560, 66599, 1, 66600); (66736, 66771, 1, 66776);
   (66928, 66938, 1, 66967); (66940, 66954, 1, 66979);
   (66956, 66962, 1, 66995); (66964, 66965, 1, 67003);
   (68736, 68786, 1, 68800); (71840, 71871, 1, 71872);
   (93760, 93791, 1, 93792); (125184, 125217, 1, 125218)]%N.

(** The code points with the property Case_Ignorable, in ranges. *)
Definition caseIgnorableRanges : list (N * N) :=
  [(39, 39); (46, 46); (58, 58); (94, 94); (96, 96); (168, 168); (173, 173);
   (175, 175); (180, 180); (183, 184); (688, 879); (884, 885); (890, 890);
   (900, 901); (903, 903); (1155, 1161); (1369, 1369); (1375, 1375);
   (1425, 1469); (1471, 1471); (1473, 1474); (1476, 1477); (1479, 1479);
   (1524, 1524); (1536, 1541); (1552, 1562); (1564, 1564); (1600, 1600);
   (1611, 1631); (1648, 1648); (1750, 1757); (1759, 1768); (1770, 1773);
   (1807, 1807); (1809, 1809); (1840, 1866); (1958, 1968); (2027, 2037);
   (2042, 2042); (2045, 2045); (2070, 2093); (2137, 2139); (2184, 2184);
   (2192, 2193); (2200, 2207); (2249, 2306); (2362, 2362); (2364, 2364);
   (2369, 2376); (2381, 2381); (2385, 2391); (2402, 2403); (2417, 2417);
   (2433, 2433); (2492, 2492); (2497, 2500); (2509, 2509); (2530, 2531);
   (2558, 2558); (2561, 2562); (2620, 2620); (2625, 2626); (2631, 2632);
   (2635, 2637); (2641, 2641); (2672, 2673); (2677, 2677); (2689, 2690);
   (2748, 2748); (2753, 2757); (2759, 2760); (2765, 2765); (2786, 2787);
   (2810, 2815); (2817, 2817); (2876, 2876); (2879, 2879); (2881, 2884);
   (2893, 2893); (2901, 2902); (2914, 2915); (2946, 2946); (3008, 3008);
   (3021, 3021); (3072, 3072); (3076, 3076); (3132, 3132); (3134, 3136);
   (3142, 3144); (3146, 3149); (3157, 3158); (3170, 3171); (3201, 3201);
   (3260, 3260); (3263, 3263); (3270, 3270); (3276, 3277); (3298, 3299);
   (3328, 3329); (3387, 3388); (3393, 3396); (3405, 3405); (3426, 3427);
   (3457, 3457); (3530, 3530); (3538, 3540); (3542, 3542); (3633, 3633);
   (3636, 3642); (3654, 3662); (3761, 3761); (3764, 3772); (3782, 3782);
   (3784, 3789); (3864, 3865); (3893, 3893); (3895, 3895); (3897, 3897);
   (3953, 3966); (3968, 3972); (3974, 3975); (3981, 3991); (3993, 4028);
   (4038, 4038); (4141, 4144); (4146, 4151); (4153, 4154); (4157, 4158);
   (4184, 4185); (4190, 4192); (4209, 4212); (4226, 4226); (4229, 4230);
   (4237, 4237); (4253, 4253); (4348, 4348); (4957, 4959); (5906, 5908);
   (5938, 5939); (5970, 5971); (6002, 6003); (6068, 6069); (6071, 6077);
   (6086, 6086); (6089, 6099); (6103, 6103); (6109, 6109); (6155, 6159);
   (6211, 6211); (6277, 6278); (6313, 6313); (6432, 6434); (6439, 6440);
   (6450, 6450); (6457, 6459); (6679, 6680); (6683, 6683); (6742, 6742);
   (6744, 6750); (6752, 6752); (6754, 6754); (6757, 6764); (6771, 6780);
   (6783, 6783); (6823, 6823); (6832, 6862); (6912, 6915); (6964, 6964);
   (6966, 6970); (6972, 6972); (6978, 6978); (7019, 7027); (7040, 7041);
   (7074, 7077); (7080, 7081); (7083, 7085); (7142, 7142); (7144, 7145);
   (7149, 7149); (7151, 7153); (7212, 7219); (7222, 7223); (7288, 7293);
   (7376, 7378); (7380, 7392); (7394, 7400); (7405, 7405); (7412, 7412);
   (7416, 7417); (7468, 7530); (7544, 7544); (7579, 7679); (8125, 8125);
   (8127, 8129); (8141, 8143); (8157, 8159); (8173, 8175); (8189, 8190);
   (8203, 8207); (8216, 8217); (8228, 8228); (8231, 8231); (8234, 8238);
   (8288, 8292); (8294, 8303); (8305, 8305); (8319, 8319); (8336, 8348);
   (8400, 8432); (11388, 11389); (11503, 11505); (11631, 11631);
   (11647, 11647); (11744, 11775); (11823, 11823); (12293, 12293);
   (12330, 12333); (12337, 12341); (12347, 12347); (12441, 12446);
   (12540, 12542); (40981, 40981); (42232, 42237); (42508, 42508);
   (42607, 42610); (42612, 42621); (42623, 42623); (42652, 42655);
   (42736, 42737); (42752, 42785); (42864, 42864); (42888, 42890);
   (42994, 42996); (43000, 43001); (43010, 43010); (43014, 43014);
   (43019, 43019); (43045, 43046); (43052, 43052); (43204, 43205);
   (43232, 43249); (43263, 43263); (43302, 43309); (43335, 43345);
   (43392, 43394); (43443, 43443); (43446, 43449); (43452, 43453);
   (43471, 43471); (43493, 43494); (43561, 43566); (43569, 43570);
   (43573, 43574); (43587, 43587); (43596, 43596); (43632, 43632);
   (43644, 43644); (43696, 43696); (43698, 43700); (43703, 43704);
   (43710, 43711); (43713, 43713); (43741, 43741); (43756, 43757);
   (43763, 43764); (43766, 43766); (43867, 43871); (43881, 43883);
   (44005, 44005); (44008, 44008); (44013, 44013); (64286, 64286);
   (64434, 64450); (65024, 65039); (65043, 65043); (65056, 65071);
   (65106, 65106); (65109, 65109); (65279, 65279); (65287, 65287);
   (65294, 65294); (65306, 65306); (65342, 65342); (65344, 65344);
   (65392, 65392); (65438, 65439); (65507, 65507); (65529, 65531);
   (66045, 66045); (66272, 66272); (66422, 66426); (67456, 67461);
   (67463, 67504); (67506, 67514); (68097, 68099); (68101, 68102);
   (68108, 68111); (68152, 68154); (68159, 68159); (68325, 68326);
   (68900, 68903); (69291, 69292); (69446, 69456); (69506, 69509);
   (69633, 69633); (69688, 69702); (69744, 69744); (69747, 69748);
   (69759, 69761); (69811, 69814); (69817, 69818); (69821, 69821);
   (69826, 69826); (69837, 69837); (69888, 69890); (69927, 69931);
   (69933, 69940); (70003, 70003); (70016, 70017); (70070, 70078);
   (70089, 70092); (70095, 70095); (70191, 70193); (70196, 70196);
   (70198, 70199); (70206, 70206); (70367, 70367); (70371, 70378);
   (70400, 70401); (70459, 70460); (70464, 70464); (70502, 70508);
   (70512, 70516); (70712, 70719); (70722, 70724); (70726, 70726);
   (70750, 70750); (70835, 70840); (70842, 70842); (70847, 70848);
   (70850, 70851); (71090, 71093); (71100, 71101); (71103, 71104);
   (71132, 71133); (71219, 71226); (71229, 71229); (71231, 71232);
   (71339, 71339); (71341, 71341); (71344, 71349); (71351, 71351);
   (71453, 71455); (71458, 71461); (71463, 71467); (71727, 71735);
   (71737, 71738); (71995, 71996); (71998, 71998); (72003, 72003);
   (72148, 72151); (72154, 72155); (72160, 72160); (72193, 72202);
   (72243, 72248); (72251, 72254); (72263, 72263); (72273, 72278);
   (72281, 72283); (72330, 72342); (72344, 72345); (72752, 72758);
   (72760, 72765); (72767, 72767); (72850, 72871); (72874, 72880);
   (72882, 72883); (72885, 72886); (73009, 73014); (73018, 73018);
   (73020, 73021); (73023, 73029); (73031, 73031); (73104, 73105);
   (73109, 73109); (73111, 73111); (73459, 73460); (78896, 78904);
   (92912, 92916); (92976, 92982); (92992, 92995); (94031, 94031);
   (94095, 94111); (94176, 94177); (94179, 94180); (110576, 110579);
   (110581, 110587); (110589, 110590); (113821, 113822); (113824, 113827);
   (118528, 118573); (118576, 118598); (119143, 119145); (119155, 119170);
   (119173, 119179); (119210, 119213); (119362, 119364); (121344, 121398);
   (121403, 121452); (121461, 121461); (121476, 121476); (121499, 121503);
   (121505, 121519); (122880, 122886); (122888, 122904); (122907, 122913);
   (122915, 122916); (122918, 122922); (123184, 123197); (123566, 123566);
   (123628, 123631); (125136, 125142); (125252, 125259); (127995, 127999);
   (917505, 917505); (917536, 917631); (917760, 917999)]%N.

(** The code points with the property Cased that are not Case_Ignorable,
    in ranges. *)
Definition casedRanges : list (N * N) :=
  [(65, 90); (97, 122); (170, 170); (181, 181); (186, 186); (192, 214);
   (216, 246); (248, 442); (444, 447); (452, 659); (661, 687); (880, 883);
   (886, 887); (891, 893); (895, 895); (902, 902); (904, 906); (908, 908);
   (910, 929); (931, 1013); (1015, 1153); (1162, 1327); (1329, 1366);
   (1376, 1416); (4256, 4293); (4295, 4295); (4301, 4301); (4304, 4346);
   (4349, 4351); (5024, 5109); (5112, 5117); (7296, 7304); (7312, 7354);
   (7357, 7359); (7424, 7467); (7531, 7543); (7545, 7578); (7680, 7957);
   (7960, 7965); (7968, 8005); (8008, 8013); (8016, 8023); (8025, 8025);
   (8027, 8027); (8029, 8029); (8031, 8061); (8064, 8116); (8118, 8124);
   (8126, 8126); (8130, 8132); (8134, 8140); (8144, 8147); (8150, 8155);
   (8160, 8172); (8178, 8180); (8182, 8188); (8450, 8450); (8455, 8455);
   (8458, 8467); (8469, 8469); (8473, 8477); (8484, 8484); (8486, 8486);
   (8488, 8488); (8490, 8493); (8495, 8500); (8505, 8505); (8508, 8511);
   (8517, 8521); (8526, 8526); (8544, 8575); (8579, 8580); (9398, 9449);
   (11264, 11387); (11390, 11492); (11499, 11502); (11506, 11507);
   (11520, 11557); (11559, 11559); (11565, 11565); (42560, 42605);
   (42624, 42651); (42786, 42863); (42865, 42887); (42891, 42894);
   (42896, 42954); (42960, 42961); (42963, 42963); (42965, 42969);
   (42997, 42998); (43002, 43002); (43824, 43866); (43872, 43880);
   (43888, 43967); (64256, 64262); (64275, 64279); (65313, 65338);
   (65345, 65370); (66560, 66639); (66736, 66771); (66776, 66811);
   (66928, 66938); (66940, 66954); (66956, 66962); (66964, 66965);
   (66967, 66977); (66979, 66993); (66995, 67001); (67003, 67004);
   (68736, 68786); (68800, 68850); (71840, 71903); (93760, 93823);
   (119808, 119892); (119894, 119964); (119966, 119967); (119970, 119970);
   (119973, 119974); (119977, 119980); (119982, 119993); (119995, 119995);
   (119997, 120003); (120005, 120069); (120071, 120074); (120077, 120084);
   (120086, 120092); (120094, 120121); (120123, 120126); (120128, 120132);
   (120134, 120134); (120138, 120144); (120146, 120485); (120488, 120512);
   (120514, 120538); (120540, 120570); (120572, 120596); (120598, 120628);
   (120630, 120654); (120656, 120686); (120688, 120712); (120714, 120744);
   (120746, 120770); (120772, 120779); (122624, 122633); (122635, 122654);
   (125184, 125251); (127280, 127305); (127312, 127337); (127344, 127369)]%N.

Definition inRanges (ranges : list (N * N)) (cp : N) : bool :=
  existsb (fun r => ((fst r <=? cp) && (cp <=? snd r))%N) ranges.

Definition caseIgnorable (cp : N) : bool := inRanges caseIgnorableRanges cp.

(** Cased and not Case_Ignorable. *)
Definition cased (cp : N) : bool := inRanges casedRanges cp.

Fixpoint lookupLower (cp : N) (runs : list (N * N * N * N)) : N :=
  match runs with
  | [] => cp
  | (first, last, step, target) :: runs' =>
      if ((first <=? cp) && (cp <=? last) && ((cp - first) mod step =? 0))%N
      then (target + (cp - first))%N
      else lookupLower cp runs'
  end.

(** The lower-case form of a code point other than U+03A3: U+0130 is the
    one code point whose form has two code points. *)
Definition lowerCodePoint (cp : N) : string :=
  if (cp =? 304)%N then (encodeUtf8 105 ++ encodeUtf8 775)%string
  else encodeUtf8 (lookupLower cp lowerCaseRuns).

(** Whether a cased letter comes next in [s], after [skip] bytes and any
    number of case-ignorable characters. *)
Fixpoint casedAhead (skip : nat) (s : string) : bool :=
  match s with
  | "" => false
  | String _ s' =>
      match skip with
      | S k => casedAhead k s'
      | O =>
          match decodeUtf8 s with
          | None => false
          | Some (cp, n) =>
              if caseIgnorable cp then casedAhead n s' else cased cp
          end
      end
  end.

(** The loop of [toLowerCase]: [skip] bytes of the character in hand are
    still to be passed, and [afterCased] tells whether the last character
    that is not case-ignorable was a cased letter.  U+03A3 becomes U+03C2
    in the Final_Sigma context (after a cased letter and not before one,
    case-ignorable characters apart) and U+03C3 elsewhere.  A byte that is
    not part of a well-formed sequence is kept. *)
Fixpoint lowerLoop (skip : nat) (afterCased : bool) (s : string) : string :=
  match s with
  | "" => ""
  | String a s' =>
      match skip with
      | S k => lowerLoop k afterCased s'
      | O =>
          match decodeUtf8 s with
          | None => String a (lowerLoop O false s')
          | Some (cp, n) =>
              let lower :=
                if (cp =? 931)%N
                then if afterCased && negb (casedAhead n s')
                     then encodeUtf8 962 else encodeUtf8 963
                else lowerCodePoint cp in
              let afterCased' :=
                if caseIgnorable cp then afterCased else cased cp in
              (lower ++ lowerLoop n afterCased' s')%string
          end
      end
  end.

(** [s.toLowerCase()] *)
Definition toLowerCase (s : string) : string := lowerLoop O false s.

(** [s.includes(t)] *)
Fixpoint includes (s t : string) : bool :=
  String.prefix t s
  || match s with
     | "" => false
     | String _ s' => includes s' t
     end.

(** *** White space

    The characters of the class [\s], which are also those that [trim]
    removes: TAB, LF, VT, FF, CR, SPACE, U+00A0, U+1680, U+2000 to U+200A,
    U+2028, U+2029, U+202F, U+205F, U+3000 and U+FEFF. *)
Definition whiteSpace : list N :=
  [9; 10; 11; 12; 13; 32; 160; 5760; 8192; 8193; 8194; 8195; 8196; 8197;
   8198; 8199; 8200; 8201; 8202; 8232; 8233; 8239; 8287; 12288; 65279]%N.

(** [s] starts with [p]. *)
Fixpoint startsWith (p s : string) : bool :=
  match p with
  | "" => true
  | String a p' =>
      match s with
      | "" => false
      | String b s' => Ascii.eqb a b && startsWith p' s'
      end
  end.

(** The number of bytes of the white space character at the head of [s];
    [0] when [s] does not start with white space. *)
Definition spaceWidth (s : string) : nat :=
  match find (fun cp => startsWith (encodeUtf8 cp) s) whiteSpace with
  | Some cp => String.length (encodeUtf8 cp)
  | None => O
  end.

(** [s] after [skip] bytes and the white space that follows them. *)
Fixpoint dropSpaces (skip : nat) (s : string) : string :=
  match s with
  | "" => ""
  | String _ s' =>
      match skip with
      | S k => dropSpaces k s'
      | O =>
          match spaceWidth s with
          | S k => dropSpaces k s'
          | O => s
          end
      end
  end.

(** [s] without the white space at its start. *)
Definition skipSpaces (s : string) : string := dropSpaces O s.

Definition isEmpty (s : string) : bool :=
  match s with "" => true | _ => false end.

(** [s] is made of white space only. *)
Definition isBlank (s : string) : bool := isEmpty (skipSpaces s).

(** [s] without the white space at its end. *)
Fixpoint trimEnd (s : string) : string :=
  match s with
  | "" => ""
  | String c s' => if isBlank s then "" else String c (trimEnd s')
  end.

Fixpoint reverseOnto (s acc : string) : string :=
  match s with
  | "" => acc
  | String c s' => reverseOnto s' (String c acc)
  end.

Definition reverse (s : string) : string := reverseOnto s "".

(** [s.trim()] *)
Definition trim (s : string) : string := trimEnd (skipSpaces s).

(** [s.replace(/\n/g, '<br>')] *)
Fixpoint replaceNewlines (s : string) : string :=
  match s with
  | "" => ""
  | String c s' =>
      if (code c =? 10)%N then "<br>" ++ replaceNewlines s'
      else String c (replaceNewlines s')
  end.

(** One attempt of the pattern [\s*\/\s*|\s+>] at the start of [s]:
    the number of bytes the match consumes, if there is one.  The
    first alternative is a maximal run of white space, a slash and a
    maximal run of white space; the second is a non-empty run of white
    space followed by [>].  Backtracking into a run of white space cannot
    help either alternative, since the character after a shorter run is
    white space. *)
Definition separatorLength (s : string) : option nat :=
  let r := skipSpaces s in
  let lead := (String.length s - String.length r)%nat in
  match r with
  | String c r' =>
      if (code c =? 47)%N
      then Some (lead + 1 + (String.length r' - String.length (skipSpaces r')))%nat
      else if (code c =? 62)%N
           then match lead with O => None | _ => Some (lead + 1)%nat end
           else None
  | "" => None
  end.

(** The loop of [String.prototype.split] for that pattern: [cur] holds,
    reversed, the bytes since the end of the last separator, and
    [skip] the bytes of the current separator still to be passed.
    A position where the pattern does not match joins the current
    piece. *)
Fixpoint splitLoop (skip : nat) (cur : string) (s : string) : list string :=
  match s with
  | "" => [reverse cur]
  | String c s' =>
      match skip with
      | S k => splitLoop k cur s'
      | O =>
          match separatorLength s with
          | Some (S k) => reverse cur :: splitLoop k "" s'
          | _ => splitLoop O (String c cur) s'
          end
      end
  end.

(** [s.split(/\s*\/\s*|\s+>/g)] *)
Definition splitCategory (s : string) : list string := splitLoop O "" s.

(** The digits at the head of [s] (as a number, with their count) and
    what follows them. *)
Fixpoint spanDigits (acc : Z) (n : nat) (s : string) : Z * nat * string :=
  match s with
  | String c s' =>
      if isDigit c
      then spanDigits (10 * acc + Z.of_N (code c - 48)) (S n) s'
      else (acc, n, s)
  | "" => (acc, n, s)
  end.

(** [parseFloat(s)] on the strings the program passes to it, which
    consist of digits and dots: the longest prefix of the form
    [digits], [digits.], [digits.digits] or [.digits], as the nearest
    Number; [NaN] when there is no such prefix. *)
Definition parseFloat (s : string) : number :=
  let '(ip, ni, r) := spanDigits 0 O s in
  match r with
  | String c r' =>
      if (code c =? 46)%N
      then
        let '(v, nf, _) := spanDigits ip O r' in
        match ni, nf with
        | O, O => NaN
        | _, _ => round64 v (10 ^ Z.of_nat nf)
        end
      else match ni with O => NaN | _ => round64 ip 1 end
  | "" => match ni with O => NaN | _ => round64 ip 1 end
  end.

End JsString.

Import JsString.

(** ** Configuration and data *)

(** The fields of [CONFIG] the pipeline reads.  [minPrice] and [maxPrice]
    are [None] for [null]. *)
Record Config : Type := {
  searchTerms : list string;
  minPrice : option number;
  maxPrice : option number;
  includeFreeItems : bool;
  activeHours_start : Z;
  activeHours_end : Z;
  email_sender : string;
  email_recipients : list string;
  fetchListingDetails : bool;
  priceEstimationEnabled : bool;
  qualityIncludeKeywords : list string;
  qualityExcludeKeywords : list string
}.

(** A value of [categoryAvgPrices]: a number or anything else. *)
Inductive JsValue : Type :=
| VNumber (x : number)
| VOther.

(** [categoryAvgPrices], as the list of its entries in the order of
    [Object.keys]. *)
Definition CategoryAvgPrices : Type := list (string * JsValue).

Fixpoint property (key : string) (o : CategoryAvgPrices) : option JsValue :=
  match o with
  | [] => None
  | (k, v) :: o' => if String.eqb k key then Some v else property key o'
  end.

(** The value of [node.listing.id]: a string, or missing, or [null] (what
    a missing id becomes when the seen ids are written as JSON). *)
Inductive JsId : Type :=
| IdUndefined
| IdNull
| IdString (s : string).

Definition JsId_eqb (a b : JsId) : bool :=
  match a, b with
  | IdUndefined, IdUndefined => true
  | IdNull, IdNull => true
  | IdString s, IdString t => String.eqb s t
  | _, _ => false
  end.

(** The text of an id inside a template literal. *)
Definition idText (i : JsId) : string :=
  match i with
  | IdUndefined => "undefined"
  | IdNull => "null"
  | IdString s => s
  end.

Record ListingPrice : Type := { formatted_amount : option string }.

Record RawListing : Type := {
  id : JsId;
  marketplace_listing_title : option string;
  listing_price : option ListingPrice
}.

Record Node : Type := { listing : option RawListing }.

(** An element of [edges]; [None] when [val?.node] is missing. *)
Definition Edge : Type := option Node.

Record Item : Type := {
  title : string;
  price : string;
  link : string;
  description : string;
  image : string;
  estimate : string
}.

(** [x || d] for an optional string: the empty string is falsy. *)
Definition orElse (x : option string) (d : string) : string :=
  match x with
  | Some s => if isEmpty s then d else s
  | None => d
  end.

(** ** The seen-id set *)

Definition IdSet : Type := list JsId.

Definition has (s : IdSet) (i : JsId) : bool := existsb (JsId_eqb i) s.

Definition add (s : IdSet) (i : JsId) : IdSet :=
  if has s i then s else s ++ [i].

(** [new Set(array)] *)
Definition newSet (l : list JsId) : IdSet := fold_left add l [].

(** ** Resale estimate *)

Section Estimate.

Variable CONFIG : Config.
Variable categoryAvgPrices : CategoryAvgPrices.

Definition tokenMatches (lowerTitle token : string) : bool :=
  negb (isEmpty token) && includes lowerTitle token.

Definition categoryMatches (lowerTitle categoryName : string) : bool :=
  existsb (tokenMatches lowerTitle) (splitCategory (toLowerCase categoryName)).

(** The loop over [Object.keys(categoryAvgPrices)]. *)
Fixpoint matchCategory (lowerTitle : string) (keys : list string)
  : option string :=
  match keys with
  | [] => None
  | categoryName :: keys' =>
      if categoryMatches lowerTitle categoryName
      then Some categoryName
      else matchCategory lowerTitle keys'
  end.

Definition estimateResaleValue (priceStr title description : string)
  : string :=
  if negb (priceEstimationEnabled CONFIG) then ""
  else
    let clean := stripNonNumeric priceStr in
    let num := parseFloat clean in
    if negb (isNaN num) && gtb num zero
    then "$" ++ toFixed2 (mulHalf num)
    else
      let lowerTitle := toLowerCase title in
      match matchCategory lowerTitle (map fst categoryAvgPrices) with
      | Some matchedCategory =>
          match property matchedCategory categoryAvgPrices with
          | Some (VNumber avg) =>
              if gtb avg zero then "$" ++ toFixed2 (mulHalf avg) else "n/a"
          | _ => "n/a"
          end
      | None => "n/a"
      end.

End Estimate.

(** ** The filtering stage of [scrapeTerm] *)

(** The [continue] statements of the loop over [edges], in source order. *)
Inductive Skip : Type :=
| NoListing
| AlreadySeen
| ExcludedKeyword
| MissingKeyword
| FreeNotWanted
| BelowMin
| AboveMax.

Definition numericPrice (price : string) : number :=
  let clean := stripNonNumeric price in
  if (String.length clean =? 0)%nat then zero
  else
    let num := parseFloat clean in
    if isNaN num then zero else num.

(** [keywords.some(k => lowerTitle.includes(k.toLowerCase()))] *)
Definition someKeyword (lowerTitle : string) (keywords : list string) : bool :=
  existsb (fun k => includes lowerTitle (toLowerCase k)) keywords.

Definition itemLink (i : JsId) : string :=
  "https://www.facebook.com/marketplace/item/" ++ idText i.

(** [node.listing.marketplace_listing_title || 'Untitled'] *)
Definition listingTitle (l : RawListing) : string :=
  orElse (marketplace_listing_title l) "Untitled".

(** [node.listing.listing_price?.formatted_amount || 'Unknown'] *)
Definition listingPrice (l : RawListing) : string :=
  orElse (match listing_price l with
          | Some p => formatted_amount p
          | None => None
          end) "Unknown".

Section ScrapeLoop.

Variable CONFIG : Config.

(** The keyword and price tests of the loop, in source order: the
    [continue] taken, or [None] when the record passes them all. *)
Definition filterRules (lowerTitle : string) (numericPrice : number)
  : option Skip :=
  if strictEq numericPrice zero
     && someKeyword lowerTitle (qualityExcludeKeywords CONFIG)
  then Some ExcludedKeyword
  else if strictEq numericPrice zero
          && (0 <? List.length (qualityIncludeKeywords CONFIG))%nat
          && negb (someKeyword lowerTitle (qualityIncludeKeywords CONFIG))
  then Some MissingKeyword
  else if negb (includeFreeItems CONFIG) && strictEq numericPrice zero
  then Some FreeNotWanted
  else if match minPrice CONFIG with
          | Some lo => ltb numericPrice lo
          | None => false
          end
  then Some BelowMin
  else if match maxPrice CONFIG with
          | Some hi => gtb numericPrice hi
          | None => false
          end
  then Some AboveMax
  else None.

(** One iteration of the loop, up to the decision: the [continue] taken,
    or the id to mark and the item to push. *)
Definition examine (pastItems : IdSet) (val : Edge) : Skip + (JsId * Item) :=
  match val with
  | None => inl NoListing
  | Some node =>
      match listing node with
      | None => inl NoListing
      | Some l =>
          let id := id l in
          let title := listingTitle l in
          let price := listingPrice l in
          let link := itemLink id in
          if has pastItems id then inl AlreadySeen
          else
            match filterRules (toLowerCase title) (numericPrice price) with
            | Some s => inl s
            | None =>
                inr (id, {| title := title; price := price; link := link;
                            description := ""; image := "";
                            estimate := "" |})
            end
      end
  end.

(** The loop body: [pastItems.add(id); newItems.push(item)] when no
    [continue] is taken. *)
Definition filterStep (st : IdSet * list Item) (val : Edge)
  : IdSet * list Item :=
  match examine (fst st) val with
  | inl _ => st
  | inr (id, item) => (add (fst st) id, snd st ++ [item])
  end.

(** The whole loop, from an empty [newItems]. *)
Definition filterEdges (pastItems : IdSet) (edges : list Edge)
  : IdSet * list Item :=
  fold_left filterStep edges (pastItems, []).

End ScrapeLoop.

(** The edge of a feed node that carries the listing [l]. *)
Definition edgeOf (l : RawListing) : Edge := Some {| listing := Some l |}.

(** ** The outside world *)

(** How a call ends: with a value, or with an exception. *)
Inductive Outcome (A : Type) : Type :=
| Returned (a : A)
| Thrown.

Arguments Returned {A} a.
Arguments Thrown {A}.

(** A file: its content when it exists, and whether reads and writes of it
    succeed. *)
Record File (A : Type) : Type := {
  content : option A;
  readable : bool;
  writable : bool
}.

Arguments content {A} f.
Arguments readable {A} f.
Arguments writable {A} f.

(** What [pastItems.json] holds, as [JSON.parse] and [new Set] see it:
    text that does not parse or whose [pastItems] cannot be iterated, an
    object without [pastItems], or an object with the array of ids. *)
Inductive PastData : Type :=
| Malformed
| NoList
| IdList (ids : list JsId).

Record Mail : Type := {
  from : string;
  to : string;
  subject : string;
  text : string;
  html : string
}.

(** The calls that act on the world, in the order they are made. *)
Inductive Effect : Type :=
| WritePastItems (d : PastData)
| AppendBuffer (s : string)
| WriteBuffer (s : string)
| SendMail (m : Mail).

Record World : Type := {
  pastItemsFile : File PastData;
  bufferFile : File string;
  journal : list Effect
}.

(** Computations that read and change the world and may throw. *)
Definition M (A : Type) : Type := World -> World * Outcome A.

Definition ret {A : Type} (a : A) : M A := fun w => (w, Returned a).

Definition throw {A : Type} : M A := fun w => (w, Thrown).

Definition bind {A B : Type} (c : M A) (k : A -> M B) : M B :=
  fun w =>
    match c w with
    | (w', Returned a) => k a w'
    | (w', Thrown) => (w', Thrown)
    end.

(** [try { c } catch (err) { handler }] *)
Definition tryCatch {A : Type} (c : M A) (handler : M A) : M A :=
  fun w =>
    match c w with
    | (w', Returned a) => (w', Returned a)
    | (w', Thrown) => handler w'
    end.

Notation "x <- c ;; k" := (bind c (fun x => k))
  (at level 61, c at next level, right associativity).
Notation "c ;;; k" := (bind c (fun _ => k))
  (at level 61, right associativity).

Definition record (e : Effect) : M unit :=
  fun w =>
    ({| pastItemsFile := pastItemsFile w;
        bufferFile := bufferFile w;
        journal := journal w ++ [e] |}, Returned tt).

Definition setPastItemsFile (f : File PastData) : M unit :=
  fun w =>
    ({| pastItemsFile := f; bufferFile := bufferFile w;
        journal := journal w |}, Returned tt).

Definition setBufferFile (f : File string) : M unit :=
  fun w =>
    ({| pastItemsFile := pastItemsFile w; bufferFile := f;
        journal := journal w |}, Returned tt).

Definition store {A : Type} (f : File A) (c : A) : File A :=
  {| content := Some c; readable := readable f; writable := writable f |}.

(** [fs.existsSync(PAST_ITEMS_FILE)] *)
Definition existsPastItems : M bool :=
  fun w =>
    (w, Returned (match content (pastItemsFile w) with
                  | Some _ => true
                  | None => false
                  end)).

(** [JSON.parse(fs.readFileSync(PAST_ITEMS_FILE, 'utf-8'))] *)
Definition readPastItems : M PastData :=
  fun w =>
    match content (pastItemsFile w) with
    | Some d => if readable (pastItemsFile w) then (w, Returned d)
                else (w, Thrown)
    | None => (w, Thrown)
    end.

(** [fs.writeFileSync(PAST_ITEMS_FILE, JSON.stringify(d), 'utf-8')] *)
Definition writePastItems (d : PastData) : M unit :=
  record (WritePastItems d) ;;;
  fun w =>
    if writable (pastItemsFile w)
    then setPastItemsFile (store (pastItemsFile w) d) w
    else (w, Thrown).

(** [fs.existsSync(BUFFER_FILE)] *)
Definition existsBuffer : M bool :=
  fun w =>
    (w, Returned (match content (bufferFile w) with
                  | Some _ => true
                  | None => false
                  end)).

(** [fs.readFileSync(BUFFER_FILE, 'utf-8')] *)
Definition readBuffer : M string :=
  fun w =>
    match content (bufferFile w) with
    | Some s => if readable (bufferFile w) then (w, Returned s)
                else (w, Thrown)
    | None => (w, Thrown)
    end.

(** [fs.writeFileSync(BUFFER_FILE, s, 'utf-8')] *)
Definition writeBuffer (s : string) : M unit :=
  record (WriteBuffer s) ;;;
  fun w =>
    if writable (bufferFile w)
    then setBufferFile (store (bufferFile w) s) w
    else (w, Thrown).

(** [fs.appendFileSync(BUFFER_FILE, s, 'utf-8')], which creates the file
    when it is missing. *)
Definition appendBuffer (s : string) : M unit :=
  record (AppendBuffer s) ;;;
  fun w =>
    if writable (bufferFile w)
    then setBufferFile
           (store (bufferFile w)
              (match content (bufferFile w) with
               | Some old => (old ++ s)%string
               | None => s
               end)) w
    else (w, Thrown).

(** [transporter.sendMail(mailOptions, callback)]: the call is made; its
    result only reaches the callback, which logs it. *)
Definition sendMail (m : Mail) : M unit := record (SendMail m).

(** ** Persistence of the seen ids *)

(** An array element as [JSON.stringify] writes it. *)
Definition toJson (i : JsId) : JsId :=
  match i with
  | IdUndefined => IdNull
  | _ => i
  end.

Definition loadPastItems : M IdSet :=
  tryCatch
    (present <- existsPastItems ;;
     (if negb present then writePastItems (IdList []) else ret tt) ;;;
     data <- readPastItems ;;
     match data with
     | Malformed => throw
     | NoList => ret (newSet [])
     | IdList ids => ret (newSet ids)
     end)
    (ret (newSet [])).

Definition savePastItems (set : IdSet) : M unit :=
  tryCatch
    (let array := set in
     writePastItems (IdList (map toJson array)))
    (ret tt).

(** ** What the page, the detail fetcher and the clock answer for a term *)

(** The first half of [scrapeTerm]: navigation throws, the page has no
    [marketplace_search] data, the data does not parse, or it parses and
    [edges] is read from it. *)
Inductive SearchResult : Type :=
| SearchThrows
| NoMarketplaceData
| UnparsableJson
| FeedEdges (edges : list Edge).

Record Details : Type := {
  details_description : string;
  details_image : string
}.

Record TermEnv : Type := {
  search : SearchResult;
  detailPageOpens : bool;
  detailPageCloses : bool;
  (** [fetchListingDetails(detailPage, link)], which catches its own
      errors and then answers with empty strings *)
  fetchedDetails : string -> Details;
  (** [new Date().getHours()] and [new Date().toLocaleString()] *)
  nowHour : Z;
  nowStamp : string
}.

Definition nl : string := String (ascii_of_N 10) "".

(** The character U+2013 of the text template, in UTF-8. *)
Definition enDash : string :=
  String (ascii_of_N 226) (String (ascii_of_N 128) (String (ascii_of_N 147) "")).

Fixpoint forEach {A : Type} (l : list A) (body : A -> M unit) : M unit :=
  match l with
  | [] => ret tt
  | a :: l' => body a ;;; forEach l' body
  end.

Section Pipeline.

Variable CONFIG : Config.
Variable categoryAvgPrices : CategoryAvgPrices.

Definition withDetails (d : Details) (item : Item) : Item :=
  {| title := title item; price := price item; link := link item;
     description := details_description d; image := details_image d;
     estimate :=
       estimateResaleValue CONFIG categoryAvgPrices
         (price item) (title item) (details_description d) |}.

Definition withEstimate (item : Item) : Item :=
  {| title := title item; price := price item; link := link item;
     description := description item; image := image item;
     estimate :=
       estimateResaleValue CONFIG categoryAvgPrices
         (price item) (title item) "" |}.

(** [scrapeTerm(page, term, pastItems)]: the set as the call leaves it
    (it is mutated in place, also when the call throws later) and how the
    call ends. *)
Definition scrapeTerm (env : TermEnv) (pastItems : IdSet)
  : IdSet * Outcome (list Item) :=
  match search env with
  | SearchThrows => (pastItems, Thrown)
  | NoMarketplaceData => (pastItems, Returned [])
  | UnparsableJson => (pastItems, Returned [])
  | FeedEdges edges =>
      let '(pastItems', newItems) := filterEdges CONFIG pastItems edges in
      if fetchListingDetails CONFIG && (0 <? List.length newItems)%nat
      then
        if negb (detailPageOpens env) then (pastItems', Thrown)
        else
          let items :=
            map (fun item => withDetails (fetchedDetails env (link item)) item)
                newItems in
          if negb (detailPageCloses env) then (pastItems', Thrown)
          else (pastItems', Returned items)
      else (pastItems', Returned (map withEstimate newItems))
  end.

Definition itemHtml (item : Item) : string :=
  "<div style=" ++ dq ++ "margin-bottom:1em;" ++ dq ++ ">" ++ nl
  ++ "      "
  ++ (if isEmpty (image item) then ""
      else "<img src=" ++ dq ++ image item ++ dq ++ " alt=" ++ dq ++ "Image"
           ++ dq ++ " style=" ++ dq
           ++ "max-width:200px; display:block; margin-bottom:0.5em;"
           ++ dq ++ ">") ++ nl
  ++ "      <strong>" ++ title item ++ "</strong><br>" ++ nl
  ++ "      <span>Price: " ++ price item ++ "</span><br>" ++ nl
  ++ "      "
  ++ (if isEmpty (estimate item) then ""
      else "<span>Estimated resale value: " ++ estimate item
           ++ "</span><br>") ++ nl
  ++ "      "
  ++ (if isEmpty (description item) then ""
      else "<span>" ++ replaceNewlines (description item)
           ++ "</span><br>") ++ nl
  ++ "      <a href=" ++ dq ++ link item ++ dq ++ ">View on Facebook</a>" ++ nl
  ++ "    </div>".

Definition bufferLine (it : Item) : string :=
  title it ++ " - " ++ price it ++ " - " ++ link it.

Definition textEntry (it : Item) : string :=
  title it ++ " " ++ enDash ++ " " ++ price it ++ nl ++ link it.

Definition bufferBlock (stamp term : string) (items : list Item) : string :=
  nl ++ nl ++ "[" ++ stamp ++ "] Results for " ++ dq ++ term ++ dq ++ ":" ++ nl
  ++ String.concat nl (map bufferLine items).

Definition mailSubject (term : string) (items : list Item) : string :=
  decimal (Z.of_nat (List.length items)) ++ " new result"
  ++ (if (1 <? List.length items)%nat then "s" else "")
  ++ " for " ++ dq ++ term ++ dq.

Definition withinWindow (hour : Z) : bool :=
  (activeHours_start CONFIG <=? hour) && (hour <=? activeHours_end CONFIG).

(** The part of [notify] that reads the buffer file: the text to put
    before the new entries. *)
Definition takeBuffer : M string :=
  present <- existsBuffer ;;
  if present
  then
    buffer <- readBuffer ;;
    let textBody : string :=
      if (0 <? String.length (trim buffer))%nat
      then ("Previous notifications:" ++ nl ++ buffer ++ nl ++ nl)%string
      else "" in
    writeBuffer "" ;;;
    ret textBody
  else ret "".

Definition notify (env : TermEnv) (term : string) (items : list Item)
  : M unit :=
  if (List.length items =? 0)%nat then ret tt
  else
    let htmlBody := String.concat "" (map itemHtml items) in
    if negb (withinWindow (nowHour env))
    then appendBuffer (bufferBlock (nowStamp env) term items)
    else
      buffered <- takeBuffer ;;
      let textBody : string :=
        (buffered ++ String.concat (nl ++ nl) (map textEntry items))%string in
      let subject := mailSubject term items in
      forEach (email_recipients CONFIG)
        (fun recipient =>
           sendMail {| from := email_sender CONFIG; to := recipient;
                       subject := subject; text := textBody;
                       html := htmlBody |}).

(** ** A run *)

Record RunEnv : Type := {
  browserLaunches : bool;
  pageOpens : bool;
  browserCloses : bool;
  (** what the collaborators answer for the term at each position of
      [searchTerms] *)
  termEnv : nat -> TermEnv
}.

Variable ENV : RunEnv.

(** The body of the [try] in the loop of [run], after [scrapeTerm]. *)
Definition deliver (env : TermEnv) (term : string)
           (scraped : Outcome (list Item)) : M unit :=
  match scraped with
  | Thrown => throw
  | Returned items =>
      if (0 <? List.length items)%nat then notify env term items
      else ret tt
  end.

(** The loop of [run] over [searchTerms], from position [n]. *)
Fixpoint processTerms (n : nat) (terms : list string) (pastItems : IdSet)
  : M IdSet :=
  match terms with
  | [] => ret pastItems
  | term :: terms' =>
      let '(pastItems', scraped) := scrapeTerm (termEnv ENV n) pastItems in
      tryCatch (deliver (termEnv ENV n) term scraped) (ret tt) ;;;
      processTerms (S n) terms' pastItems'
  end.

Definition run : M unit :=
  pastItems <- loadPastItems ;;
  (if browserLaunches ENV && pageOpens ENV then ret tt else throw) ;;;
  pastItems' <- processTerms 0 (searchTerms CONFIG) pastItems ;;
  (if browserCloses ENV then ret tt else throw) ;;;
  savePastItems pastItems'.

End Pipeline.

(** ** The configuration of the source *)

Definition defaultConfig : Config := {|
  searchTerms := ["phone"];
  minPrice := None;
  maxPrice := None;
  includeFreeItems := true;
  activeHours_start := 8;
  activeHours_end := 22;
  email_sender := "";
  email_recipients := ["kfcoleman77@gmail.com"; "mtopyan@gmail.com"];
  fetchListingDetails := true;
  priceEstimationEnabled := true;
  qualityIncludeKeywords := [];
  qualityExcludeKeywords := []
|}.

Definition withKeywords (c : Config) (include exclude : list string)
  : Config := {|
  searchTerms := searchTerms c;
  minPrice := minPrice c;
  maxPrice := maxPrice c;
  includeFreeItems := includeFreeItems c;
  activeHours_start := activeHours_start c;
  activeHours_end := activeHours_end c;
  email_sender := email_sender c;
  email_recipients := email_recipients c;
  fetchListingDetails := fetchListingDetails c;
  priceEstimationEnabled := priceEstimationEnabled c;
  qualityIncludeKeywords := include;
  qualityExcludeKeywords := exclude
|}.

Definition withPrices (c : Config) (lo hi : option number) (free : bool)
  : Config := {|
  searchTerms := searchTerms c;
  minPrice := lo;
  maxPrice := hi;
  includeFreeItems := free;
  activeHours_start := activeHours_start c;
  activeHours_end := activeHours_end c;
  email_sender := email_sender c;
  email_recipients := email_recipients c;
  fetchListingDetails := fetchListingDetails c;
  priceEstimationEnabled := priceEstimationEnabled c;
  qualityIncludeKeywords := qualityIncludeKeywords c;
  qualityExcludeKeywords := qualityExcludeKeywords c
|}.

Definition withEstimation (c : Config) (enabled : bool) : Config := {|
  searchTerms := searchTerms c;
  minPrice := minPrice c;
  maxPrice := maxPrice c;
  includeFreeItems := includeFreeItems c;
  activeHours_start := activeHours_start c;
  activeHours_end := activeHours_end c;
  email_sender := email_sender c;
  email_recipients := email_recipients c;
  fetchListingDetails := fetchListingDetails c;
  priceEstimationEnabled := enabled;
  qualityIncludeKeywords := qualityIncludeKeywords c;
  qualityExcludeKeywords := qualityExcludeKeywords c
|}.

(** A listing with the given id, title and displayed price. *)
Definition listingOf (i : JsId) (t p : option string) : RawListing :=
  {| id := i; marketplace_listing_title := t;
     listing_price := Some {| formatted_amount := p |} |}.

(** ** The rejection rules of the specification *)

Section Rules.

Variable CONFIG : Config.

(** The five rejection conditions of the loop, as propositions. *)
Definition rule1 (lowerTitle : string) (np : number) : Prop :=
  strictEq np zero = true
  /\ someKeyword lowerTitle (qualityExcludeKeywords CONFIG) = true.

Definition rule2 (lowerTitle : string) (np : number) : Prop :=
  strictEq np zero = true
  /\ qualityIncludeKeywords CONFIG <> []
  /\ someKeyword lowerTitle (qualityIncludeKeywords CONFIG) = false.

Definition rule3 (np : number) : Prop :=
  strictEq np zero = true /\ includeFreeItems CONFIG = false.

Definition rule4 (np : number) : Prop :=
  exists lo, minPrice CONFIG = Some lo /\ ltb np lo = true.

Definition rule5 (np : number) : Prop :=
  exists hi, maxPrice CONFIG = Some hi /\ gtb np hi = true.

End Rules.


(** ** Sample data *)

(** The listing of the specification's keyword example. *)
Definition brokenPhone (p : string) : RawListing :=
  listingOf (IdString "1") (Some "Broken Phone") (Some p).

Definition excludeBroken (free : bool) : Config :=
  withPrices (withKeywords defaultConfig [] ["broken"]) None None free.

(** [minPrice = 10], [maxPrice = 20]. *)
Definition tenToTwenty : Config :=
  withPrices defaultConfig (Some (ofZ 10)) (Some (ofZ 20)) true.

Definition priced (p : string) : RawListing :=
  listingOf (IdString "7") (Some "Lamp") (Some p).




(** [minPrice = 0], [maxPrice = 20], free items not wanted. *)
Definition zeroToTwenty : Config :=
  withPrices defaultConfig (Some zero) (Some (ofZ 20)) false.

(** [minPrice = 20], [maxPrice = 10]. *)
Definition twentyToTen : Config :=
  withPrices defaultConfig (Some (ofZ 20)) (Some (ofZ 10)) true.

(** A listing whose [id] is missing. *)
Definition withoutId : RawListing :=
  listingOf IdUndefined (Some "Chair") (Some "$15").


(** Every character of [s] satisfies [p]. *)
Fixpoint allChars (p : ascii -> bool) (s : string) : bool :=
  match s with
  | "" => true
  | String c s' => p c && allChars p s'
  end.


(** A disk on which both files are missing and every operation succeeds. *)
Definition freshWorld : World := {|
  pastItemsFile := {| content := None; readable := true; writable := true |};
  bufferFile := {| content := None; readable := true; writable := true |};
  journal := []
|}.

(** The listing of the end-to-end scenario. *)
Definition listing42 : RawListing :=
  listingOf (IdString "42") (Some "Phone") (Some "$10").


(** The item the loop builds for [listing42]. *)
Definition item42 : Item := {|
  title := "Phone"; price := "$10";
  link := "https://www.facebook.com/marketplace/item/42";
  description := ""; image := ""; estimate := "$5.00"
|}.

(** The collaborators' answers for one term: a feed, a clock, no details. *)
Definition termAt (edges : list Edge) (hour : Z) : TermEnv := {|
  search := FeedEdges edges;
  detailPageOpens := true;
  detailPageCloses := true;
  fetchedDetails :=
    fun _ => {| details_description := ""; details_image := "" |};
  nowHour := hour;
  nowStamp := "11/2/2026, 3:00:00 AM"
|}.

(** ** White space, byte by byte *)

(** [c] is a byte of the UTF-8 form of a white space character. *)
Definition spaceByte (c : ascii) : bool :=
  existsb (fun cp =>
             existsb (Ascii.eqb c) (list_ascii_of_string (encodeUtf8 cp)))
          whiteSpace.

(** [s] does not start in the middle of a character. *)
Definition charStart (s : string) : bool :=
  match s with
  | "" => true
  | String c _ =>
      match continuation c with
      | Some _ => false
      | None => true
      end
  end.

(** The ends of [s] that are shorter than [s]. *)
Fixpoint tails (s : string) : list string :=
  match s with
  | "" => []
  | String _ s' => s' :: tails s'
  end.

(** ** What a computation leaves alone *)

Definition isPastWrite (e : Effect) : bool :=
  match e with
  | WritePastItems _ => true
  | _ => false
  end.

(** [w'] comes from [w] without touching the seen-id file: the file is
    the same and the journal has grown by calls that do not write it. *)
Definition sparesPast (w w' : World) : Prop :=
  pastItemsFile w' = pastItemsFile w
  /\ exists added,
       journal w' = journal w ++ added
       /\ forallb (fun e => negb (isPastWrite e)) added = true.

Definition keepsPast {A : Type} (c : M A) : Prop :=
  forall w w' o, c w = (w', o) -> sparesPast w w'.

(** The set [loadPastItems] answers with in world [w]. *)
Definition loadedSet (w : World) : IdSet :=
  match content (pastItemsFile w), readable (pastItemsFile w) with
  | Some (IdList ids), true => newSet ids
  | _, _ => []
  end.

(** The seen-id file cannot be used: it is there but cannot be read, or
    what it holds does not parse. *)
Definition loadFails (w : World) : Prop :=
  (exists d, content (pastItemsFile w) = Some d
             /\ readable (pastItemsFile w) = false)
  \/ content (pastItemsFile w) = Some Malformed.

(** A run environment in which the browser works. *)
Definition runEnvOf (terms : nat -> TermEnv) : RunEnv := {|
  browserLaunches := true;
  pageOpens := true;
  browserCloses := true;
  termEnv := terms
|}.

(** A term whose page cannot be loaded. *)
Definition failingTerm : TermEnv := {|
  search := SearchThrows;
  detailPageOpens := true;
  detailPageCloses := true;
  fetchedDetails :=
    fun _ => {| details_description := ""; details_image := "" |};
  nowHour := 9;
  nowStamp := ""
|}.

Definition twoTerms : Config := {|
  searchTerms := ["phone"; "lamp"];
  minPrice := None;
  maxPrice := None;
  includeFreeItems := true;
  activeHours_start := 8;
  activeHours_end := 22;
  email_sender := "";
  email_recipients := ["kfcoleman77@gmail.com"; "mtopyan@gmail.com"];
  fetchListingDetails := false;
  priceEstimationEnabled := true;
  qualityIncludeKeywords := [];
  qualityExcludeKeywords := []
|}.

(** The first term fails, the second finds [listing42] at 9 o'clock. *)
Definition firstFails : RunEnv :=
  runEnvOf (fun n => match n with
                     | O => failingTerm
                     | _ => termAt [edgeOf listing42] 9
                     end).

(** A world whose seen-id file does not parse. *)
Definition brokenStore : World := {|
  pastItemsFile :=
    {| content := Some Malformed; readable := true; writable := true |};
  bufferFile := {| content := None; readable := true; writable := true |};
  journal := []
|}.


(** The end-to-end scenario: every run finds [listing42] for its term, at
    9 o'clock. *)
Definition sameListingEveryRun : RunEnv :=
  runEnvOf (fun _ => termAt [edgeOf listing42] 9).

Definition isSendMail (e : Effect) : bool :=
  match e with
  | SendMail _ => true
  | _ => false
  end.

(** ** The estimator as the specification words it *)

(** [c] is one of the separators [/] and [>]. *)
Definition isSeparator (c : ascii) : bool :=
  ((code c =? 47) || (code c =? 62))%N.

(** A string without [/] and [>]. *)
Definition plain (s : string) : bool :=
  allChars (fun c => negb (isSeparator c)) s.

(** [s] ends with white space: one of its ends, not the empty one, is
    made of white space only. *)
Fixpoint endsWithSpace (s : string) : bool :=
  match s with
  | "" => false
  | String _ s' => isBlank s || endsWithSpace s'
  end.




Section Claimed.

Variable categoryAvgPrices : CategoryAvgPrices.




End Claimed.

(** The mapping of the specification's example. *)
Definition electronics : CategoryAvgPrices :=
  [("Electronics", VNumber (ofZ 300))].







(** ** Printing numbers and encoding URL components *)

Module JsText.

(** The least [m >= 1] with [a * 10^m >= grid], for [0 < a < grid]: the
    position of the first significant decimal of [a / grid]. *)
Fixpoint firstDecimal (fuel : nat) (m a : Z) : Z :=
  match fuel with
  | O => m
  | S fuel' => if grid <=? a * 10 ^ m then m else firstDecimal fuel' (m + 1) a
  end.

(** The [n] of Number::toString for [a / grid], [0 < a]:
    [10^(n-1) <= a / grid < 10^n]. *)
Definition magnitude (a : Z) : Z :=
  if grid <=? a then Z.of_nat (String.length (decimal (a / grid)))
  else 1 - firstDecimal 330 1 a.

(** The digits [s] and the exponent [n] of Number::toString for
    [a / grid]: the least number [kd] of digits such that some [s] of [kd]
    digits has [s * 10^(n - kd)] rounding to [a / grid], and among those
    the [s] nearest to it. *)
Fixpoint shortestDigits (fuel : nat) (kd a n : Z) : Z * Z :=
  let e := n - kd in
  let lo := if 0 <=? e then a / (grid * 10 ^ e) else (a * 10 ^ (- e)) / grid in
  let hi := lo + 1 in
  match fuel with
  | O => (lo, n)
  | S fuel' =>
      let value (s : Z) :=
        if 0 <=? e then round64 (s * 10 ^ e) 1 else round64 s (10 ^ (- e)) in
      let okLo := strictEq (value lo) (Finite a) in
      let okHi := strictEq (value hi) (Finite a) in
      let dLo :=
        if 0 <=? e then a - lo * 10 ^ e * grid else a * 10 ^ (- e) - lo * grid in
      let dHi :=
        if 0 <=? e then hi * 10 ^ e * grid - a else hi * grid - a * 10 ^ (- e) in
      let pick (s : Z) := if s =? 10 ^ kd then (1, n + 1) else (s, n) in
      match okLo, okHi with
      | true, true =>
          if dLo <? dHi then pick lo
          else if dHi <? dLo then pick hi
          else if Z.even lo then pick lo else pick hi
      | true, false => pick lo
      | false, true => pick hi
      | false, false => shortestDigits fuel' (kd + 1) a n
      end
  end.

Fixpoint zeros (n : nat) : string :=
  match n with
  | O => ""
  | S n' => String "0" (zeros n')
  end.

(** Number::toString in radix 10 of the positive finite number
    [a / grid]. *)
Definition positiveToString (a : Z) : string :=
  let '(s, n) := shortestDigits 17 1 a (magnitude a) in
  let digits := decimal s in
  let k := Z.of_nat (String.length digits) in
  if (k <=? n) && (n <=? 21)
  then digits ++ zeros (Z.to_nat (n - k))
  else if (0 <? n) && (n <=? 21)
  then substring 0 (Z.to_nat n) digits ++ "."
       ++ substring (Z.to_nat n) (Z.to_nat (k - n)) digits
  else if (-6 <? n) && (n <=? 0)
  then "0." ++ zeros (Z.to_nat (- n)) ++ digits
  else
    let mark : string := if 0 <=? n - 1 then "e+" else "e-" in
    let exponent : string := (mark ++ decimal (Z.abs (n - 1)))%string in
    match digits with
    | String d "" => String d "" ++ exponent
    | String d ds => String d "" ++ "." ++ ds ++ exponent
    | "" => exponent
    end.

(** [String(x)], the text of a number inside a template literal. *)
Definition numberToString (x : number) : string :=
  match x with
  | NaN => "NaN"
  | PosInfinity => "Infinity"
  | NegInfinity => "-Infinity"
  | Finite k =>
      if k =? 0 then "0"
      else if k <? 0 then "-" ++ positiveToString (- k)
      else positiveToString k
  end.

(** The characters [encodeURIComponent] leaves as they are: letters,
    digits and [- _ . ! ~ * ' ( )]. *)
Definition isUnreserved (c : ascii) : bool :=
  let n := code c in
  (((65 <=? n) && (n <=? 90)) || ((97 <=? n) && (n <=? 122))
   || ((48 <=? n) && (n <=? 57))
   || (n =? 45) || (n =? 95) || (n =? 46) || (n =? 33) || (n =? 126)
   || (n =? 42) || (n =? 39) || (n =? 40) || (n =? 41))%N.

Definition hexDigit (n : N) : ascii :=
  if (n <? 10)%N then ascii_of_N (48 + n) else ascii_of_N (55 + n).

(** [encodeURIComponent(s)]: every other byte of the UTF-8 form of [s]
    becomes [%XX], in upper-case hexadecimal. *)
Fixpoint encodeURIComponent (s : string) : string :=
  match s with
  | "" => ""
  | String c s' =>
      if isUnreserved c then String c (encodeURIComponent s')
      else String "%" (String (hexDigit (code c / 16))
                         (String (hexDigit (code c mod 16))
                            (encodeURIComponent s')))
  end.

End JsText.

Import JsText.

(** ** The loop of the basic notifier *)

(** The items of the basic notifier: [{ title, price, link }]. *)
Record BasicItem : Type := {
  basic_title : string;
  basic_price : string;
  basic_link : string
}.

Definition toBasic (item : Item) : BasicItem :=
  {| basic_title := title item; basic_price := price item;
     basic_link := link item |}.

Section BasicLoops.

Variable CONFIG : Config.

(** The price tests, which are all the tests of the basic notifier. *)
Definition priceRules (numericPrice : number) : option Skip :=
  if negb (includeFreeItems CONFIG) && strictEq numericPrice zero
  then Some FreeNotWanted
  else if match minPrice CONFIG with
          | Some lo => ltb numericPrice lo
          | None => false
          end
  then Some BelowMin
  else if match maxPrice CONFIG with
          | Some hi => gtb numericPrice hi
          | None => false
          end
  then Some AboveMax
  else None.

(** One iteration of the loop of the basic notifier's [scrapeTerm]. *)
Definition basicExamine (pastItems : IdSet) (val : Edge)
  : Skip + (JsId * BasicItem) :=
  match val with
  | None => inl NoListing
  | Some node =>
      match listing node with
      | None => inl NoListing
      | Some l =>
          let id := id l in
          let title := listingTitle l in
          let price := listingPrice l in
          let link := itemLink id in
          let numericPrice := numericPrice price in
          if has pastItems id then inl AlreadySeen
          else
            match priceRules numericPrice with
            | Some s => inl s
            | None =>
                inr (id, {| basic_title := title; basic_price := price;
                            basic_link := link |})
            end
      end
  end.

Definition basicStep (st : IdSet * list BasicItem) (val : Edge)
  : IdSet * list BasicItem :=
  match basicExamine (fst st) val with
  | inl _ => st
  | inr (id, item) => (add (fst st) id, snd st ++ [item])
  end.

Definition basicEdges (pastItems : IdSet) (edges : list Edge)
  : IdSet * list BasicItem :=
  fold_left basicStep edges (pastItems, []).


End BasicLoops.

(** ** The search URL *)

(** The fields of [CONFIG] that only [buildSearchUrl] reads. *)
Record SearchOptions : Type := {
  locationRef : string;
  daysSinceListed : number;
  sortBy : string;
  exact : bool
}.

Definition booleanToString (b : bool) : string :=
  if b then "true" else "false".

Definition priceParam (name : string) (bound : option number) : list string :=
  match bound with
  | Some x => [(name ++ "=" ++ numberToString x)%string]
  | None => []
  end.

Definition searchParams (CONFIG : Config) (OPTIONS : SearchOptions)
           (term : string) : list string :=
  let encodedTerm := encodeURIComponent term in
  [("daysSinceListed=" ++ numberToString (daysSinceListed OPTIONS))%string;
   ("sortBy=" ++ sortBy OPTIONS)%string]
  ++ priceParam "minPrice" (minPrice CONFIG)
  ++ priceParam "maxPrice" (maxPrice CONFIG)
  ++ [("query=" ++ encodedTerm)%string;
      ("exact=" ++ booleanToString (exact OPTIONS))%string].

Definition buildSearchUrl (CONFIG : Config) (OPTIONS : SearchOptions)
           (term : string) : string :=
  "https://www.facebook.com/marketplace/" ++ locationRef OPTIONS
  ++ "/search?" ++ String.concat "&" (searchParams CONFIG OPTIONS term).

(** The search options of the source. *)
Definition defaultOptions : SearchOptions := {|
  locationRef := "windsor";
  daysSinceListed := ofZ 1;
  sortBy := "creation_time_descend";
  exact := false
|}.

(** The value of a hexadecimal digit. *)
Definition hexValue (c : ascii) : N :=
  if (code c <? 58)%N then (code c - 48)%N else (code c - 55)%N.

(** The inverse of [encodeURIComponent] on its image. *)
Fixpoint decodeEscapes (s : string) : string :=
  match s with
  | String c ((String h (String l s')) as rest) =>
      if (code c =? 37)%N
      then String (ascii_of_N (16 * hexValue h + hexValue l)) (decodeEscapes s')
      else String c (decodeEscapes rest)
  | String c s' => String c (decodeEscapes s')
  | "" => ""
  end.

(** ** Counting mails *)

(** The number of calls of the mail transport made so far. *)
Definition mailCount (w : World) : nat :=
  List.length (filter isSendMail (journal w)).

(** One call of [notify]: the clock it reads, the term and the items. *)
Definition NotifyCall : Type := TermEnv * string * list Item.

Definition callBlock (c : NotifyCall) : string :=
  bufferBlock (nowStamp (fst (fst c))) (snd (fst c)) (snd c).

(** A sequence of calls of [notify], one after the other. *)
Definition notifyEach (CONFIG : Config) (calls : list NotifyCall) : M unit :=
  forEach calls (fun c => notify CONFIG (fst (fst c)) (snd (fst c)) (snd c)).

(** A world whose buffer file holds [s]. *)
Definition worldWithBuffer (s : string) (readable writable : bool) : World := {|
  pastItemsFile := {| content := None; readable := true; writable := true |};
  bufferFile :=
    {| content := Some s; readable := readable; writable := writable |};
  journal := []
|}.

(** [w'] comes from [w] by calls that all satisfy [ok]. *)
Definition growsBy (ok : Effect -> bool) (w w' : World) : Prop :=
  exists added, journal w' = journal w ++ added /\ forallb ok added = true.

Definition makesOnly {A : Type} (ok : Effect -> bool) (c : M A) : Prop :=
  forall w w' o, c w = (w', o) -> growsBy ok w w'.

Definition notMail (e : Effect) : bool := negb (isSendMail e).

(** A run environment in which no term is inside the active window of
    [defaultConfig]. *)
Definition nightRun : RunEnv :=
  runEnvOf (fun _ => termAt [edgeOf listing42] 3).

(** A feed whose detail page cannot be opened. *)
Definition detailsFail (edges : list Edge) : TermEnv := {|
  search := FeedEdges edges;
  detailPageOpens := false;
  detailPageCloses := true;
  fetchedDetails :=
    fun _ => {| details_description := ""; details_image := "" |};
  nowHour := 9;
  nowStamp := ""
|}.

(** A configuration whose active window is meant to cross midnight, from
    22 o'clock to 6 o'clock. *)
Definition overnight (c : Config) : Config := {|
  searchTerms := searchTerms c;
  minPrice := minPrice c;
  maxPrice := maxPrice c;
  includeFreeItems := includeFreeItems c;
  activeHours_start := 22;
  activeHours_end := 6;
  email_sender := email_sender c;
  email_recipients := email_recipients c;
  fetchListingDetails := fetchListingDetails c;
  priceEstimationEnabled := priceEstimationEnabled c;
  qualityIncludeKeywords := qualityIncludeKeywords c;
  qualityExcludeKeywords := qualityExcludeKeywords c
|}.


(** A world whose seen-id file holds the ids 1 and 2 and can be written;
    [canRead] tells whether it can be read. *)
Definition storedWorld (canRead : bool) : World := {|
  pastItemsFile :=
    {| content := Some (IdList [IdString "1"; IdString "2"]);
       readable := canRead; writable := true |};
  bufferFile := {| content := None; readable := true; writable := true |};
  journal := []
|}.

(** A run environment in which the browser cannot be closed. *)
Definition cannotClose : RunEnv := {|
  browserLaunches := true;
  pageOpens := true;
  browserCloses := false;
  termEnv := fun _ => termAt [edgeOf listing42] 9
|}.

(** A run environment in which the browser cannot be launched. *)
Definition cannotLaunch : RunEnv := {|
  browserLaunches := false;
  pageOpens := true;
  browserCloses := true;
  termEnv := fun _ => termAt [edgeOf listing42] 9
|}.


(** A computation that calls the mail transport at most [r] times. *)
Definition sendsAtMost {A : Type} (r : nat) (c : M A) : Prop :=
  forall w w' o,
    c w = (w', o) ->
    (mailCount w <= mailCount w' /\ mailCount w' <= mailCount w + r)%nat.


Section RunMails.

Variable CONFIG : Config.
Variable ENV : RunEnv.

(** The mails the term at position [n] may cause. *)
Definition termMails (n : nat) : nat :=
  if withinWindow CONFIG (nowHour (termEnv ENV n))
  then List.length (email_recipients CONFIG) else 0%nat.

(** The mails the terms from position [n] on may cause. *)
Fixpoint runMails (n : nat) (terms : list string) : nat :=
  match terms with
  | [] => 0%nat
  | _ :: terms' => (termMails n + runMails (S n) terms')%nat
  end.

End RunMails.

(** * Properties *)

(** Split a conjunction into its conjuncts, and nothing else. *)
Ltac conjuncts :=
  repeat match goal with
         | |- _ /\ _ => split
         end.

(** ** Ids and the seen-id set *)

Lemma JsId_eqb_eq (a b : JsId) : JsId_eqb a b = true <-> a = b.
Proof.
  destruct a, b; simpl; split; intro H; try congruence; try discriminate.
  - apply String.eqb_eq in H. now subst.
  - inversion H. apply String.eqb_refl.
Qed.

Lemma JsId_eqb_refl (a : JsId) : JsId_eqb a a = true.
Proof. now apply JsId_eqb_eq. Qed.

Lemma has_app (s t : IdSet) (i : JsId) :
  has (s ++ t) i = has s i || has t i.
Proof. unfold has. apply existsb_app. Qed.

Lemma has_add (s : IdSet) (i j : JsId) :
  has (add s i) j = has s j || JsId_eqb j i.
Proof.
  unfold add. destruct (has s i) eqn:Hi.
  - destruct (JsId_eqb j i) eqn:Hji.
    + apply JsId_eqb_eq in Hji. subst. rewrite Hi. reflexivity.
    + now rewrite orb_false_r.
  - rewrite has_app. simpl. now rewrite orb_false_r.
Qed.

Lemma has_add_same (s : IdSet) (i : JsId) : has (add s i) i = true.
Proof. rewrite has_add, JsId_eqb_refl. apply orb_true_r. Qed.

Lemma has_add_mono (s : IdSet) (i j : JsId) :
  has s j = true -> has (add s i) j = true.
Proof. intro H. now rewrite has_add, H. Qed.

Lemma add_fresh (s : IdSet) (i : JsId) :
  has s i = false -> add s i = s ++ [i].
Proof. intro H. unfold add. now rewrite H. Qed.

(** ** The loop of [scrapeTerm] *)

Section LoopFacts.

Variable CONFIG : Config.

Lemma examine_seen (pastItems : IdSet) (l : RawListing) :
  has pastItems (id l) = true ->
  examine CONFIG pastItems (edgeOf l) = inl AlreadySeen.
Proof. intro H. unfold examine, edgeOf. simpl. now rewrite H. Qed.

Lemma examine_fresh (pastItems : IdSet) (l : RawListing) :
  has pastItems (id l) = false ->
  examine CONFIG pastItems (edgeOf l) =
  match filterRules CONFIG (toLowerCase (listingTitle l))
          (numericPrice (listingPrice l)) with
  | Some s => inl s
  | None =>
      inr (id l, {| title := listingTitle l; price := listingPrice l;
                    link := itemLink (id l); description := "";
                    image := ""; estimate := "" |})
  end.
Proof. intro H. unfold examine, edgeOf. simpl. now rewrite H. Qed.

Lemma examine_accepts (pastItems : IdSet) (val : Edge) (i : JsId)
      (item : Item) :
  examine CONFIG pastItems val = inr (i, item) ->
  exists l,
    val = edgeOf l /\ i = id l /\ has pastItems (id l) = false
    /\ filterRules CONFIG (toLowerCase (listingTitle l))
         (numericPrice (listingPrice l)) = None
    /\ item = {| title := listingTitle l; price := listingPrice l;
                 link := itemLink (id l); description := "";
                 image := ""; estimate := "" |}.
Proof.
  unfold examine.
  destruct val as [[[l|]]|]; simpl; try (intro H; discriminate H).
  destruct (has pastItems (id l)) eqn:Hs; try (intro H; discriminate H).
  destruct (filterRules CONFIG _ _) eqn:Hr; try (intro H; discriminate H).
  intro H. inversion H. subst. exists l. unfold edgeOf. auto.
Qed.

Lemma filterStep_skip (st : IdSet * list Item) (val : Edge) (s : Skip) :
  examine CONFIG (fst st) val = inl s -> filterStep CONFIG st val = st.
Proof. intro H. unfold filterStep. now rewrite H. Qed.

Lemma filterStep_mono (st : IdSet * list Item) (val : Edge) (i : JsId) :
  has (fst st) i = true -> has (fst (filterStep CONFIG st val)) i = true.
Proof.
  intro H. unfold filterStep.
  destruct (examine CONFIG (fst st) val) as [s|[j item]]; simpl; auto.
  now apply has_add_mono.
Qed.

Lemma fold_filterStep_mono (edges : list Edge) (st : IdSet * list Item)
      (i : JsId) :
  has (fst st) i = true ->
  has (fst (fold_left (filterStep CONFIG) edges st)) i = true.
Proof.
  revert st. induction edges as [|e edges IH]; intros st H; simpl; auto.
  apply IH. now apply filterStep_mono.
Qed.

(** A record whose id is in the set can be taken out of the feed without
    changing what the loop computes. *)
Lemma fold_filterStep_drop_seen (before after : list Edge)
      (st : IdSet * list Item) (l : RawListing) :
  has (fst st) (id l) = true ->
  fold_left (filterStep CONFIG) (before ++ edgeOf l :: after) st =
  fold_left (filterStep CONFIG) (before ++ after) st.
Proof.
  intro H. rewrite !fold_left_app. simpl. f_equal.
  apply filterStep_skip with (s := AlreadySeen).
  apply examine_seen. now apply fold_filterStep_mono.
Qed.

Lemma filterStep_marks (st : IdSet * list Item) (l : RawListing)
      (it : JsId * Item) :
  examine CONFIG (fst st) (edgeOf l) = inr it ->
  has (fst (filterStep CONFIG st (edgeOf l))) (id l) = true.
Proof.
  intro H. unfold filterStep. rewrite H. destruct it as [i item].
  apply examine_accepts in H. destruct H as (l' & He & Hi & _).
  unfold edgeOf in He. inversion He. subst. simpl. apply has_add_same.
Qed.

End LoopFacts.

(** ** Strings: containment *)

Lemma append_assoc (a b c : string) :
  ((a ++ b) ++ c)%string = (a ++ (b ++ c))%string.
Proof. induction a as [|x a IH]; simpl; congruence. Qed.

Lemma append_empty (s : string) : (s ++ "")%string = s.
Proof. induction s as [|c s IH]; simpl; congruence. Qed.

Lemma prefix_append (s t : string) : String.prefix s (s ++ t) = true.
Proof.
  induction s as [|c s IH]; simpl.
  - now destruct t.
  - destruct (ascii_dec c c) as [_|N]; [exact IH | now contradiction N].
Qed.

Lemma includes_prefix (s t : string) :
  String.prefix t s = true -> includes s t = true.
Proof. intro H. destruct s; cbn [includes]; now rewrite H. Qed.

Lemma includes_append (a b c : string) : includes (a ++ b ++ c) b = true.
Proof.
  induction a as [|x a IH].
  - change ("" ++ b ++ c)%string with (b ++ c)%string.
    apply includes_prefix. apply prefix_append.
  - change (String x a ++ b ++ c)%string with (String x (a ++ b ++ c)).
    cbn [includes]. rewrite IH. apply orb_true_r.
Qed.

Lemma includes_append_end (a b : string) : includes (a ++ b) b = true.
Proof.
  induction a as [|x a IH].
  - change ("" ++ b)%string with b. apply includes_prefix.
    rewrite <- (append_empty b) at 2. apply prefix_append.
  - change (String x a ++ b)%string with (String x (a ++ b)).
    cbn [includes]. rewrite IH. apply orb_true_r.
Qed.

Lemma prefix_split (t s : string) :
  String.prefix t s = true -> exists y, s = (t ++ y)%string.
Proof.
  revert s. induction t as [|c t IH]; intros s H.
  - exists s. reflexivity.
  - destruct s as [|d s]; [discriminate H|]. simpl in H.
    destruct (ascii_dec c d) as [->|]; [|discriminate H].
    destruct (IH s H) as [y ->]. exists y. reflexivity.
Qed.

(** [includes s t] holds exactly when [t] occurs in [s]. *)
Lemma includes_spec (s t : string) :
  includes s t = true <-> exists x y, s = (x ++ t ++ y)%string.
Proof.
  split.
  - induction s as [|c s IH]; cbn [includes]; intro H.
    + rewrite orb_false_r in H. apply prefix_split in H.
      destruct H as [y Hy]. exists "", y. exact Hy.
    + apply orb_true_iff in H. destruct H as [H|H].
      * apply prefix_split in H. destruct H as [y Hy]. exists "", y. exact Hy.
      * destruct (IH H) as (x & y & E). exists (String c x), y.
        now rewrite E.
  - intros (x & y & ->). apply includes_append.
Qed.

(** [t] occurs in [s] between [x] and [y]. *)
Ltac segment x y :=
  apply includes_spec; exists x, y; rewrite ?append_assoc; reflexivity.

Lemma includes_trans (a b c : string) :
  includes a b = true -> includes b c = true -> includes a c = true.
Proof.
  intros Hab Hbc. apply includes_spec in Hab. apply includes_spec in Hbc.
  destruct Hab as (x & y & ->). destruct Hbc as (x' & y' & ->).
  apply includes_spec. exists (x ++ x')%string, (y' ++ y)%string.
  now rewrite !append_assoc.
Qed.

Lemma includes_self (s : string) : includes s s = true.
Proof.
  apply includes_spec. exists "", "". now rewrite append_empty.
Qed.

(** A member of a list occurs in the list joined with any separator. *)
Lemma includes_concat (sep : string) (l : list string) (b : string) :
  In b l -> includes (String.concat sep l) b = true.
Proof.
  induction l as [|a l IH]; [easy|]. intros [H|H].
  - subst a. destruct l as [|a' l'].
    + apply includes_self.
    + cbn [String.concat]. apply includes_prefix, prefix_append.
  - destruct l as [|a' l']; [easy|].
    change (String.concat sep (a :: a' :: l'))
      with (a ++ sep ++ String.concat sep (a' :: l'))%string.
    rewrite <- append_assoc.
    apply (includes_trans _ (String.concat sep (a' :: l'))); auto.
    apply includes_append_end.
Qed.

Lemma length_append (a b : string) :
  String.length (a ++ b) = (String.length a + String.length b)%nat.
Proof. induction a as [|c a IH]; simpl; congruence. Qed.

(** ** Comparisons *)

Lemma strictEq_eq (x y : number) : strictEq x y = true -> x = y.
Proof.
  destruct x, y; simpl; intro H; try discriminate; auto.
  apply Z.eqb_eq in H. now subst.
Qed.

Lemma ltb_irrefl (x : number) : ltb x x = false.
Proof. destruct x; simpl; auto. apply Z.ltb_irrefl. Qed.

Lemma numericPrice_not_NaN (priceText : string) :
  isNaN (numericPrice priceText) = false.
Proof.
  unfold numericPrice.
  destruct (String.length (stripNonNumeric priceText) =? 0)%nat;
    [reflexivity|].
  destruct (isNaN (parseFloat (stripNonNumeric priceText))) eqn:E;
    [reflexivity | exact E].
Qed.

(** With the lower bound above the upper one, a number is below the first
    or above the second. *)
Lemma crossed_bounds (np lo hi : number) :
  isNaN np = false -> gtb lo hi = true ->
  ltb np lo = true \/ gtb np hi = true.
Proof.
  unfold gtb. destruct np, lo, hi; simpl; intros Hn Hc;
    try discriminate; auto.
  apply Z.ltb_lt in Hc.
  destruct (Z.ltb_spec k k0); auto. right. apply Z.ltb_lt. lia.
Qed.

(** ** The keyword and price rules *)




Section RuleFacts.

Variable CONFIG : Config.

Lemma nonempty_length {A : Type} (l : list A) :
  (0 <? List.length l)%nat = true <-> l <> [].
Proof.
  destruct l; simpl; split; intro H; try discriminate; try congruence; auto.
Qed.

Lemma filterRules_None (lowerTitle : string) (np : number) :
  filterRules CONFIG lowerTitle np = None <->
  ~ rule1 CONFIG lowerTitle np /\ ~ rule2 CONFIG lowerTitle np
  /\ ~ rule3 CONFIG np /\ ~ rule4 CONFIG np /\ ~ rule5 CONFIG np.
Proof.
  unfold filterRules, rule1, rule2, rule3, rule4, rule5.
  destruct (strictEq np zero
            && someKeyword lowerTitle (qualityExcludeKeywords CONFIG))
    eqn:E1.
  { split; [discriminate|]. intros (N & _). exfalso. apply N.
    now apply andb_true_iff in E1. }
  destruct (strictEq np zero
            && (0 <? List.length (qualityIncludeKeywords CONFIG))%nat
            && negb (someKeyword lowerTitle (qualityIncludeKeywords CONFIG)))
    eqn:E2.
  { split; [discriminate|]. intros (_ & N & _). exfalso. apply N.
    apply andb_true_iff in E2. destruct E2 as [E2 E2c].
    apply andb_true_iff in E2. destruct E2 as [E2a E2b].
    apply nonempty_length in E2b. apply negb_true_iff in E2c. auto. }
  destruct (negb (includeFreeItems CONFIG) && strictEq np zero) eqn:E3.
  { split; [discriminate|]. intros (_ & _ & N & _). exfalso. apply N.
    apply andb_true_iff in E3. destruct E3 as [E3a E3b].
    apply negb_true_iff in E3a. auto. }
  destruct (match minPrice CONFIG with
            | Some lo => ltb np lo
            | None => false
            end) eqn:E4.
  { split; [discriminate|]. intros (_ & _ & _ & N & _). exfalso. apply N.
    destruct (minPrice CONFIG) as [lo|]; [|discriminate]. eauto. }
  destruct (match maxPrice CONFIG with
            | Some hi => gtb np hi
            | None => false
            end) eqn:E5.
  { split; [discriminate|]. intros (_ & _ & _ & _ & N). exfalso. apply N.
    destruct (maxPrice CONFIG) as [hi|]; [|discriminate]. eauto. }
  split; [intros _|reflexivity].
  conjuncts.
  - intros [C1 C2]. rewrite C1, C2 in E1. discriminate.
  - intros (C1 & C2 & C3). apply nonempty_length in C2.
    rewrite C1, C2, C3 in E2. discriminate.
  - intros [C1 C2]. rewrite C1, C2 in E3. discriminate.
  - intros (lo & C1 & C2). rewrite C1 in E4. congruence.
  - intros (hi & C1 & C2). rewrite C1 in E5. congruence.
Qed.

End RuleFacts.

(** ** Claims about the filtering stage *)



(** C6, as the specification states it, fails.  A record priced at a
    bound can still be rejected: with [minPrice = 0] and free items not
    wanted, "Free" has the numeric price 0, equal to the lower bound, and
    is rejected as a free item; with [minPrice = 20] above
    [maxPrice = 10], "$20" is equal to the lower bound and rejected by the
    upper one. *)
Lemma price_at_a_bound_can_be_rejected :
  (minPrice zeroToTwenty = Some zero
   /\ strictEq (numericPrice "Free") zero = true
   /\ filterRules zeroToTwenty (toLowerCase "Lamp") (numericPrice "Free")
      = Some FreeNotWanted
   /\ examine zeroToTwenty [] (edgeOf (priced "Free")) = inl FreeNotWanted)
  /\ (minPrice twentyToTen = Some (ofZ 20)
      /\ strictEq (numericPrice "$20") (ofZ 20) = true
      /\ filterRules twentyToTen (toLowerCase "Lamp") (numericPrice "$20")
         = Some AboveMax
      /\ examine twentyToTen [] (edgeOf (priced "$20")) = inl AboveMax)
  /\ ~ (forall (CONFIG : Config) (lo hi : number) (lowerTitle : string)
               (np : number),
           minPrice CONFIG = Some lo -> maxPrice CONFIG = Some hi ->
           strictEq np lo = true \/ strictEq np hi = true ->
           filterRules CONFIG lowerTitle np = None).
Proof.
  split; [conjuncts; vm_compute; reflexivity|].
  split; [conjuncts; vm_compute; reflexivity|].
  intro H.
  specialize (H zeroToTwenty zero (ofZ 20) "lamp" zero eq_refl eq_refl
                (or_introl eq_refl)).
  vm_compute in H. discriminate H.
Qed.

(** C6, amended.  The price bounds are inclusive.  With [minPrice = lo]
    and [maxPrice = hi], a numeric price equal to [lo] is not rejected by
    the lower bound and one equal to [hi] is not rejected by the upper
    bound; a record priced at a bound passes every rule when its numeric
    price is not 0 and [lo] is not above [hi]; a price strictly below [lo]
    or strictly above [hi] is rejected.  A record with the numeric price 0
    is subject to the free-item rules whatever the bounds are, and with
    [lo] above [hi] every record is rejected.  With bounds 10 and 20: $10
    and $20 are kept, $9.99 and $20.01 are rejected by the bounds. *)
Theorem price_bounds_are_inclusive :
  forall (CONFIG : Config) (lo hi : number) (lowerTitle : string)
         (np : number),
    minPrice CONFIG = Some lo ->
    maxPrice CONFIG = Some hi ->
    (strictEq np lo = true ->
     filterRules CONFIG lowerTitle np <> Some BelowMin)
    /\ (strictEq np hi = true ->
        filterRules CONFIG lowerTitle np <> Some AboveMax)
    /\ (strictEq np zero = false -> ltb np lo = false -> gtb np hi = false ->
        filterRules CONFIG lowerTitle np = None)
    /\ (strictEq np lo = true -> strictEq np zero = false ->
        gtb lo hi = false ->
        filterRules CONFIG lowerTitle np = None)
    /\ (strictEq np hi = true -> strictEq np zero = false ->
        ltb hi lo = false ->
        filterRules CONFIG lowerTitle np = None)
    /\ (ltb np lo = true ->
        exists s, filterRules CONFIG lowerTitle np = Some s)
    /\ (gtb np hi = true ->
        exists s, filterRules CONFIG lowerTitle np = Some s)
    /\ (strictEq np zero = true ->
        includeFreeItems CONFIG = false ->
        exists s, filterRules CONFIG lowerTitle np = Some s)
    /\ (gtb lo hi = true ->
        forall priceText,
        exists s,
          filterRules CONFIG lowerTitle (numericPrice priceText) = Some s)
    /\ (exists item, examine tenToTwenty [] (edgeOf (priced "$10"))
                     = inr (IdString "7", item))
    /\ (exists item, examine tenToTwenty [] (edgeOf (priced "$20"))
                     = inr (IdString "7", item))
    /\ examine tenToTwenty [] (edgeOf (priced "$9.99")) = inl BelowMin
    /\ examine tenToTwenty [] (edgeOf (priced "$20.01")) = inl AboveMax.
Proof.
  intros CONFIG lo hi lowerTitle np Hlo Hhi.
  assert (Hin : strictEq np zero = false -> ltb np lo = false ->
                gtb np hi = false ->
                filterRules CONFIG lowerTitle np = None).
  { intros Hz Hl Hg. unfold filterRules. rewrite Hz, Hlo, Hhi, Hl, Hg.
    simpl. now rewrite andb_false_r. }
  assert (Hbelow : forall x, ltb x lo = true ->
                     exists s, filterRules CONFIG lowerTitle x = Some s).
  { intros x Hl. unfold filterRules. rewrite Hlo, Hl.
    repeat match goal with
           | |- context [if ?b then _ else _] => destruct b
           end; eauto. }
  assert (Habove : forall x, gtb x hi = true ->
                     exists s, filterRules CONFIG lowerTitle x = Some s).
  { intros x Hg. unfold filterRules. rewrite Hhi, Hg.
    repeat match goal with
           | |- context [if ?b then _ else _] => destruct b
           end; eauto. }
  conjuncts.
  - intros He H. apply strictEq_eq in He. subst np.
    unfold filterRules in H. rewrite Hlo, ltb_irrefl in H.
    destruct (strictEq lo zero); simpl in H;
      destruct (someKeyword lowerTitle (qualityExcludeKeywords CONFIG));
      destruct (0 <? List.length (qualityIncludeKeywords CONFIG))%nat;
      destruct (someKeyword lowerTitle (qualityIncludeKeywords CONFIG));
      destruct (includeFreeItems CONFIG); simpl in H;
      destruct (maxPrice CONFIG) as [h|]; try destruct (gtb lo h);
      discriminate.
  - intros He H. apply strictEq_eq in He. subst np.
    unfold filterRules in H. rewrite Hhi in H.
    unfold gtb in H. rewrite ltb_irrefl in H.
    destruct (strictEq hi zero); simpl in H;
      destruct (someKeyword lowerTitle (qualityExcludeKeywords CONFIG));
      destruct (0 <? List.length (qualityIncludeKeywords CONFIG))%nat;
      destruct (someKeyword lowerTitle (qualityIncludeKeywords CONFIG));
      destruct (includeFreeItems CONFIG); simpl in H;
      destruct (minPrice CONFIG) as [l|]; try destruct (ltb hi l);
      discriminate.
  - exact Hin.
  - intros He Hz Hc. apply strictEq_eq in He. subst np.
    apply Hin; auto using ltb_irrefl.
  - intros He Hz Hc. apply strictEq_eq in He. subst np.
    apply Hin; auto. unfold gtb. apply ltb_irrefl.
  - apply Hbelow.
  - apply Habove.
  - intros Hz Hf. unfold filterRules. rewrite Hz, Hf. cbn [negb andb].
    repeat match goal with
           | |- context [if ?b then _ else _] => destruct b
           end; eauto.
  - intros Hc priceText.
    destruct (crossed_bounds _ lo hi (numericPrice_not_NaN priceText) Hc);
      auto.
  - eexists. vm_compute. reflexivity.
  - eexists. vm_compute. reflexivity.
  - vm_compute. reflexivity.
  - vm_compute. reflexivity.
Qed.

Lemma price_bounds_are_inclusive_witness :
  filterRules tenToTwenty "lamp" (numericPrice "$10") = None
  /\ filterRules tenToTwenty "lamp" (numericPrice "$20") = None
  /\ (exists s, filterRules tenToTwenty "lamp" (numericPrice "$9.99") = Some s)
  /\ (exists s, filterRules tenToTwenty "lamp" (numericPrice "$20.01") = Some s)
  /\ filterRules tenToTwenty "lamp" (numericPrice "$10") <> Some BelowMin
  /\ filterRules tenToTwenty "lamp" (numericPrice "$20") <> Some AboveMax
  /\ filterRules tenToTwenty "lamp" (numericPrice "$12.50") = None
  /\ (exists s, filterRules zeroToTwenty "lamp" (numericPrice "Free") = Some s)
  /\ (exists s, filterRules twentyToTen "lamp" (numericPrice "$15") = Some s).
Proof.
  pose proof (fun np => price_bounds_are_inclusive tenToTwenty (ofZ 10)
                          (ofZ 20) "lamp" np eq_refl eq_refl) as H.
  destruct (H (numericPrice "$10")) as (A1 & _ & _ & A4 & _).
  destruct (H (numericPrice "$20")) as (_ & B2 & _ & _ & B5 & _).
  destruct (H (numericPrice "$9.99")) as (_ & _ & _ & _ & _ & C6 & _).
  destruct (H (numericPrice "$20.01")) as (_ & _ & _ & _ & _ & _ & D7 & _).
  destruct (H (numericPrice "$12.50")) as (_ & _ & E3 & _).
  destruct (price_bounds_are_inclusive zeroToTwenty zero (ofZ 20) "lamp"
              (numericPrice "Free") eq_refl eq_refl)
    as (_ & _ & _ & _ & _ & _ & _ & F8 & _).
  destruct (price_bounds_are_inclusive twentyToTen (ofZ 20) (ofZ 10) "lamp"
              zero eq_refl eq_refl)
    as (_ & _ & _ & _ & _ & _ & _ & _ & G9 & _).
  conjuncts.
  - apply A4; vm_compute; reflexivity.
  - apply B5; vm_compute; reflexivity.
  - apply C6; vm_compute; reflexivity.
  - apply D7; vm_compute; reflexivity.
  - apply A1; vm_compute; reflexivity.
  - apply B2; vm_compute; reflexivity.
  - apply E3; vm_compute; reflexivity.
  - apply F8; vm_compute; reflexivity.
  - apply (G9 ltac:(vm_compute; reflexivity) "$15").
Defined.


Lemma filterChars_all (p : ascii -> bool) (s : string) :
  allChars p (filterChars p s) = true.
Proof.
  induction s as [|c s IH]; simpl; auto.
  destruct (p c) eqn:Hc; simpl; auto. now rewrite Hc.
Qed.

Lemma filterChars_id (p : ascii -> bool) (s : string) :
  allChars p s = true -> filterChars p s = s.
Proof.
  induction s as [|c s IH]; simpl; auto.
  intro H. apply andb_true_iff in H. destruct H as [Hc Hs].
  rewrite Hc. f_equal. auto.
Qed.

(** C7.  The numeric price is a function of the price text alone, defined
    on every string: every character other than a digit or a dot is
    removed, what is left is parsed as a float, and the result is 0 when
    nothing is left or what is left does not parse.  In particular the
    result is never NaN, and "", "Free" and "$0" give 0 while "$123.45"
    gives 123.45 (the double 0x405EDCCCCCCCCCCD). *)
Theorem numericPrice_is_total :
  (forall priceText : string,
      numericPrice priceText =
      (if isEmpty (stripNonNumeric priceText) then zero
       else match parseFloat (stripNonNumeric priceText) with
            | NaN => zero
            | num => num
            end)
      /\ isNaN (numericPrice priceText) = false
      /\ allChars isNumericChar (stripNonNumeric priceText) = true
      /\ numericPrice (stripNonNumeric priceText) = numericPrice priceText)
  /\ numericPrice "" = zero
  /\ numericPrice "Free" = zero
  /\ numericPrice "$0" = zero
  /\ numericPrice "$123.45" = round64 12345 100
  /\ numericPrice "$123.45" = Finite (0x1EDCCCCCCCCCCD * 2 ^ (1074 - 46)).
Proof.
  split; [|conjuncts; vm_compute; reflexivity].
  intro priceText. conjuncts.
  - unfold numericPrice.
    destruct (stripNonNumeric priceText) as [|c s]; simpl; auto.
    destruct (parseFloat (String c s)); reflexivity.
  - unfold numericPrice.
    destruct (String.length (stripNonNumeric priceText) =? 0)%nat; auto.
    destruct (parseFloat (stripNonNumeric priceText)); reflexivity.
  - apply filterChars_all.
  - unfold numericPrice, stripNonNumeric.
    now rewrite (filterChars_id _ _ (filterChars_all isNumericChar priceText)).
Qed.

(** C9.  A record changes the seen-id set only when it passes every keyword
    and price rule: a record that takes any [continue] (no listing, already
    seen, or one of the five rules) leaves both the set and the output as
    they were, so the same record is judged later, under another
    configuration, exactly as if it had never been met. *)
Theorem rejected_records_leave_the_set :
  forall (CONFIG : Config) (st : IdSet * list Item) (val : Edge),
    (forall s, examine CONFIG (fst st) val = inl s ->
               filterStep CONFIG st val = st)
    /\ (fst (filterStep CONFIG st val) <> fst st ->
        exists l,
          val = edgeOf l /\ has (fst st) (id l) = false
          /\ filterRules CONFIG (toLowerCase (listingTitle l))
               (numericPrice (listingPrice l)) = None
          /\ fst (filterStep CONFIG st val) = fst st ++ [id l])
    /\ (forall s CONFIG',
          examine CONFIG (fst st) val = inl s ->
          examine CONFIG' (fst (filterStep CONFIG st val)) val =
          examine CONFIG' (fst st) val).
Proof.
  intros CONFIG st val. conjuncts.
  - intros s H. now apply filterStep_skip with (s := s).
  - intro H. unfold filterStep in *.
    destruct (examine CONFIG (fst st) val) as [s|[i item]] eqn:E.
    + now contradiction H.
    + apply examine_accepts in E.
      destruct E as (l & Hv & Hi & Hs & Hr & _). subst i.
      exists l. simpl. rewrite (add_fresh _ _ Hs). auto.
  - intros s CONFIG' H. now rewrite (filterStep_skip CONFIG st val s H).
Qed.

Lemma rejected_records_leave_the_set_witness :
  filterStep (excludeBroken true) ([IdString "0"], [])
    (edgeOf (brokenPhone "Free")) = ([IdString "0"], [])
  /\ examine defaultConfig
       (fst (filterStep (excludeBroken true) ([IdString "0"], [])
               (edgeOf (brokenPhone "Free"))))
       (edgeOf (brokenPhone "Free"))
     = examine defaultConfig [IdString "0"] (edgeOf (brokenPhone "Free"))
  /\ (exists l,
         edgeOf (brokenPhone "$5") = edgeOf l
         /\ fst (filterStep (excludeBroken true) ([IdString "0"], [])
                   (edgeOf (brokenPhone "$5")))
            = [IdString "0"] ++ [id l]).
Proof.
  pose proof (rejected_records_leave_the_set (excludeBroken true)
                ([IdString "0"], []) (edgeOf (brokenPhone "Free")))
    as (H1 & _ & H3).
  pose proof (rejected_records_leave_the_set (excludeBroken true)
                ([IdString "0"], []) (edgeOf (brokenPhone "$5")))
    as (_ & H2 & _).
  conjuncts.
  - apply (H1 ExcludedKeyword). reflexivity.
  - apply (H3 ExcludedKeyword defaultConfig). reflexivity.
  - destruct H2 as (l & Hl & _ & _ & Hs).
    + vm_compute. discriminate.
    + exists l. auto.
Defined.

(** C10.  With price estimation disabled the estimate is the empty string
    for every input, which is neither "n/a" nor a dollar amount. *)
Theorem estimate_disabled_is_empty :
  forall (CONFIG : Config) (categoryAvgPrices : CategoryAvgPrices)
         (priceText title description : string),
    priceEstimationEnabled CONFIG = false ->
    estimateResaleValue CONFIG categoryAvgPrices priceText title description
    = ""
    /\ estimateResaleValue CONFIG categoryAvgPrices priceText title description
       <> "n/a"
    /\ String.prefix "$"
         (estimateResaleValue CONFIG categoryAvgPrices priceText title
            description) = false.
Proof.
  intros CONFIG cats p t d H. unfold estimateResaleValue. rewrite H. simpl.
  conjuncts; [reflexivity | discriminate | reflexivity].
Qed.

Lemma estimate_disabled_is_empty_witness :
  estimateResaleValue (withEstimation defaultConfig false)
    [("Electronics", VNumber (ofZ 300))] "$100" "Electronics Deal" "" = ""
  /\ estimateResaleValue (withEstimation defaultConfig true)
       [("Electronics", VNumber (ofZ 300))] "$100" "Electronics Deal" ""
     = "$50.00".
Proof.
  split.
  - apply (estimate_disabled_is_empty (withEstimation defaultConfig false)
             [("Electronics", VNumber (ofZ 300))] "$100" "Electronics Deal" "").
    reflexivity.
  - vm_compute. reflexivity.
Defined.

(** C3, as the specification states it, fails: a record whose listing has
    no id passes through the loop like any other.  Under the configuration
    of the source, from an empty seen set, it is emitted with the link of
    "undefined" and [undefined] is marked as seen. *)
Lemma missing_id_is_not_skipped :
  filterEdges defaultConfig [] [edgeOf withoutId]
  = ([IdUndefined],
     [{| title := "Chair"; price := "$15";
         link := "https://www.facebook.com/marketplace/item/undefined";
         description := ""; image := ""; estimate := "" |}])
  /\ filterEdges defaultConfig [] [edgeOf withoutId] <> ([], []).
Proof. split; [vm_compute; reflexivity | vm_compute; discriminate]. Qed.

(** C3, amended.  The loop skips an edge without a node and a node without
    a listing, and they leave the set and the output as they were.  A
    listing without an id is not skipped for that reason: when [undefined]
    is not in the seen set and the keyword and price rules pass, it is
    emitted with the link ending in "undefined" and [undefined] is added
    to the set; when [undefined] is in the set it is skipped as seen. *)
Theorem missing_id_is_processed :
  forall (CONFIG : Config) (pastItems : IdSet) (items : list Item),
    filterStep CONFIG (pastItems, items) None = (pastItems, items)
    /\ filterStep CONFIG (pastItems, items) (Some {| listing := None |})
       = (pastItems, items)
    /\ (forall l,
          id l = IdUndefined ->
          has pastItems IdUndefined = false ->
          filterRules CONFIG (toLowerCase (listingTitle l))
            (numericPrice (listingPrice l)) = None ->
          filterStep CONFIG (pastItems, items) (edgeOf l)
          = (pastItems ++ [IdUndefined],
             items ++ [{| title := listingTitle l; price := listingPrice l;
                          link :=
                            "https://www.facebook.com/marketplace/item/undefined";
                          description := ""; image := ""; estimate := "" |}]))
    /\ (forall l,
          id l = IdUndefined ->
          has pastItems IdUndefined = true ->
          examine CONFIG pastItems (edgeOf l) = inl AlreadySeen).
Proof.
  intros CONFIG pastItems items. split; [reflexivity|].
  split; [reflexivity|]. split.
  - intros l Hi Hs Hr. unfold filterStep. simpl fst.
    rewrite examine_fresh by now rewrite Hi.
    rewrite Hr, Hi. simpl. now rewrite (add_fresh _ _ Hs).
  - intros l Hi Hs. apply examine_seen. now rewrite Hi.
Qed.

Lemma missing_id_is_processed_witness :
  filterStep defaultConfig ([IdString "42"], []) (edgeOf withoutId)
  = ([IdString "42"] ++ [IdUndefined],
     [] ++ [{| title := listingTitle withoutId;
               price := listingPrice withoutId;
               link := "https://www.facebook.com/marketplace/item/undefined";
               description := ""; image := ""; estimate := "" |}])
  /\ examine defaultConfig [IdUndefined] (edgeOf withoutId) = inl AlreadySeen.
Proof.
  pose proof (missing_id_is_processed defaultConfig [IdString "42"] [])
    as (_ & _ & H & _).
  pose proof (missing_id_is_processed defaultConfig [IdUndefined] [])
    as (_ & _ & _ & H').
  split.
  - apply (H withoutId); reflexivity.
  - apply (H' withoutId); reflexivity.
Defined.


(** ** Saving and reloading the seen ids *)

Lemma has_fold_add (l : list JsId) (s : IdSet) (i : JsId) :
  has (fold_left add l s) i = has s i || existsb (JsId_eqb i) l.
Proof.
  revert s. induction l as [|x l IH]; intro s; simpl.
  - now rewrite orb_false_r.
  - rewrite IH, has_add. now rewrite orb_assoc.
Qed.

Lemma has_newSet (l : list JsId) (i : JsId) :
  has (newSet l) i = existsb (JsId_eqb i) l.
Proof. unfold newSet. now rewrite has_fold_add. Qed.

Lemma has_toJson (set : IdSet) (s : string) :
  has (map toJson set) (IdString s) = has set (IdString s).
Proof.
  unfold has. induction set as [|x set IH]; simpl; auto.
  rewrite IH. now destruct x.
Qed.

Lemma savePastItems_writable (set : IdSet) (w : World) :
  writable (pastItemsFile w) = true ->
  savePastItems set w =
  ({| pastItemsFile := store (pastItemsFile w) (IdList (map toJson set));
      bufferFile := bufferFile w;
      journal := journal w ++ [WritePastItems (IdList (map toJson set))] |},
   Returned tt).
Proof.
  intro H. unfold savePastItems, tryCatch, writePastItems, bind, record.
  simpl. now rewrite H.
Qed.

Lemma loadPastItems_list (w : World) (ids : list JsId) :
  content (pastItemsFile w) = Some (IdList ids) ->
  readable (pastItemsFile w) = true ->
  loadPastItems w = (w, Returned (newSet ids)).
Proof.
  intros Hc Hr.
  unfold loadPastItems, tryCatch, bind, existsPastItems, readPastItems, ret.
  rewrite Hc. simpl. rewrite Hc, Hr. reflexivity.
Qed.

(** Saving a set and loading it again keeps every string id, and adds
    none. *)
Lemma save_then_load (set : IdSet) (w : World) :
  writable (pastItemsFile w) = true ->
  readable (pastItemsFile w) = true ->
  exists w1 set',
    savePastItems set w = (w1, Returned tt)
    /\ loadPastItems w1 = (w1, Returned set')
    /\ forall s, has set' (IdString s) = has set (IdString s).
Proof.
  intros Hw Hr. eexists. eexists. split; [|split].
  - now apply savePastItems_writable.
  - apply loadPastItems_list; simpl; [reflexivity | exact Hr].
  - intro s. now rewrite has_newSet, <- has_toJson.
Qed.

(** ** Claims about deduplication *)

(** C1, as the specification states it, fails: a second occurrence of an
    id can be part of the output.  The id of a record enters the seen-id
    set only when the record is emitted, so with bounds 10 and 20 a record
    at $25 is rejected and a later record with the same id at $15 is
    emitted, in the same call or in a later one; and a listing without id,
    whose [undefined] is written to the file as [null], is emitted again
    after the set has been saved and loaded. *)
Lemma second_occurrence_can_be_included :
  (exists item,
      filterEdges tenToTwenty []
        [edgeOf (priced "$25"); edgeOf (priced "$15")]
      = ([IdString "7"], [item])
      /\ price item = "$15")
  /\ (filterEdges tenToTwenty [] [edgeOf (priced "$25")] = ([], [])
      /\ exists item,
           filterEdges tenToTwenty
             (fst (filterEdges tenToTwenty [] [edgeOf (priced "$25")]))
             [edgeOf (priced "$15")]
           = ([IdString "7"], [item]))
  /\ (exists w1 item item',
         filterEdges defaultConfig [] [edgeOf withoutId]
         = ([IdUndefined], [item])
         /\ savePastItems [IdUndefined] freshWorld = (w1, Returned tt)
         /\ loadPastItems w1 = (w1, Returned [IdNull])
         /\ filterEdges defaultConfig [IdNull] [edgeOf withoutId]
            = ([IdNull; IdUndefined], [item']))
  /\ ~ (forall (CONFIG : Config) (pastItems : IdSet) (l l' : RawListing),
           id l' = id l ->
           snd (filterEdges CONFIG
                  (fst (filterEdges CONFIG pastItems [edgeOf l]))
                  [edgeOf l']) = []).
Proof.
  split; [eexists; split; vm_compute; reflexivity|].
  split; [split; [|eexists]; vm_compute; reflexivity|].
  split; [do 3 eexists; conjuncts; vm_compute; reflexivity|].
  intro H.
  specialize (H tenToTwenty [] (priced "$25") (priced "$15") eq_refl).
  vm_compute in H. discriminate H.
Qed.

(** C1, amended.  A record whose id is in the seen-id set is skipped by
    the loop of [scrapeTerm] before its title or price is looked at,
    whatever the configuration: it can be removed from the feed without
    changing the items or the set the loop computes.  An id is in the set
    from the moment a record carrying it is emitted, it stays there for the
    rest of the call and for every later call on the set that call leaves,
    and a string id survives saving the set and loading it again; so once
    an occurrence of an id has been part of the output, no later
    occurrence is.  An occurrence that is rejected leaves the set as it
    was and does not bear on a later one. *)
Theorem seen_ids_are_skipped :
  forall (CONFIG : Config) (pastItems : IdSet),
    (forall l, has pastItems (id l) = true ->
               examine CONFIG pastItems (edgeOf l) = inl AlreadySeen)
    /\ (forall l before after,
          has pastItems (id l) = true ->
          filterEdges CONFIG pastItems (before ++ edgeOf l :: after)
          = filterEdges CONFIG pastItems (before ++ after))
    /\ (forall l l' before between after it,
          examine CONFIG (fst (filterEdges CONFIG pastItems before))
            (edgeOf l) = inr it ->
          id l' = id l ->
          filterEdges CONFIG pastItems
            (before ++ edgeOf l :: between ++ edgeOf l' :: after)
          = filterEdges CONFIG pastItems
              (before ++ edgeOf l :: between ++ after))
    /\ (forall CONFIG' l l' edges edges' before after it,
          examine CONFIG (fst (filterEdges CONFIG pastItems edges))
            (edgeOf l) = inr it ->
          id l' = id l ->
          let seen :=
            fst (filterEdges CONFIG pastItems (edges ++ edgeOf l :: edges')) in
          filterEdges CONFIG' seen (before ++ edgeOf l' :: after)
          = filterEdges CONFIG' seen (before ++ after))
    /\ (forall w,
          writable (pastItemsFile w) = true ->
          readable (pastItemsFile w) = true ->
          exists w1 reloaded,
            savePastItems pastItems w = (w1, Returned tt)
            /\ loadPastItems w1 = (w1, Returned reloaded)
            /\ forall CONFIG' l s before after,
                 id l = IdString s ->
                 has pastItems (id l) = true ->
                 filterEdges CONFIG' reloaded (before ++ edgeOf l :: after)
                 = filterEdges CONFIG' reloaded (before ++ after))
    /\ (forall l s before after,
          examine CONFIG (fst (filterEdges CONFIG pastItems before))
            (edgeOf l) = inl s ->
          filterEdges CONFIG pastItems (before ++ edgeOf l :: after)
          = filterEdges CONFIG pastItems (before ++ after)).
Proof.
  intros CONFIG pastItems.
  assert (Hmark : forall l edges edges' it,
             examine CONFIG (fst (filterEdges CONFIG pastItems edges))
               (edgeOf l) = inr it ->
             has (fst (filterEdges CONFIG pastItems
                         (edges ++ edgeOf l :: edges'))) (id l) = true).
  { intros l edges edges' it H. unfold filterEdges in *.
    rewrite fold_left_app. simpl. apply fold_filterStep_mono.
    now apply filterStep_marks with (it := it). }
  conjuncts.
  - intros l H. now apply examine_seen.
  - intros l before after H. unfold filterEdges.
    now apply fold_filterStep_drop_seen.
  - intros l l' before between after it H Hid. unfold filterEdges in *.
    rewrite !fold_left_app. simpl.
    apply fold_filterStep_drop_seen. rewrite Hid.
    now apply filterStep_marks with (it := it).
  - intros CONFIG' l l' edges edges' before after it H Hid seen.
    unfold filterEdges at 1 2. apply fold_filterStep_drop_seen.
    simpl. rewrite Hid. subst seen. now apply Hmark with (it := it).
  - intros w Hw Hr.
    destruct (save_then_load pastItems w Hw Hr) as (w1 & set' & Hs & Hl & Hh).
    exists w1, set'. conjuncts; auto.
    intros CONFIG' l s before after Hid H. unfold filterEdges.
    apply fold_filterStep_drop_seen. simpl.
    rewrite Hid in *. now rewrite Hh.
  - intros l s before after H. unfold filterEdges in *.
    rewrite !fold_left_app. cbn [fold_left].
    now rewrite (filterStep_skip CONFIG _ _ s H).
Qed.

Lemma seen_ids_are_skipped_witness :
  examine (excludeBroken false) [IdString "42"] (edgeOf listing42)
  = inl AlreadySeen
  /\ filterEdges defaultConfig [IdString "42"]
       ([edgeOf (priced "$3")] ++ edgeOf listing42 :: [edgeOf withoutId])
     = filterEdges defaultConfig [IdString "42"]
         ([edgeOf (priced "$3")] ++ [edgeOf withoutId])
  /\ filterEdges defaultConfig []
       ([] ++ edgeOf listing42 :: [edgeOf (priced "$3")]
           ++ edgeOf (listingOf (IdString "42") (Some "Sealed phone") None)
           :: [])
     = filterEdges defaultConfig []
         ([] ++ edgeOf listing42 :: [edgeOf (priced "$3")] ++ [])
  /\ filterEdges tenToTwenty
       (fst (filterEdges defaultConfig [] ([] ++ edgeOf listing42 :: [])))
       ([] ++ edgeOf listing42 :: [])
     = filterEdges tenToTwenty
         (fst (filterEdges defaultConfig [] ([] ++ edgeOf listing42 :: [])))
         ([] ++ [])
  /\ (exists w1 reloaded,
         savePastItems [IdString "42"] freshWorld = (w1, Returned tt)
         /\ loadPastItems w1 = (w1, Returned reloaded)
         /\ filterEdges defaultConfig reloaded ([] ++ edgeOf listing42 :: [])
            = filterEdges defaultConfig reloaded ([] ++ []))
  /\ filterEdges tenToTwenty []
       ([] ++ edgeOf (priced "$25") :: [edgeOf (priced "$15")])
     = filterEdges tenToTwenty [] ([] ++ [edgeOf (priced "$15")]).
Proof.
  pose proof (seen_ids_are_skipped (excludeBroken false) [IdString "42"])
    as (H1 & _).
  pose proof (seen_ids_are_skipped defaultConfig [IdString "42"])
    as (_ & H2 & _ & _ & H5 & _).
  pose proof (seen_ids_are_skipped defaultConfig [])
    as (_ & _ & H3 & H4 & _).
  pose proof (seen_ids_are_skipped tenToTwenty [])
    as (_ & _ & _ & _ & _ & H6).
  conjuncts.
  - apply (H1 listing42). reflexivity.
  - apply (H2 listing42). reflexivity.
  - eapply (H3 listing42); [vm_compute; reflexivity | reflexivity].
  - eapply (H4 tenToTwenty listing42 listing42 [] [] [] []);
      [vm_compute; reflexivity | reflexivity].
  - destruct (H5 freshWorld eq_refl eq_refl) as (w1 & reloaded & Hs & Hl & Hd).
    exists w1, reloaded. conjuncts; auto.
    apply (Hd defaultConfig listing42 "42"); reflexivity.
  - apply (H6 (priced "$25") AboveMax). vm_compute. reflexivity.
Defined.


(** ** Strings: UTF-8 *)

Lemma code_byte (n : N) : (n < 256)%N -> code (byte n) = n.
Proof. intro H. unfold code, byte. now apply N_ascii_embedding. Qed.

Lemma continuation_byte (n : N) :
  (n < 64)%N -> continuation (byte (128 + n)) = Some n.
Proof.
  intro H. unfold continuation. rewrite code_byte by lia.
  destruct (128 <=? 128 + n)%N eqn:E1; [|apply N.leb_gt in E1; lia].
  destruct (128 + n <? 192)%N eqn:E2; [|apply N.ltb_ge in E2; lia].
  cbn [andb]. f_equal. lia.
Qed.

(** Decoding finds the code point that was encoded, whatever follows. *)
Lemma decodeUtf8_encodeUtf8 (cp : N) (r : string) :
  (cp < 1114112)%N ->
  ((55296 <=? cp) && (cp <? 57344))%N = false ->
  decodeUtf8 (encodeUtf8 cp ++ r)
  = Some (cp, (String.length (encodeUtf8 cp) - 1)%nat).
Proof.
  intros Hmax Hsur. unfold encodeUtf8.
  destruct (cp <? 128)%N eqn:E1.
  { apply N.ltb_lt in E1. cbn [append decodeUtf8].
    rewrite code_byte by lia.
    destruct (cp <? 128)%N eqn:E; [reflexivity|].
    apply N.ltb_ge in E. lia. }
  apply N.ltb_ge in E1.
  destruct (cp <? 2048)%N eqn:E2.
  { apply N.ltb_lt in E2.
    pose proof (N.div_mod cp 64 ltac:(lia)) as Hd.
    pose proof (N.mod_lt cp 64 ltac:(lia)) as Hm.
    assert (Hq : (2 <= cp / 64 < 32)%N).
    { split.
      - apply N.div_le_lower_bound; lia.
      - apply N.Div0.div_lt_upper_bound; lia. }
    cbn [append decodeUtf8].
    rewrite code_byte by lia.
    rewrite continuation_byte by lia.
    destruct (192 + cp / 64 <? 128)%N eqn:F1; [apply N.ltb_lt in F1; lia|].
    destruct (194 <=? 192 + cp / 64)%N eqn:F2; [|apply N.leb_gt in F2; lia].
    destruct (192 + cp / 64 <? 224)%N eqn:F3; [|apply N.ltb_ge in F3; lia].
    cbn [andb String.length Nat.sub]. do 2 f_equal. lia. }
  apply N.ltb_ge in E2.
  destruct (cp <? 65536)%N eqn:E3.
  { apply N.ltb_lt in E3.
    pose proof (N.div_mod cp 64 ltac:(lia)) as Hd.
    pose proof (N.mod_lt cp 64 ltac:(lia)) as Hm.
    pose proof (N.div_mod (cp / 64) 64 ltac:(lia)) as Hd2.
    pose proof (N.mod_lt (cp / 64) 64 ltac:(lia)) as Hm2.
    assert (Hqq : (cp / 64 / 64 = cp / 4096)%N)
      by (rewrite N.Div0.div_div by lia; reflexivity).
    assert (Hq : (cp / 4096 < 16)%N) by (apply N.Div0.div_lt_upper_bound; lia).
    cbn [append decodeUtf8].
    rewrite code_byte by lia.
    rewrite !continuation_byte by lia.
    destruct (224 + cp / 4096 <? 128)%N eqn:F1; [apply N.ltb_lt in F1; lia|].
    destruct (194 <=? 224 + cp / 4096)%N eqn:F2; [|apply N.leb_gt in F2; lia].
    destruct (224 + cp / 4096 <? 224)%N eqn:F3; [apply N.ltb_lt in F3; lia|].
    destruct (224 <=? 224 + cp / 4096)%N eqn:F4; [|apply N.leb_gt in F4; lia].
    destruct (224 + cp / 4096 <? 240)%N eqn:F5; [|apply N.ltb_ge in F5; lia].
    cbn [andb].
    assert (Hcp : ((224 + cp / 4096 - 224) * 4096 + (cp / 64) mod 64 * 64
                   + cp mod 64 = cp)%N) by lia.
    rewrite Hcp, Hsur.
    destruct (2048 <=? cp)%N eqn:F6; [|apply N.leb_gt in F6; lia].
    reflexivity. }
  apply N.ltb_ge in E3.
  pose proof (N.div_mod cp 64 ltac:(lia)) as Hd.
  pose proof (N.mod_lt cp 64 ltac:(lia)) as Hm.
  pose proof (N.div_mod (cp / 64) 64 ltac:(lia)) as Hd2.
  pose proof (N.mod_lt (cp / 64) 64 ltac:(lia)) as Hm2.
  pose proof (N.div_mod (cp / 4096) 64 ltac:(lia)) as Hd3.
  pose proof (N.mod_lt (cp / 4096) 64 ltac:(lia)) as Hm3.
  assert (Hqq : (cp / 64 / 64 = cp / 4096)%N)
    by (rewrite N.Div0.div_div by lia; reflexivity).
  assert (Hqqq : (cp / 4096 / 64 = cp / 262144)%N)
    by (rewrite N.Div0.div_div by lia; reflexivity).
  assert (Hq : (cp / 262144 < 5)%N) by (apply N.Div0.div_lt_upper_bound; lia).
  cbn [append decodeUtf8].
  rewrite code_byte by lia.
  rewrite !continuation_byte by lia.
  destruct (240 + cp / 262144 <? 128)%N eqn:F1; [apply N.ltb_lt in F1; lia|].
  destruct (194 <=? 240 + cp / 262144)%N eqn:F2; [|apply N.leb_gt in F2; lia].
  destruct (240 + cp / 262144 <? 224)%N eqn:F3; [apply N.ltb_lt in F3; lia|].
  destruct (224 <=? 240 + cp / 262144)%N eqn:F4; [|apply N.leb_gt in F4; lia].
  destruct (240 + cp / 262144 <? 240)%N eqn:F5; [apply N.ltb_lt in F5; lia|].
  destruct (240 <=? 240 + cp / 262144)%N eqn:F6; [|apply N.leb_gt in F6; lia].
  cbn [andb].
  assert (Hcp : ((240 + cp / 262144 - 240) * 262144
                 + (cp / 4096) mod 64 * 4096 + (cp / 64) mod 64 * 64
                 + cp mod 64 = cp)%N) by lia.
  rewrite Hcp.
  destruct (65536 <=? cp)%N eqn:F7; [|apply N.leb_gt in F7; lia].
  destruct (cp <? 1114112)%N eqn:F8; [|apply N.ltb_ge in F8; lia].
  reflexivity.
Qed.

(** ** Strings: trimming *)

Lemma allChars_reverseOnto (p : ascii -> bool) (s acc : string) :
  allChars p (reverseOnto s acc) = allChars p s && allChars p acc.
Proof.
  revert acc. induction s as [|c s IH]; intro acc; simpl; auto.
  rewrite IH. simpl. rewrite andb_assoc, (andb_comm (allChars p s)).
  reflexivity.
Qed.

Lemma allChars_reverse (p : ascii -> bool) (s : string) :
  allChars p (reverse s) = allChars p s.
Proof. unfold reverse. rewrite allChars_reverseOnto. simpl. apply andb_true_r. Qed.


Lemma allChars_append (p : ascii -> bool) (s t : string) :
  allChars p (s ++ t) = allChars p s && allChars p t.
Proof.
  induction s as [|c s IH]; simpl; auto. rewrite IH. apply andb_assoc.
Qed.

(** *** White space *)

Lemma string_length_ind (P : string -> Prop) :
  (forall s, (forall t, (String.length t < String.length s)%nat -> P t) ->
             P s) ->
  forall s, P s.
Proof.
  intros H s.
  assert (Hn : forall n t, (String.length t < n)%nat -> P t).
  { induction n as [|n IH]; intros t Ht; [lia|].
    apply H. intros u Hu. apply IH. lia. }
  apply (Hn (S (String.length s))). lia.
Qed.

Lemma startsWith_split (a s : string) :
  startsWith a s = true -> exists r, s = (a ++ r)%string.
Proof.
  revert s. induction a as [|c a IH]; intros s H.
  - exists s. reflexivity.
  - destruct s as [|d s]; [discriminate H|]. simpl in H.
    apply andb_true_iff in H. destruct H as [Hc H].
    apply Ascii.eqb_eq in Hc. subst d.
    destruct (IH s H) as [r ->]. exists r. reflexivity.
Qed.

Lemma dropBytes_append (w r : string) :
  dropBytes (String.length w) (w ++ r) = r.
Proof.
  induction w as [|c w IH]; simpl; auto.
Qed.

Lemma dropSpaces_skip (k : nat) :
  forall s, dropSpaces k s = skipSpaces (dropBytes k s).
Proof.
  induction k as [|k IH]; intros [|c s]; try reflexivity.
  cbn [dropSpaces dropBytes]. apply IH.
Qed.

(** [skipSpaces] passes the white space character at the head and goes
    on. *)
Lemma skipSpaces_step (s : string) :
  skipSpaces s
  = match spaceWidth s with
    | O => s
    | S k => skipSpaces (dropBytes (S k) s)
    end.
Proof.
  destruct s as [|c s]; [reflexivity|].
  unfold skipSpaces at 1. cbn [dropSpaces].
  destruct (spaceWidth (String c s)); [reflexivity|].
  cbn [dropBytes]. apply dropSpaces_skip.
Qed.

Lemma spaceWidth_inv (s : string) (k : nat) :
  spaceWidth s = S k ->
  exists cp r,
    In cp whiteSpace /\ s = (encodeUtf8 cp ++ r)%string
    /\ String.length (encodeUtf8 cp) = S k.
Proof.
  unfold spaceWidth.
  destruct (find (fun cp => startsWith (encodeUtf8 cp) s) whiteSpace)
    as [cp|] eqn:F; [|discriminate].
  intro H. apply find_some in F. destruct F as [Hin Hp].
  apply startsWith_split in Hp. destruct Hp as [r Hr].
  exists cp, r. auto.
Qed.

Lemma spaceWidth_char (cp : N) (r : string) :
  In cp whiteSpace ->
  spaceWidth (encodeUtf8 cp ++ r) = String.length (encodeUtf8 cp).
Proof.
  intro H. cbv [whiteSpace In] in H.
  repeat (destruct H as [<-|H]; [reflexivity|]). destruct H.
Qed.

Lemma encodeUtf8_nonempty (cp : N) : encodeUtf8 cp <> "".
Proof.
  unfold encodeUtf8.
  destruct (cp <? 128)%N; [discriminate|].
  destruct (cp <? 2048)%N; [discriminate|].
  destruct (cp <? 65536)%N; discriminate.
Qed.

Lemma skipSpaces_char (cp : N) (r : string) :
  In cp whiteSpace -> skipSpaces (encodeUtf8 cp ++ r) = skipSpaces r.
Proof.
  intro H. rewrite skipSpaces_step, (spaceWidth_char cp r H).
  destruct (String.length (encodeUtf8 cp)) as [|k] eqn:E.
  - destruct (encodeUtf8 cp) eqn:E'; [|discriminate E].
    now contradiction (encodeUtf8_nonempty cp).
  - rewrite <- E. now rewrite dropBytes_append.
Qed.

Lemma skipSpaces_fixed (s : string) : spaceWidth s = O -> skipSpaces s = s.
Proof. intro H. now rewrite skipSpaces_step, H. Qed.

Lemma isBlank_empty (s : string) : isBlank s = true <-> skipSpaces s = "".
Proof. unfold isBlank. destruct (skipSpaces s); simpl; split; congruence. Qed.

(** A string of white space is empty or a white space character followed
    by a string of white space. *)
Lemma blank_cases (w : string) :
  isBlank w = true ->
  w = ""
  \/ exists cp w',
       In cp whiteSpace /\ w = (encodeUtf8 cp ++ w')%string
       /\ isBlank w' = true.
Proof.
  intro H. destruct (spaceWidth w) as [|k] eqn:E.
  - left. apply isBlank_empty in H. now rewrite (skipSpaces_fixed w E) in H.
  - right. destruct (spaceWidth_inv w k E) as (cp & r & Hin & Hw & _).
    exists cp, r. conjuncts; auto.
    unfold isBlank in *. now rewrite Hw, skipSpaces_char in H.
Qed.

Lemma blank_shorter (cp : N) (w' : string) :
  (String.length w' < String.length (encodeUtf8 cp ++ w'))%nat.
Proof.
  rewrite length_append. pose proof (encodeUtf8_nonempty cp) as H.
  destruct (encodeUtf8 cp); [congruence | simpl; lia].
Qed.

Lemma skipSpaces_blank_append (w r : string) :
  isBlank w = true -> skipSpaces (w ++ r) = skipSpaces r.
Proof.
  revert r. induction w as [w IH] using string_length_ind. intros r H.
  destruct (blank_cases w H) as [->|(cp & w' & Hin & -> & Hw')];
    [reflexivity|].
  rewrite append_assoc, skipSpaces_char by exact Hin.
  apply IH; [apply blank_shorter | exact Hw'].
Qed.

(** What [skipSpaces] removes is white space, and what it leaves does not
    start with white space. *)
Lemma skipSpaces_suffix (s : string) :
  exists w,
    isBlank w = true /\ s = (w ++ skipSpaces s)%string
    /\ spaceWidth (skipSpaces s) = O.
Proof.
  induction s as [s IH] using string_length_ind.
  destruct (spaceWidth s) as [|k] eqn:E.
  - exists "". rewrite (skipSpaces_fixed s E). auto.
  - destruct (spaceWidth_inv s k E) as (cp & r & Hin & Hs & _). subst s.
    destruct (IH r (blank_shorter cp r)) as (w & Hw & Hr & H0).
    exists (encodeUtf8 cp ++ w)%string.
    rewrite skipSpaces_char by exact Hin. conjuncts; auto.
    + unfold isBlank in *. now rewrite skipSpaces_char.
    + rewrite append_assoc. now rewrite <- Hr.
Qed.

Lemma skipSpaces_idempotent (s : string) :
  skipSpaces (skipSpaces s) = skipSpaces s.
Proof.
  destruct (skipSpaces_suffix s) as (_ & _ & _ & H).
  now apply skipSpaces_fixed.
Qed.

(** [trim] leaves something exactly when the string is not made of white
    space only. *)
Lemma trim_length (s : string) :
  (0 <? String.length (trim s))%nat = negb (isBlank s).
Proof.
  unfold trim, isBlank.
  pose proof (skipSpaces_idempotent s) as H.
  destruct (skipSpaces s) as [|c r]; [reflexivity|].
  cbn [trimEnd]. unfold isBlank. now rewrite H.
Qed.

Lemma trim_blank (s : string) : isBlank s = true -> trim s = "".
Proof.
  intro H. unfold trim. apply isBlank_empty in H. now rewrite H.
Qed.

(** The bytes of a string of white space are bytes of white space
    characters. *)
Lemma blank_bytes (w : string) :
  isBlank w = true -> allChars spaceByte w = true.
Proof.
  induction w as [w IH] using string_length_ind. intro H.
  destruct (blank_cases w H) as [->|(cp & w' & Hin & -> & Hw')];
    [reflexivity|].
  rewrite allChars_append, (IH w' (blank_shorter cp w') Hw').
  rewrite andb_true_r. clear - Hin. cbv [whiteSpace In] in Hin.
  repeat (destruct Hin as [<-|Hin]; [reflexivity|]). destruct Hin.
Qed.

(** A string with a byte that is not one of a white space character does
    not trim to the empty string. *)
Lemma trim_nonempty (s : string) :
  allChars spaceByte s = false -> (0 <? String.length (trim s))%nat = true.
Proof.
  intro H. rewrite trim_length.
  destruct (isBlank s) eqn:E; [|reflexivity].
  apply blank_bytes in E. congruence.
Qed.

(** ** The notification gate *)

Lemma withinWindow_spec (CONFIG : Config) (h : Z) :
  withinWindow CONFIG h = true <->
  activeHours_start CONFIG <= h <= activeHours_end CONFIG.
Proof.
  unfold withinWindow. rewrite andb_true_iff, !Z.leb_le. reflexivity.
Qed.

Lemma forEach_sendMail (mk : string -> Mail) (l : list string) (w : World) :
  forEach l (fun r => sendMail (mk r)) w =
  ({| pastItemsFile := pastItemsFile w; bufferFile := bufferFile w;
      journal := journal w ++ map (fun r => SendMail (mk r)) l |},
   Returned tt).
Proof.
  revert w. induction l as [|r l IH]; intro w; simpl.
  - unfold ret. rewrite app_nil_r. now destruct w.
  - unfold bind, sendMail, record. rewrite IH. simpl.
    now rewrite <- app_assoc.
Qed.

Lemma bufferBlock_has_ink (stamp term : string) (items : list Item) :
  allChars spaceByte (bufferBlock stamp term items) = false.
Proof. reflexivity. Qed.

Lemma notify_outside (CONFIG : Config) (env : TermEnv) (term : string)
      (items : list Item) (w : World) :
  items <> [] ->
  withinWindow CONFIG (nowHour env) = false ->
  writable (bufferFile w) = true ->
  notify CONFIG env term items w =
  ({| pastItemsFile := pastItemsFile w;
      bufferFile :=
        store (bufferFile w)
          (match content (bufferFile w) with
           | Some old => (old ++ bufferBlock (nowStamp env) term items)%string
           | None => bufferBlock (nowStamp env) term items
           end);
      journal := journal w ++ [AppendBuffer (bufferBlock (nowStamp env) term items)] |},
   Returned tt).
Proof.
  intros Hi Hw Hb. unfold notify.
  destruct items as [|it items]; [now contradiction Hi|].
  change (List.length (it :: items) =? 0)%nat with false. cbv iota.
  rewrite Hw. cbn [negb]. cbv iota.
  unfold appendBuffer, bind, record, setBufferFile.
  simpl. rewrite Hb. reflexivity.
Qed.

Lemma takeBuffer_held (w : World) (held : string) :
  content (bufferFile w) = Some held ->
  readable (bufferFile w) = true ->
  writable (bufferFile w) = true ->
  takeBuffer w =
  ({| pastItemsFile := pastItemsFile w;
      bufferFile := store (bufferFile w) "";
      journal := journal w ++ [WriteBuffer ""] |},
   Returned (if (0 <? String.length (trim held))%nat
             then ("Previous notifications:" ++ nl ++ held ++ nl ++ nl)%string
             else "")).
Proof.
  intros Hc Hr Hb.
  unfold takeBuffer, bind, existsBuffer, readBuffer, writeBuffer, bind,
    record, setBufferFile, ret.
  rewrite Hc. simpl. rewrite Hc, Hr. simpl. rewrite Hb. reflexivity.
Qed.

Lemma notify_inside (CONFIG : Config) (env : TermEnv) (term : string)
      (items : list Item) (w : World) (held : string) :
  items <> [] ->
  withinWindow CONFIG (nowHour env) = true ->
  content (bufferFile w) = Some held ->
  readable (bufferFile w) = true ->
  writable (bufferFile w) = true ->
  allChars spaceByte held = false ->
  notify CONFIG env term items w =
  ({| pastItemsFile := pastItemsFile w;
      bufferFile := store (bufferFile w) "";
      journal :=
        journal w
        ++ WriteBuffer ""
        :: map (fun r =>
                  SendMail
                    {| from := email_sender CONFIG; to := r;
                       subject := mailSubject term items;
                       text :=
                         ("Previous notifications:" ++ nl ++ held ++ nl ++ nl)
                         ++ String.concat (nl ++ nl) (map textEntry items);
                       html := String.concat "" (map itemHtml items) |})
             (email_recipients CONFIG) |},
   Returned tt).
Proof.
  intros Hi Hw Hc Hr Hb Hink. unfold notify.
  destruct items as [|it items]; [now contradiction Hi|].
  change (List.length (it :: items) =? 0)%nat with false. cbv iota.
  rewrite Hw. cbn [negb]. cbv iota.
  unfold bind. rewrite (takeBuffer_held w held Hc Hr Hb).
  rewrite (trim_nonempty _ Hink), forEach_sendMail.
  cbn [pastItemsFile bufferFile journal]. now rewrite <- app_assoc.
Qed.


(** C2.  The window test is [start <= h <= end], both ends included.  A
    [notify] call with a non-empty item list at an hour outside the window
    sends no mail: it appends one block to the buffer file, and that is its
    only effect.  The block holds the time stamp and the term and, for
    every item, its title, price and link.  The next [notify] call with a
    non-empty list at an hour inside the window calls the mail transport
    once for each entry of the recipient list, in order, every mail
    carrying as text the buffered content followed by the new entries (so
    the title, price and link of every buffered item and of every new
    item) and as HTML the title, price and link of every new item, and it
    leaves the buffer file empty. *)
Theorem buffered_then_delivered :
  forall (CONFIG : Config) (env1 env2 : TermEnv) (term1 term2 : string)
         (items1 items2 : list Item) (w : World),
    items1 <> [] ->
    items2 <> [] ->
    ~ (activeHours_start CONFIG <= nowHour env1 <= activeHours_end CONFIG) ->
    activeHours_start CONFIG <= nowHour env2 <= activeHours_end CONFIG ->
    readable (bufferFile w) = true ->
    writable (bufferFile w) = true ->
    let block := bufferBlock (nowStamp env1) term1 items1 in
    let held :=
      match content (bufferFile w) with
      | Some old => (old ++ block)%string
      | None => block
      end in
    let entries := String.concat (nl ++ nl) (map textEntry items2) in
    let body :=
      (("Previous notifications:" ++ nl ++ held ++ nl ++ nl) ++ entries)%string
    in
    let page := String.concat "" (map itemHtml items2) in
    let mail (recipient : string) :=
      {| from := email_sender CONFIG; to := recipient;
         subject := mailSubject term2 items2; text := body;
         html := page |} in
    let w1 :=
      {| pastItemsFile := pastItemsFile w;
         bufferFile := store (bufferFile w) held;
         journal := journal w ++ [AppendBuffer block] |} in
    let w2 :=
      {| pastItemsFile := pastItemsFile w;
         bufferFile := store (bufferFile w) "";
         journal :=
           journal w1
           ++ WriteBuffer "" :: map (fun r => SendMail (mail r))
                                    (email_recipients CONFIG) |} in
    notify CONFIG env1 term1 items1 w = (w1, Returned tt)
    /\ notify CONFIG env2 term2 items2 w1 = (w2, Returned tt)
    /\ content (bufferFile w2) = Some ""
    /\ includes held block = true
    /\ includes body held = true
    /\ includes body entries = true
    /\ includes block
         ("[" ++ nowStamp env1 ++ "] Results for " ++ dq ++ term1 ++ dq ++ ":")
       = true
    /\ (forall it,
          In it items1 ->
          let line := (title it ++ " - " ++ price it ++ " - " ++ link it)%string
          in includes block line = true /\ includes body line = true)
    /\ (forall it,
          In it items2 ->
          includes body
            (title it ++ " " ++ encodeUtf8 8211 ++ " " ++ price it ++ nl
             ++ link it) = true
          /\ includes page ("<strong>" ++ title it ++ "</strong>") = true
          /\ includes page ("<span>Price: " ++ price it ++ "</span>") = true
          /\ includes page
               ("<a href=" ++ dq ++ link it ++ dq ++ ">View on Facebook</a>")
             = true).
Proof.
  intros CONFIG env1 env2 term1 term2 items1 items2 w Hi1 Hi2 Hout Hin Hr Hw
         block held entries body page mail w1 w2.
  assert (Hout' : withinWindow CONFIG (nowHour env1) = false).
  { destruct (withinWindow CONFIG (nowHour env1)) eqn:E; auto.
    apply withinWindow_spec in E. now contradiction Hout. }
  apply withinWindow_spec in Hin.
  assert (Hink : allChars spaceByte held = false).
  { subst held. destruct (content (bufferFile w)) as [old|].
    - rewrite allChars_append. subst block.
      rewrite bufferBlock_has_ink. apply andb_false_r.
    - apply bufferBlock_has_ink. }
  assert (Hhb : includes held block = true).
  { subst held. destruct (content (bufferFile w)) as [old|].
    - apply includes_append_end.
    - apply includes_self. }
  assert (Hbh : includes body held = true).
  { subst body. rewrite !append_assoc.
    rewrite <- (append_assoc "Previous notifications:" nl).
    apply includes_append. }
  assert (Hbe : includes body entries = true)
    by (subst body; apply includes_append_end).
  conjuncts; auto.
  - now apply notify_outside.
  - rewrite (notify_inside CONFIG env2 term2 items2 w1 held); auto.
  - subst block. unfold bufferBlock.
    segment (nl ++ nl)%string
            (nl ++ String.concat nl (map bufferLine items1))%string.
  - intros it Hit line.
    assert (Hl : includes block line = true).
    { apply (includes_trans _ (String.concat nl (map bufferLine items1))).
      - subst block. unfold bufferBlock. rewrite <- !append_assoc.
        apply includes_append_end.
      - apply includes_concat.
        apply (in_map bufferLine items1 it Hit). }
    split; [exact Hl|].
    apply (includes_trans _ held); auto.
    apply (includes_trans _ block); auto.
  - intros it Hit.
    pose proof (in_map itemHtml items2 it Hit) as Hpage.
    apply (includes_concat "") in Hpage. fold page in Hpage.
    set (img := if isEmpty (image it) then ""
                else ("<img src=" ++ dq ++ image it ++ dq ++ " alt=" ++ dq
                      ++ "Image" ++ dq ++ " style=" ++ dq
                      ++ "max-width:200px; display:block; margin-bottom:0.5em;"
                      ++ dq ++ ">")%string).
    set (est := if isEmpty (estimate it) then ""
                else ("<span>Estimated resale value: " ++ estimate it
                      ++ "</span><br>")%string).
    set (des := if isEmpty (description it) then ""
                else ("<span>" ++ replaceNewlines (description it)
                      ++ "</span><br>")%string).
    assert (Hhtml : itemHtml it
                    = ("<div style=" ++ dq ++ "margin-bottom:1em;" ++ dq ++ ">"
                       ++ nl ++ "      " ++ img ++ nl
                       ++ "      <strong>" ++ title it ++ "</strong><br>" ++ nl
                       ++ "      <span>Price: " ++ price it ++ "</span><br>"
                       ++ nl ++ "      " ++ est ++ nl
                       ++ "      " ++ des ++ nl
                       ++ "      <a href=" ++ dq ++ link it ++ dq
                       ++ ">View on Facebook</a>" ++ nl ++ "    </div>")%string)
      by reflexivity.
    conjuncts.
    + apply (includes_trans _ entries); auto.
      apply includes_concat. apply (in_map textEntry items2 it Hit).
    + apply (includes_trans _ (itemHtml it)); auto. rewrite Hhtml.
      segment ("<div style=" ++ dq ++ "margin-bottom:1em;" ++ dq ++ ">"
               ++ nl ++ "      " ++ img ++ nl ++ "      ")%string
              ("<br>" ++ nl
               ++ "      <span>Price: " ++ price it ++ "</span><br>"
               ++ nl ++ "      " ++ est ++ nl
               ++ "      " ++ des ++ nl
               ++ "      <a href=" ++ dq ++ link it ++ dq
               ++ ">View on Facebook</a>" ++ nl ++ "    </div>")%string.
    + apply (includes_trans _ (itemHtml it)); auto. rewrite Hhtml.
      segment ("<div style=" ++ dq ++ "margin-bottom:1em;" ++ dq ++ ">"
               ++ nl ++ "      " ++ img ++ nl
               ++ "      <strong>" ++ title it ++ "</strong><br>" ++ nl
               ++ "      ")%string
              ("<br>" ++ nl ++ "      " ++ est ++ nl
               ++ "      " ++ des ++ nl
               ++ "      <a href=" ++ dq ++ link it ++ dq
               ++ ">View on Facebook</a>" ++ nl ++ "    </div>")%string.
    + apply (includes_trans _ (itemHtml it)); auto. rewrite Hhtml.
      segment ("<div style=" ++ dq ++ "margin-bottom:1em;" ++ dq ++ ">"
               ++ nl ++ "      " ++ img ++ nl
               ++ "      <strong>" ++ title it ++ "</strong><br>" ++ nl
               ++ "      <span>Price: " ++ price it ++ "</span><br>"
               ++ nl ++ "      " ++ est ++ nl
               ++ "      " ++ des ++ nl ++ "      ")%string
              (nl ++ "    </div>")%string.
Qed.

Lemma buffered_then_delivered_witness :
  exists w1 w2,
    notify defaultConfig (termAt [] 3) "phone" [item42] freshWorld
    = (w1, Returned tt)
    /\ notify defaultConfig (termAt [] 8) "phone" [item42] w1
       = (w2, Returned tt)
    /\ journal w1
       = [AppendBuffer (bufferBlock "11/2/2026, 3:00:00 AM" "phone" [item42])]
    /\ List.length (journal w2) = 4%nat
    /\ content (bufferFile w2) = Some ""
    /\ includes (bufferBlock "11/2/2026, 3:00:00 AM" "phone" [item42])
         "Phone - $10 - https://www.facebook.com/marketplace/item/42" = true.
Proof.
  destruct (buffered_then_delivered defaultConfig (termAt [] 3)
              (termAt [] 8) "phone" "phone" [item42] [item42] freshWorld
              ltac:(discriminate) ltac:(discriminate)
              ltac:(intros [Hlo _]; vm_compute in Hlo; now apply Hlo)
              ltac:(split; vm_compute; discriminate) eq_refl eq_refl)
    as (H1 & H2 & H3 & _ & _ & _ & _ & H8 & _).
  eexists. eexists.
  conjuncts; [exact H1 | exact H2 | reflexivity | reflexivity | exact H3 |].
  exact (proj1 (H8 item42 (or_introl eq_refl))).
Defined.


(** ** Runs *)

Lemma sparesPast_refl (w : World) : sparesPast w w.
Proof.
  split; auto. exists []. now rewrite app_nil_r.
Qed.

Lemma sparesPast_trans (w1 w2 w3 : World) :
  sparesPast w1 w2 -> sparesPast w2 w3 -> sparesPast w1 w3.
Proof.
  intros [Hf (a & Ha & Hna)] [Hf' (b & Hb & Hnb)]. split.
  - congruence.
  - exists (a ++ b). rewrite Hb, Ha, app_assoc. split; auto.
    rewrite forallb_app. now rewrite Hna, Hnb.
Qed.

Lemma keepsPast_ret {A : Type} (a : A) : keepsPast (ret a).
Proof. intros w w' o H. inversion H. apply sparesPast_refl. Qed.

Lemma keepsPast_throw {A : Type} : keepsPast (@throw A).
Proof. intros w w' o H. inversion H. apply sparesPast_refl. Qed.

Lemma keepsPast_bind {A B : Type} (c : M A) (k : A -> M B) :
  keepsPast c -> (forall a, keepsPast (k a)) -> keepsPast (bind c k).
Proof.
  intros Hc Hk w w' o H. unfold bind in H.
  destruct (c w) as [w1 [a|]] eqn:E.
  - eapply sparesPast_trans; [eapply Hc; eauto | eapply Hk; eauto].
  - inversion H. subst. eapply Hc; eauto.
Qed.

Lemma keepsPast_tryCatch {A : Type} (c handler : M A) :
  keepsPast c -> keepsPast handler -> keepsPast (tryCatch c handler).
Proof.
  intros Hc Hh w w' o H. unfold tryCatch in H.
  destruct (c w) as [w1 [a|]] eqn:E.
  - inversion H. subst. eapply Hc; eauto.
  - eapply sparesPast_trans; [eapply Hc; eauto | eapply Hh; eauto].
Qed.

Lemma keepsPast_record (e : Effect) :
  isPastWrite e = false -> keepsPast (record e).
Proof.
  intros He w w' o H. unfold record in H. inversion H. subst. split; auto.
  exists [e]. simpl. now rewrite He.
Qed.

Lemma keepsPast_setBufferFile (f : File string) : keepsPast (setBufferFile f).
Proof.
  intros w w' o H. unfold setBufferFile in H. inversion H. subst.
  split; auto. exists []. simpl. now rewrite app_nil_r.
Qed.

Lemma keepsPast_pure {A : Type} (c : M A) :
  (forall w, fst (c w) = w) -> keepsPast c.
Proof.
  intros Hc w w' o H. specialize (Hc w). rewrite H in Hc. simpl in Hc.
  subst. apply sparesPast_refl.
Qed.

Lemma keepsPast_forEach {A : Type} (l : list A) (body : A -> M unit) :
  (forall a, keepsPast (body a)) -> keepsPast (forEach l body).
Proof.
  intro Hb. induction l as [|a l IH]; simpl.
  - apply keepsPast_ret.
  - apply keepsPast_bind; auto.
Qed.

Create HintDb frame.

#[local] Hint Resolve keepsPast_ret keepsPast_throw keepsPast_bind
  keepsPast_tryCatch keepsPast_setBufferFile keepsPast_forEach : frame.

Lemma keepsPast_writeBuffer (s : string) : keepsPast (writeBuffer s).
Proof.
  unfold writeBuffer. apply keepsPast_bind.
  - now apply keepsPast_record.
  - intros _ w w' o H. destruct (writable (bufferFile w)).
    + eapply keepsPast_setBufferFile; eauto.
    + inversion H. apply sparesPast_refl.
Qed.

Lemma keepsPast_appendBuffer (s : string) : keepsPast (appendBuffer s).
Proof.
  unfold appendBuffer. apply keepsPast_bind.
  - now apply keepsPast_record.
  - intros _ w w' o H. destruct (writable (bufferFile w)).
    + eapply keepsPast_setBufferFile; eauto.
    + inversion H. apply sparesPast_refl.
Qed.

Lemma keepsPast_readBuffer : keepsPast readBuffer.
Proof.
  apply keepsPast_pure. intro w. unfold readBuffer.
  destruct (content (bufferFile w)); [|reflexivity].
  now destruct (readable (bufferFile w)).
Qed.

Lemma keepsPast_sendMail (m : Mail) : keepsPast (sendMail m).
Proof. unfold sendMail. now apply keepsPast_record. Qed.

#[local] Hint Resolve keepsPast_writeBuffer keepsPast_appendBuffer
  keepsPast_readBuffer keepsPast_sendMail : frame.

Lemma keepsPast_takeBuffer : keepsPast takeBuffer.
Proof.
  unfold takeBuffer. apply keepsPast_bind.
  - apply keepsPast_pure. reflexivity.
  - intros [|]; auto 6 with frame.
Qed.

#[local] Hint Resolve keepsPast_takeBuffer : frame.

Lemma keepsPast_notify (CONFIG : Config) (env : TermEnv) (term : string)
      (items : list Item) :
  keepsPast (notify CONFIG env term items).
Proof.
  unfold notify.
  destruct (List.length items =? 0)%nat; auto with frame.
  destruct (negb (withinWindow CONFIG (nowHour env))); auto 6 with frame.
Qed.

#[local] Hint Resolve keepsPast_notify : frame.

Lemma keepsPast_deliver (CONFIG : Config) (env : TermEnv) (term : string)
      (scraped : Outcome (list Item)) :
  keepsPast (deliver CONFIG env term scraped).
Proof.
  unfold deliver. destruct scraped as [items|]; auto with frame.
  destruct (0 <? List.length items)%nat; auto with frame.
Qed.

(** The [try] around a term never lets an exception out. *)
Lemma guarded_returns (c : M unit) (w : World) :
  exists w', tryCatch c (ret tt) w = (w', Returned tt).
Proof.
  unfold tryCatch, ret. destruct (c w) as [w' [[]|]]; eauto.
Qed.

Section RunFacts.

Variable CONFIG : Config.
Variable categoryAvgPrices : CategoryAvgPrices.
Variable ENV : RunEnv.

Lemma processTerms_step (n : nat) (term : string) (terms : list string)
      (pastItems : IdSet) (w : World) :
  exists w',
    tryCatch
      (deliver CONFIG (termEnv ENV n) term
         (snd (scrapeTerm CONFIG categoryAvgPrices (termEnv ENV n) pastItems)))
      (ret tt) w = (w', Returned tt)
    /\ sparesPast w w'
    /\ processTerms CONFIG categoryAvgPrices ENV n (term :: terms) pastItems w
       = processTerms CONFIG categoryAvgPrices ENV (S n) terms
           (fst (scrapeTerm CONFIG categoryAvgPrices (termEnv ENV n) pastItems))
           w'.
Proof.
  destruct (guarded_returns
              (deliver CONFIG (termEnv ENV n) term
                 (snd (scrapeTerm CONFIG categoryAvgPrices (termEnv ENV n)
                         pastItems))) w) as [w' Hw'].
  exists w'. conjuncts; auto.
  - eapply keepsPast_tryCatch; eauto.
    + apply keepsPast_deliver.
    + apply keepsPast_ret.
  - simpl.
    destruct (scrapeTerm CONFIG categoryAvgPrices (termEnv ENV n) pastItems)
      as [p s] eqn:E.
    simpl in *. unfold bind. now rewrite Hw'.
Qed.

(** The loop over the terms ends normally, with the set all the calls of
    [scrapeTerm] have built, and does not write the seen-id file. *)
Lemma processTerms_returns (terms : list string) :
  forall (n : nat) (pastItems : IdSet) (w : World),
  exists w' pastItems',
    processTerms CONFIG categoryAvgPrices ENV n terms pastItems w
    = (w', Returned pastItems')
    /\ sparesPast w w'.
Proof.
  induction terms as [|term terms IH]; intros n pastItems w.
  - exists w, pastItems. split; [reflexivity | apply sparesPast_refl].
  - destruct (processTerms_step n term terms pastItems w)
      as (w1 & _ & Hs & Heq).
    destruct (IH (S n)
                (fst (scrapeTerm CONFIG categoryAvgPrices (termEnv ENV n)
                        pastItems)) w1) as (w' & p' & Hp & Hs').
    exists w', p'. rewrite Heq. split; auto.
    eapply sparesPast_trans; eauto.
Qed.

(** A term whose [scrapeTerm] throws changes nothing in the world; the
    loop goes on with the next term. *)
Lemma processTerms_failed_term (n : nat) (term : string)
      (terms : list string) (pastItems : IdSet) (w : World) :
  snd (scrapeTerm CONFIG categoryAvgPrices (termEnv ENV n) pastItems)
  = Thrown ->
  processTerms CONFIG categoryAvgPrices ENV n (term :: terms) pastItems w
  = processTerms CONFIG categoryAvgPrices ENV (S n) terms
      (fst (scrapeTerm CONFIG categoryAvgPrices (termEnv ENV n) pastItems)) w.
Proof.
  intro H. simpl.
  destruct (scrapeTerm CONFIG categoryAvgPrices (termEnv ENV n) pastItems)
    as [p s] eqn:E.
  simpl in *. subst s. reflexivity.
Qed.

End RunFacts.

(** [loadPastItems] ends normally in every world. *)
Lemma loadPastItems_returns (w : World) :
  exists w', loadPastItems w = (w', Returned (loadedSet w)).
Proof.
  unfold loadPastItems, loadedSet, tryCatch, bind, existsPastItems,
    readPastItems, writePastItems, bind, record, setPastItemsFile, ret, throw.
  destruct w as [[c r wr] bf j]. simpl.
  destruct c as [[| |ids]|]; simpl; destruct r; simpl; eauto;
    destruct wr; simpl; eauto.
Qed.

Lemma loadFails_empty (w : World) : loadFails w -> loadedSet w = [].
Proof.
  unfold loadFails, loadedSet.
  intros [(d & Hc & Hr)|Hc]; rewrite Hc; [rewrite Hr|]; auto.
  now destruct d.
Qed.


Lemma loadPastItems_keeps_flags (w w' : World) (o : Outcome IdSet) :
  loadPastItems w = (w', o) ->
  writable (pastItemsFile w') = writable (pastItemsFile w).
Proof.
  unfold loadPastItems, tryCatch, bind, existsPastItems,
    readPastItems, writePastItems, bind, record, setPastItemsFile, ret, throw.
  destruct w as [[c r wr] bf j]. simpl.
  destruct c as [[| |ids]|]; simpl; destruct r; simpl;
    try (intro H; inversion H; reflexivity);
    destruct wr; simpl; intro H; inversion H; reflexivity.
Qed.

Lemma savePastItems_returns (set : IdSet) (w : World) :
  exists w',
    savePastItems set w = (w', Returned tt)
    /\ journal w' = journal w ++ [WritePastItems (IdList (map toJson set))]
    /\ (writable (pastItemsFile w) = true ->
        content (pastItemsFile w') = Some (IdList (map toJson set))).
Proof.
  unfold savePastItems, tryCatch, writePastItems, bind, record,
    setPastItemsFile, ret.
  simpl. destruct (writable (pastItemsFile w)); simpl; eexists;
    conjuncts; try reflexivity; intro H; try discriminate H; reflexivity.
Qed.

(** ** Claims about a run *)

(** C8.  When the browser session opens and closes, a run ends normally
    whatever happens to the single terms.  The [try] around a term turns an
    exception of [scrapeTerm] or [notify] into a normal end of that term,
    and the loop continues with the next term from the world and the set
    the failing term left; a term whose [scrapeTerm] throws leaves the
    world as it was.  The seen-id file is written exactly once after the
    loading phase: by the last call of the run, with the set the loop over
    all the terms has built.  Loading the set never throws, and a seen-id
    file that cannot be read or parsed gives the empty set. *)
Theorem run_survives_term_errors :
  forall (CONFIG : Config) (categoryAvgPrices : CategoryAvgPrices)
         (ENV : RunEnv) (w : World),
    browserLaunches ENV = true ->
    pageOpens ENV = true ->
    browserCloses ENV = true ->
    (exists w0 w1 w2 pastItems1 during,
        loadPastItems w = (w0, Returned (loadedSet w))
        /\ processTerms CONFIG categoryAvgPrices ENV 0 (searchTerms CONFIG)
             (loadedSet w) w0 = (w1, Returned pastItems1)
        /\ run CONFIG categoryAvgPrices ENV w = (w2, Returned tt)
        /\ journal w1 = journal w0 ++ during
        /\ forallb (fun e => negb (isPastWrite e)) during = true
        /\ journal w2
           = journal w1 ++ [WritePastItems (IdList (map toJson pastItems1))]
        /\ (writable (pastItemsFile w) = true ->
            content (pastItemsFile w2)
            = Some (IdList (map toJson pastItems1))))
    /\ (forall n term terms pastItems wn,
          exists wn',
            tryCatch
              (deliver CONFIG (termEnv ENV n) term
                 (snd (scrapeTerm CONFIG categoryAvgPrices (termEnv ENV n)
                         pastItems)))
              (ret tt) wn = (wn', Returned tt)
            /\ processTerms CONFIG categoryAvgPrices ENV n (term :: terms)
                 pastItems wn
               = processTerms CONFIG categoryAvgPrices ENV (S n) terms
                   (fst (scrapeTerm CONFIG categoryAvgPrices (termEnv ENV n)
                           pastItems)) wn')
    /\ (forall n term terms pastItems wn,
          snd (scrapeTerm CONFIG categoryAvgPrices (termEnv ENV n) pastItems)
          = Thrown ->
          processTerms CONFIG categoryAvgPrices ENV n (term :: terms)
            pastItems wn
          = processTerms CONFIG categoryAvgPrices ENV (S n) terms
              (fst (scrapeTerm CONFIG categoryAvgPrices (termEnv ENV n)
                      pastItems)) wn)
    /\ (forall n terms pastItems wn,
          exists wn' pastItems',
            processTerms CONFIG categoryAvgPrices ENV n terms pastItems wn
            = (wn', Returned pastItems'))
    /\ (forall v, exists v', loadPastItems v = (v', Returned (loadedSet v)))
    /\ (forall v, loadFails v ->
                  exists v', loadPastItems v = (v', Returned [])).
Proof.
  intros CONFIG cats ENV w Hl Hp Hc. conjuncts.
  - destruct (loadPastItems_returns w) as [w0 Hload].
    destruct (processTerms_returns CONFIG cats ENV (searchTerms CONFIG)
                0%nat (loadedSet w) w0)
      as (w1 & p1 & Hproc & [Hfile (during & Hj & Hd)]).
    destruct (savePastItems_returns p1 w1) as (w2 & Hsave & Hj2 & Hcont).
    exists w0, w1, w2, p1, during. conjuncts; auto.
    + unfold run, bind. rewrite Hload, Hl, Hp. simpl. unfold ret.
      rewrite Hproc, Hc. exact Hsave.
    + intro Hw. apply Hcont. rewrite Hfile.
      now rewrite (loadPastItems_keeps_flags _ _ _ Hload).
  - intros n term terms pastItems wn.
    destruct (processTerms_step CONFIG cats ENV n term terms pastItems wn)
      as (wn' & H1 & _ & H2).
    exists wn'. auto.
  - intros n term terms pastItems wn H.
    now apply processTerms_failed_term.
  - intros n terms pastItems wn.
    destruct (processTerms_returns CONFIG cats ENV terms n pastItems wn)
      as (wn' & p' & H & _).
    exists wn', p'. exact H.
  - intro v. apply loadPastItems_returns.
  - intros v Hv. destruct (loadPastItems_returns v) as [v' H].
    exists v'. now rewrite <- (loadFails_empty v Hv).
Qed.

Lemma run_survives_term_errors_witness :
  (exists w2,
      run twoTerms [] firstFails brokenStore = (w2, Returned tt)
      /\ content (pastItemsFile w2) = Some (IdList [IdString "42"])
      /\ List.length (filter isPastWrite (journal w2)) = 1%nat)
  /\ processTerms twoTerms [] firstFails 0 ["phone"; "lamp"] [] brokenStore
     = processTerms twoTerms [] firstFails 1 ["lamp"] [] brokenStore
  /\ (exists v', loadPastItems brokenStore = (v', Returned [])).
Proof.
  pose proof (run_survives_term_errors twoTerms [] firstFails brokenStore
                eq_refl eq_refl eq_refl) as (H1 & _ & H3 & _ & _ & H6).
  conjuncts.
  - destruct H1 as (w0 & w1 & w2 & p1 & during & Hload & Hproc & Hrun
                    & Hj1 & Hd & Hj2 & Hcont).
    exists w2. split; [exact Hrun|].
    vm_compute in Hload. inversion Hload. subst w0. clear Hload.
    vm_compute in Hproc. inversion Hproc. subst w1 p1. clear Hproc.
    split.
    + apply Hcont. reflexivity.
    + rewrite Hj2. rewrite filter_app. vm_compute. reflexivity.
  - apply (H3 0%nat "phone" ["lamp"] [] brokenStore). reflexivity.
  - apply H6. right. reflexivity.
Defined.


(** The end-to-end scenario of the specification: two runs that find the
    same listing.  The first run mails it to both recipients and stores its
    id; the second run adds nothing to the journal but its own save. *)
Example second_run_is_silent :
  exists w1 w2,
    run defaultConfig [] sameListingEveryRun freshWorld = (w1, Returned tt)
    /\ run defaultConfig [] sameListingEveryRun w1 = (w2, Returned tt)
    /\ List.length (filter isSendMail (journal w1)) = 2%nat
    /\ content (pastItemsFile w1) = Some (IdList [IdString "42"])
    /\ journal w2 = journal w1 ++ [WritePastItems (IdList [IdString "42"])].
Proof.
  eexists. eexists. split; [vm_compute; reflexivity|].
  split; [vm_compute; reflexivity|].
  conjuncts; vm_compute; reflexivity.
Qed.

(** ** Splitting a category name *)

Lemma reverseOnto_twice (a acc acc' : string) :
  reverseOnto (reverseOnto a acc) acc' = reverseOnto acc (a ++ acc').
Proof.
  revert acc. induction a as [|c a IH]; intro acc; simpl; auto.
Qed.

Lemma reverse_reverseOnto (a cur : string) :
  reverse (reverseOnto a cur) = (reverse cur ++ a)%string.
Proof.
  unfold reverse. rewrite reverseOnto_twice, append_empty.
  revert a. induction cur as [|c cur IH]; intro a; simpl; auto.
  rewrite IH. rewrite (IH (String c "")). now rewrite append_assoc.
Qed.

Lemma plain_append (a b : string) :
  plain (a ++ b) = plain a && plain b.
Proof. unfold plain. apply allChars_append. Qed.

Lemma plain_skipSpaces (s : string) :
  plain s = true -> plain (skipSpaces s) = true.
Proof.
  intro H. destruct (skipSpaces_suffix s) as (w & _ & Hs & _).
  rewrite Hs, plain_append in H. apply andb_true_iff in H. tauto.
Qed.

Lemma not_separator (c : ascii) :
  isSeparator c = false -> (code c =? 47)%N = false /\ (code c =? 62)%N = false.
Proof. unfold isSeparator. intro H. now apply orb_false_iff in H. Qed.


(** Two ways of cutting one string. *)
Lemma append_eq_cases (a r e r2 : string) :
  (a ++ r)%string = (e ++ r2)%string ->
  (exists t, a = (e ++ t)%string)
  \/ (exists t, t <> "" /\ e = (a ++ t)%string /\ r = (t ++ r2)%string).
Proof.
  revert e. induction a as [|c a IH]; intros e H.
  - destruct e as [|d e].
    + left. exists "". reflexivity.
    + right. exists (String d e). conjuncts; auto. discriminate.
  - destruct e as [|d e].
    + left. exists (String c a). reflexivity.
    + simpl in H. injection H as Hc H. subst d.
      destruct (IH e H) as [[t Ht]|(t & Hn & He & Hr)].
      * left. exists t. simpl. now rewrite Ht.
      * right. exists t. conjuncts; auto. simpl. now rewrite He.
Qed.

Lemma tails_append (a t : string) : a <> "" -> In t (tails (a ++ t)).
Proof.
  induction a as [|c a IH]; [congruence|]. intros _.
  destruct a as [|d a].
  - now left.
  - right. apply IH. discriminate.
Qed.

(** After its first byte a white space character has continuation bytes
    only. *)
Lemma whiteSpace_tail (cp : N) (a t : string) :
  In cp whiteSpace -> encodeUtf8 cp = (a ++ t)%string ->
  a <> "" -> t <> "" -> charStart t = false.
Proof.
  intros Hin E Ha Hne.
  pose proof (tails_append a t Ha) as Ht. rewrite <- E in Ht. clear E Ha.
  cbv [whiteSpace In] in Hin.
  repeat (destruct Hin as [<-|Hin];
          [vm_compute in Ht;
           repeat (destruct Ht as [<-|Ht]; [reflexivity || congruence|]);
           destruct Ht|]).
  destruct Hin.
Qed.

(** White space does not reach across the start of a character: when [a]
    is not made of white space only, the white space at the head of
    [a ++ r] is that at the head of [a]. *)
Lemma skipSpaces_append_ink (a r : string) :
  isBlank a = false -> charStart r = true ->
  skipSpaces (a ++ r) = (skipSpaces a ++ r)%string.
Proof.
  revert r. induction a as [a IH] using string_length_ind.
  intros r Ha Hr.
  destruct (spaceWidth a) as [|k] eqn:E.
  - rewrite (skipSpaces_fixed a E). apply skipSpaces_fixed.
    destruct (spaceWidth (a ++ r)) as [|k] eqn:E'; [reflexivity|].
    exfalso.
    destruct (spaceWidth_inv _ k E') as (cp & r2 & Hin & Hs & _).
    destruct (append_eq_cases a r _ r2 Hs) as [[t Ht]|(t & Hn & He & Hr2)].
    + rewrite Ht, (spaceWidth_char cp t Hin) in E.
      pose proof (encodeUtf8_nonempty cp) as Hne.
      destruct (encodeUtf8 cp); [congruence | discriminate E].
    + assert (Hane : a <> "") by (intro; subst a; discriminate Ha).
      pose proof (whiteSpace_tail cp a t Hin He Hane Hn) as Ht.
      rewrite Hr2 in Hr. destruct t; [congruence|].
      simpl in Hr, Ht. congruence.
  - destruct (spaceWidth_inv a k E) as (cp & a' & Hin & Hs & _). subst a.
    rewrite append_assoc, !skipSpaces_char by exact Hin.
    apply IH; auto using blank_shorter.
    unfold isBlank in *. now rewrite skipSpaces_char in Ha.
Qed.

Lemma separatorLength_ink (a r : string) :
  plain a = true -> isBlank a = false -> charStart r = true ->
  separatorLength (a ++ r) = None.
Proof.
  intros Hp Hi Hr. unfold separatorLength.
  rewrite (skipSpaces_append_ink a r Hi Hr).
  apply plain_skipSpaces in Hp.
  unfold isBlank in Hi.
  destruct (skipSpaces a) as [|c a']; [discriminate Hi|].
  unfold plain in Hp. simpl in Hp. apply andb_true_iff in Hp.
  destruct Hp as [Hs _]. apply negb_true_iff in Hs.
  apply not_separator in Hs. destruct Hs as [H1 H2].
  simpl. now rewrite H1, H2.
Qed.

(** A string of white space followed by a byte of the ASCII range starts
    at the start of a character. *)
Lemma charStart_blank (w : string) (c : ascii) (r : string) :
  isBlank w = true -> (code c <? 128)%N = true ->
  charStart (w ++ String c r) = true.
Proof.
  intros Hw Hc.
  destruct (blank_cases w Hw) as [->|(cp & w' & Hin & -> & _)].
  - simpl. unfold continuation.
    apply N.ltb_lt in Hc.
    destruct (128 <=? code c)%N eqn:E; [apply N.leb_le in E; lia|].
    reflexivity.
  - clear - Hin. cbv [whiteSpace In] in Hin.
    repeat (destruct Hin as [<-|Hin]; [reflexivity|]). destruct Hin.
Qed.


(** White space followed by [>] is one separator; what follows [>] is
    not part of it. *)
Lemma separatorLength_gt (w1 b : string) :
  isBlank w1 = true -> w1 <> "" ->
  separatorLength ((w1 ++ ">") ++ b)
  = Some (String.length (w1 ++ ">")).
Proof.
  intros H1 Hn. unfold separatorLength.
  rewrite !append_assoc.
  rewrite (skipSpaces_blank_append _ _ H1).
  change (skipSpaces (">" ++ b)) with (String ">" b).
  cbv iota. change (code ">" =? 47)%N with false.
  change (code ">" =? 62)%N with true. cbv iota.
  rewrite !length_append. cbn [String.length]. rewrite ?length_append.
  cbn [String.length].
  destruct w1 as [|x w1]; [congruence|]. cbn [String.length].
  replace (S (String.length w1) + (1 + String.length b)
           - S (String.length b))%nat
    with (S (String.length w1)) by lia.
  cbv iota. f_equal.
Qed.

Lemma splitLoop_skip (x rest cur : string) :
  splitLoop (String.length x) cur (x ++ rest) = splitLoop O cur rest.
Proof. induction x as [|c x IH]; simpl; auto. Qed.

Lemma splitLoop_separator (sep b cur : string) :
  sep <> "" ->
  separatorLength (sep ++ b) = Some (String.length sep) ->
  splitLoop O cur (sep ++ b) = reverse cur :: splitLoop O "" b.
Proof.
  intros Hn H. destruct sep as [|x sep]; [congruence|].
  change (String x sep ++ b)%string with (String x (sep ++ b)) in *.
  cbn [splitLoop]. rewrite H. cbn [String.length].
  now rewrite splitLoop_skip.
Qed.


Lemma splitLoop_piece (a sep b cur : string) :
  plain a = true ->
  endsWithSpace a = false ->
  sep <> "" ->
  charStart (sep ++ b) = true ->
  separatorLength (sep ++ b) = Some (String.length sep) ->
  splitLoop O cur (a ++ sep ++ b)
  = reverse (reverseOnto a cur) :: splitLoop O "" b.
Proof.
  intros Hp He Hn Hc Hs. revert cur Hp He.
  induction a as [|c a IH]; intros cur Hp He.
  - exact (splitLoop_separator sep b cur Hn Hs).
  - cbn [endsWithSpace] in He. apply orb_false_iff in He.
    destruct He as [Hink He].
    pose proof (separatorLength_ink _ (sep ++ b) Hp Hink Hc) as Hnone.
    change (String c a ++ sep ++ b)%string
      with (String c (a ++ sep ++ b)) in *.
    cbn [splitLoop]. rewrite Hnone. cbn [reverseOnto]. apply IH.
    + unfold plain in *. simpl in Hp. apply andb_true_iff in Hp. tauto.
    + exact He.
Qed.



(** A [>] ends a token only when white space comes before it, and the
    next token starts right after the [>]. *)
Lemma splitCategory_gt (a w1 b : string) :
  plain a = true ->
  endsWithSpace a = false ->
  isBlank w1 = true ->
  w1 <> "" ->
  splitCategory (a ++ w1 ++ ">" ++ b) = a :: splitCategory b.
Proof.
  intros Hp He H1 Hn. unfold splitCategory.
  replace (a ++ w1 ++ ">" ++ b)%string
    with (a ++ (w1 ++ ">") ++ b)%string
    by now rewrite !append_assoc.
  rewrite splitLoop_piece; auto.
  - now rewrite reverse_reverseOnto.
  - destruct w1; [congruence | discriminate].
  - rewrite append_assoc. now apply charStart_blank.
  - now apply separatorLength_gt.
Qed.

(** ** The estimator *)

Lemma grid_pos : 0 < grid.
Proof. unfold grid. apply Z.pow_pos_nonneg; lia. Qed.





Section EstimateFacts.

Variable CONFIG : Config.
Variable categoryAvgPrices : CategoryAvgPrices.
Hypothesis enabled : priceEstimationEnabled CONFIG = true.








End EstimateFacts.


(** ** Claims about the estimator *)





(** * Further properties *)

(** ** The seen-id set along the loop *)

Lemma has_In (s : IdSet) (i : JsId) : has s i = true <-> In i s.
Proof.
  unfold has. rewrite existsb_exists. split.
  - intros (x & Hin & Hx). apply JsId_eqb_eq in Hx. now subst.
  - intro H. exists i. split; auto. apply JsId_eqb_refl.
Qed.

Lemma has_false_not_In (s : IdSet) (i : JsId) : has s i = false -> ~ In i s.
Proof. intros H Hin. apply has_In in Hin. congruence. Qed.

Section GrowthFacts.

Variable CONFIG : Config.

Lemma fold_filterStep_grows (edges : list Edge) :
  forall (pastItems : IdSet) (items : list Item),
  exists ids new,
    fold_left (filterStep CONFIG) edges (pastItems, items)
    = (pastItems ++ ids, items ++ new)
    /\ map link new = map itemLink ids
    /\ (forall i, In i ids -> has pastItems i = false)
    /\ NoDup ids.
Proof.
  induction edges as [|e edges IH]; intros P items.
  - exists [], []. rewrite !app_nil_r. repeat split; auto.
    + intros i [].
    + constructor.
  - simpl. unfold filterStep at 2. simpl fst. simpl snd.
    destruct (examine CONFIG P e) as [s|[i item]] eqn:E.
    + apply IH.
    + apply examine_accepts in E.
      destruct E as (l & He & Hi & Hs & Hr & Hitem). subst i.
      rewrite (add_fresh _ _ Hs).
      destruct (IH (P ++ [id l]) (items ++ [item]))
        as (ids & new & Hfold & Hlinks & Hfresh & Hnd).
      exists (id l :: ids), (item :: new).
      rewrite Hfold, <- !app_assoc. simpl. conjuncts; auto.
      * rewrite Hlinks. now rewrite Hitem.
      * intros i [Hi|Hi]; [now subst|].
        specialize (Hfresh i Hi). rewrite has_app in Hfresh.
        now apply orb_false_iff in Hfresh.
      * constructor; auto. intro Hin. specialize (Hfresh _ Hin).
        rewrite has_app in Hfresh. apply orb_false_iff in Hfresh.
        destruct Hfresh as [_ Hf]. simpl in Hf.
        now rewrite JsId_eqb_refl in Hf.
Qed.

Lemma examine_stays_skipped (pastItems later : IdSet) (val : Edge) (s : Skip) :
  examine CONFIG pastItems val = inl s ->
  (forall i, has pastItems i = true -> has later i = true) ->
  exists s', examine CONFIG later val = inl s'.
Proof.
  unfold examine. destruct val as [[[l|]]|]; simpl; eauto.
  intros H Hsub. destruct (has later (id l)) eqn:Hl; eauto.
  destruct (has pastItems (id l)) eqn:Hp.
  - rewrite (Hsub _ Hp) in Hl. discriminate.
  - destruct (filterRules CONFIG _ _); [eauto | discriminate].
Qed.

(** Once the loop has gone over a feed, every record of that feed is
    skipped on any set that holds what the loop left. *)
Lemma met_records_are_skipped (edges : list Edge) :
  forall (st : IdSet * list Item) (later : IdSet) (val : Edge),
    In val edges ->
    (forall i, has (fst (fold_left (filterStep CONFIG) edges st)) i = true ->
               has later i = true) ->
    exists s, examine CONFIG later val = inl s.
Proof.
  induction edges as [|e edges IH]; intros st later val Hin Hsub; [easy|].
  simpl in Hsub. destruct Hin as [He|Hin].
  - subst e.
    destruct (examine CONFIG (fst st) val) as [s|it] eqn:E.
    + apply examine_stays_skipped with (pastItems := fst st) (s := s); auto.
      intros i Hi. apply Hsub. apply fold_filterStep_mono.
      now apply filterStep_mono.
    + destruct it as [i item]. pose proof E as E'.
      apply examine_accepts in E'. destruct E' as (l & Hv & _). subst val.
      exists AlreadySeen. apply examine_seen. apply Hsub.
      apply fold_filterStep_mono.
      apply filterStep_marks with (it := (i, item)). exact E.
  - apply (IH (filterStep CONFIG st e)); auto.
Qed.

Lemma fold_filterStep_all_skipped (edges : list Edge)
      (st : IdSet * list Item) :
  (forall val, In val edges -> exists s, examine CONFIG (fst st) val = inl s) ->
  fold_left (filterStep CONFIG) edges st = st.
Proof.
  induction edges as [|e edges IH]; intro H; simpl; auto.
  destruct (H e (or_introl eq_refl)) as [s Hs].
  rewrite (filterStep_skip CONFIG st e s Hs). apply IH.
  intros val Hin. apply H. now right.
Qed.

End GrowthFacts.

(** X1.  The loop of [scrapeTerm] only appends to the seen-id set, and what
    it appends are the ids of the items it emits, one per item and in the
    same order, none of which was in the set before or occurs twice; a set
    without duplicates stays without duplicates. *)
Theorem loop_appends_ids_of_emitted_items :
  forall (CONFIG : Config) (pastItems : IdSet) (edges : list Edge),
  exists ids,
    fst (filterEdges CONFIG pastItems edges) = pastItems ++ ids
    /\ map link (snd (filterEdges CONFIG pastItems edges)) = map itemLink ids
    /\ List.length (snd (filterEdges CONFIG pastItems edges))
       = List.length ids
    /\ (forall i, In i ids -> has pastItems i = false)
    /\ NoDup ids
    /\ (NoDup pastItems -> NoDup (fst (filterEdges CONFIG pastItems edges))).
Proof.
  intros CONFIG P edges. unfold filterEdges.
  destruct (fold_filterStep_grows CONFIG edges P [])
    as (ids & new & Hfold & Hlinks & Hfresh & Hnd).
  exists ids. rewrite Hfold. simpl. conjuncts; auto.
  - rewrite <- (length_map link), Hlinks. apply length_map.
  - intro HP. apply NoDup_app; auto.
    intros i Hi Hin. apply has_In in Hi.
    specialize (Hfresh i Hin). congruence.
Qed.

Lemma loop_appends_ids_of_emitted_items_witness :
  exists ids,
    fst (filterEdges defaultConfig [IdString "0"]
           [edgeOf listing42; edgeOf (priced "$3"); edgeOf listing42])
    = [IdString "0"] ++ ids
    /\ NoDup (fst (filterEdges defaultConfig [IdString "0"]
                     [edgeOf listing42; edgeOf (priced "$3");
                      edgeOf listing42])).
Proof.
  destruct (loop_appends_ids_of_emitted_items defaultConfig [IdString "0"]
              [edgeOf listing42; edgeOf (priced "$3"); edgeOf listing42])
    as (ids & H1 & _ & _ & _ & _ & H6).
  exists ids. split; [exact H1|]. apply H6.
  constructor; [intros [] | constructor].
Defined.

(** X2.  Scraping is idempotent in a fixed configuration: on the set the
    loop leaves after a feed, and on any larger set, a feed made of records
    of that feed emits nothing and changes nothing. *)
Theorem rescraping_emits_nothing :
  forall (CONFIG : Config) (pastItems later : IdSet)
         (edges again : list Edge),
    (forall val, In val again -> In val edges) ->
    (forall i, has (fst (filterEdges CONFIG pastItems edges)) i = true ->
               has later i = true) ->
    filterEdges CONFIG later again = (later, []).
Proof.
  intros CONFIG P later edges again Hincl Hsub. unfold filterEdges.
  apply fold_filterStep_all_skipped. intros val Hin. simpl.
  apply (met_records_are_skipped CONFIG edges (P, []) later val); auto.
Qed.

Lemma rescraping_emits_nothing_witness :
  filterEdges (excludeBroken true)
    (fst (filterEdges (excludeBroken true) []
            [edgeOf listing42; edgeOf (brokenPhone "Free")]))
    [edgeOf (brokenPhone "Free"); edgeOf listing42]
  = (fst (filterEdges (excludeBroken true) []
            [edgeOf listing42; edgeOf (brokenPhone "Free")]), []).
Proof.
  apply (rescraping_emits_nothing (excludeBroken true) []
           (fst (filterEdges (excludeBroken true) []
                   [edgeOf listing42; edgeOf (brokenPhone "Free")]))
           [edgeOf listing42; edgeOf (brokenPhone "Free")]
           [edgeOf (brokenPhone "Free"); edgeOf listing42]).
  - intros val [H|[H|[]]]; subst val; simpl; auto.
  - auto.
Defined.


(** ** The enhanced loop and the loops it extends *)

Lemma filterRules_without_keywords (CONFIG : Config) (lowerTitle : string)
      (np : number) :
  qualityIncludeKeywords CONFIG = [] ->
  qualityExcludeKeywords CONFIG = [] ->
  filterRules CONFIG lowerTitle np = priceRules CONFIG np.
Proof.
  intros Hi He. unfold filterRules, priceRules. rewrite Hi, He. simpl.
  now rewrite !andb_false_r.
Qed.

Lemma basicExamine_examine (CONFIG : Config) (pastItems : IdSet)
      (val : Edge) :
  qualityIncludeKeywords CONFIG = [] ->
  qualityExcludeKeywords CONFIG = [] ->
  basicExamine CONFIG pastItems val
  = match examine CONFIG pastItems val with
    | inl s => inl s
    | inr (i, item) => inr (i, toBasic item)
    end.
Proof.
  intros Hi He. unfold basicExamine, examine.
  destruct val as [[[l|]]|]; simpl; auto.
  destruct (has pastItems (id l)); auto.
  rewrite (filterRules_without_keywords CONFIG _ _ Hi He).
  now destruct (priceRules CONFIG (numericPrice (listingPrice l))).
Qed.

Lemma basic_fold (CONFIG : Config) (edges : list Edge) :
  qualityIncludeKeywords CONFIG = [] ->
  qualityExcludeKeywords CONFIG = [] ->
  forall (pastItems : IdSet) (items : list Item),
    fold_left (basicStep CONFIG) edges (pastItems, map toBasic items)
    = (fst (fold_left (filterStep CONFIG) edges (pastItems, items)),
       map toBasic (snd (fold_left (filterStep CONFIG) edges
                           (pastItems, items)))).
Proof.
  intros Hi He. induction edges as [|e edges IH]; intros P items; auto.
  simpl. unfold basicStep at 2, filterStep at 2 4. simpl fst. simpl snd.
  rewrite (basicExamine_examine CONFIG P e Hi He).
  destruct (examine CONFIG P e) as [s|[i item]].
  - apply IH.
  - rewrite <- IH. now rewrite map_app.
Qed.

(** X3.  With both keyword lists empty the enhanced notifier filters like
    the basic one: the two loops leave the same seen-id set and emit the
    same titles, prices and links in the same order. *)
Theorem enhanced_loop_extends_basic_loop :
  forall (CONFIG : Config) (pastItems : IdSet) (edges : list Edge),
    qualityIncludeKeywords CONFIG = [] ->
    qualityExcludeKeywords CONFIG = [] ->
    basicEdges CONFIG pastItems edges
    = (fst (filterEdges CONFIG pastItems edges),
       map toBasic (snd (filterEdges CONFIG pastItems edges))).
Proof.
  intros CONFIG P edges Hi He. unfold basicEdges, filterEdges.
  apply (basic_fold CONFIG edges Hi He P []).
Qed.

Lemma enhanced_loop_extends_basic_loop_witness :
  basicEdges tenToTwenty [IdString "0"]
    [edgeOf (priced "$12"); edgeOf (priced "$30")]
  = (fst (filterEdges tenToTwenty [IdString "0"]
            [edgeOf (priced "$12"); edgeOf (priced "$30")]),
     map toBasic (snd (filterEdges tenToTwenty [IdString "0"]
                         [edgeOf (priced "$12"); edgeOf (priced "$30")]))).
Proof.
  apply (enhanced_loop_extends_basic_loop tenToTwenty [IdString "0"]
           [edgeOf (priced "$12"); edgeOf (priced "$30")]); reflexivity.
Defined.

(** ** The sign of a price *)

Lemma rne_nonneg (p q : Z) : 0 <= p -> 0 < q -> 0 <= rne p q.
Proof.
  intros Hp Hq. unfold rne.
  pose proof (Z.div_pos p q Hp Hq).
  destruct (2 * (p mod q) ?= q); [destruct (Z.even (p / q))| |]; lia.
Qed.

Lemma rne_zero (q : Z) : 0 < q -> rne 0 q = 0.
Proof.
  intro Hq. unfold rne. rewrite Z.div_0_l, Z.mod_0_l by lia.
  change (2 * 0) with 0. now destruct (Z.compare_spec 0 q); try lia.
Qed.

Lemma round64_nonneg (p q : Z) :
  0 <= p -> 0 < q ->
  round64 p q = PosInfinity \/ exists k, 0 <= k /\ round64 p q = Finite k.
Proof.
  intros Hp Hq. unfold round64.
  pose proof grid_pos as Hg.
  set (j := Z.max 0 (Z.log2 (Z.abs (p * grid) / q) - 52)).
  assert (Hj : 0 < 2 ^ j) by (apply Z.pow_pos_nonneg; lia).
  assert (Hk : 0 <= rne (p * grid) (q * 2 ^ j) * 2 ^ j).
  { apply Z.mul_nonneg_nonneg; [|lia]. apply rne_nonneg; nia. }
  destruct (2 ^ 2098 <=? Z.abs (rne (p * grid) (q * 2 ^ j) * 2 ^ j)) eqn:E.
  - left. destruct (Z.ltb_spec 0 p); auto.
    assert (p = 0) by lia. subst p. exfalso.
    apply Z.leb_le in E. change (0 * grid) with 0 in E.
    rewrite rne_zero in E by nia. change (Z.abs (0 * 2 ^ j)) with 0 in E.
    assert (H2 : 0 < 2 ^ 2098) by (apply Z.pow_pos_nonneg; lia).
    lia.
  - right. eauto.
Qed.

Lemma spanDigits_nonneg (s : string) :
  forall (acc : Z) (n : nat),
    0 <= acc -> 0 <= fst (fst (spanDigits acc n s)).
Proof.
  induction s as [|c s IH]; intros acc n Ha; cbn [spanDigits]; auto.
  destruct (isDigit c); auto. apply IH.
  pose proof (N2Z.is_nonneg (code c - 48)). lia.
Qed.

Lemma parseFloat_nonneg (s : string) :
  parseFloat s = NaN \/ parseFloat s = PosInfinity
  \/ exists k, 0 <= k /\ parseFloat s = Finite k.
Proof.
  unfold parseFloat.
  pose proof (spanDigits_nonneg s 0 O ltac:(lia)) as H1.
  destruct (spanDigits 0 0 s) as [[ip ni] r]. simpl in H1.
  assert (Hint : match ni with
                 | O => NaN
                 | S _ => round64 ip 1
                 end = NaN
                 \/ match ni with
                    | O => NaN
                    | S _ => round64 ip 1
                    end = PosInfinity
                 \/ exists k, 0 <= k
                              /\ match ni with
                                 | O => NaN
                                 | S _ => round64 ip 1
                                 end = Finite k).
  { destruct ni; auto. right. apply round64_nonneg; lia. }
  destruct r as [|c r']; auto.
  destruct (code c =? 46)%N; auto.
  pose proof (spanDigits_nonneg r' ip O H1) as H2.
  destruct (spanDigits ip 0 r') as [[v nf] rest]. simpl in H2.
  assert (Hq : 0 < 10 ^ Z.of_nat nf) by (apply Z.pow_pos_nonneg; lia).
  destruct ni; destruct nf; auto; right; apply round64_nonneg; auto.
Qed.

(** X4.  The numeric price of a price text is never negative (and never
    NaN): it is [Infinity] or a non-negative number.  So a lower bound
    that is zero or negative rejects no listing. *)
Theorem numeric_price_is_not_negative :
  forall priceText : string,
    (numericPrice priceText = PosInfinity
     \/ exists k, 0 <= k /\ numericPrice priceText = Finite k)
    /\ ltb (numericPrice priceText) zero = false
    /\ (forall CONFIG lowerTitle lo,
          minPrice CONFIG = Some lo ->
          gtb lo zero = false ->
          filterRules CONFIG lowerTitle (numericPrice priceText)
          <> Some BelowMin).
Proof.
  intro priceText.
  assert (H : numericPrice priceText = PosInfinity
              \/ exists k, 0 <= k /\ numericPrice priceText = Finite k).
  { unfold numericPrice.
    destruct (String.length (stripNonNumeric priceText) =? 0)%nat.
    - right. exists 0. split; [lia | reflexivity].
    - destruct (parseFloat_nonneg (stripNonNumeric priceText))
        as [E|[E|(k & Hk & E)]]; rewrite E; simpl; eauto.
      right. exists 0. split; [lia | reflexivity]. }
  split; [exact H|]. split.
  - destruct H as [E|(k & Hk & E)]; rewrite E; simpl; auto.
    apply Z.ltb_ge. exact Hk.
  - intros CONFIG lowerTitle lo Hlo Hz Hr.
    assert (Hl : ltb (numericPrice priceText) lo = false).
    { destruct H as [E|(k & Hk & E)]; rewrite E.
      - now destruct lo.
      - destruct lo as [| | |l]; simpl in *; auto.
        apply Z.ltb_ge. apply Z.ltb_ge in Hz. lia. }
    unfold filterRules in Hr. rewrite Hlo, Hl in Hr.
    repeat match type of Hr with
           | context [if ?b then _ else _] => destruct b
           end; discriminate.
Qed.

Lemma numeric_price_is_not_negative_witness :
  filterRules (withPrices defaultConfig (Some zero) None true) "lamp"
    (numericPrice "Free") <> Some BelowMin.
Proof.
  destruct (numeric_price_is_not_negative "Free") as (_ & _ & H).
  apply (H (withPrices defaultConfig (Some zero) None true) "lamp" zero);
    reflexivity.
Defined.


(** ** The seen-id file *)

Lemma fold_add_fresh (l : list JsId) :
  forall s : IdSet,
    NoDup l -> (forall i, In i l -> has s i = false) ->
    fold_left add l s = s ++ l.
Proof.
  induction l as [|x l IH]; intros s Hnd Hf; simpl.
  - now rewrite app_nil_r.
  - inversion Hnd as [|x' l' Hx Hl]. subst.
    rewrite (add_fresh s x (Hf x (or_introl eq_refl))).
    rewrite IH; auto.
    + now rewrite <- app_assoc.
    + intros i Hi. rewrite has_app, (Hf i (or_intror Hi)). simpl.
      rewrite orb_false_r. destruct (JsId_eqb i x) eqn:E; auto.
      apply JsId_eqb_eq in E. subst. contradiction.
Qed.

Lemma newSet_NoDup (l : list JsId) : NoDup l -> newSet l = l.
Proof.
  intro H. unfold newSet. rewrite fold_add_fresh; auto.
Qed.

Lemma toJson_defined (set : IdSet) :
  has set IdUndefined = false -> map toJson set = set.
Proof.
  induction set as [|x set IH]; simpl; auto.
  intro H. apply orb_false_iff in H. destruct H as [Hx Hs].
  rewrite IH; auto. now destruct x.
Qed.

Lemma fold_add_NoDup (l : list JsId) :
  forall s : IdSet, NoDup s -> NoDup (fold_left add l s).
Proof.
  induction l as [|x l IH]; intros s Hs; simpl; auto.
  apply IH. unfold add. destruct (has s x) eqn:E; auto.
  apply NoDup_app; auto.
  - constructor; [intros [] | constructor].
  - intros i Hi [Hx|[]]. subst. apply has_In in Hi. congruence.
Qed.

(** X5.  Saving a set and loading it again gives the same set, ids in the
    same order, when the set has no duplicates and [undefined] is not in
    it and the file can be written and read.  What [loadPastItems]
    returns never has duplicates. *)
Theorem saved_set_is_reloaded :
  forall (set : IdSet) (w : World),
    (NoDup set ->
     has set IdUndefined = false ->
     writable (pastItemsFile w) = true ->
     readable (pastItemsFile w) = true ->
     exists w1,
       savePastItems set w = (w1, Returned tt)
       /\ loadPastItems w1 = (w1, Returned set))
    /\ (forall w' loaded,
          loadPastItems w = (w', Returned loaded) -> NoDup loaded).
Proof.
  intros set w. split.
  - intros Hnd Hu Hw Hr. eexists. split.
    + now apply savePastItems_writable.
    + rewrite (loadPastItems_list _ (map toJson set)); simpl; auto.
      now rewrite (toJson_defined set Hu), (newSet_NoDup set Hnd).
  - intros w' loaded H.
    destruct (loadPastItems_returns w) as [w'' H'].
    rewrite H in H'. inversion H'. subst.
    unfold loadedSet.
    destruct (content (pastItemsFile w)) as [[| |ids]|]; try constructor.
    destruct (readable (pastItemsFile w)); [|constructor].
    unfold newSet. apply fold_add_NoDup. constructor.
Qed.

Lemma saved_set_is_reloaded_witness :
  (exists w1,
      savePastItems [IdString "42"; IdNull; IdString "7"] freshWorld
      = (w1, Returned tt)
      /\ loadPastItems w1 = (w1, Returned [IdString "42"; IdNull; IdString "7"]))
  /\ NoDup (loadedSet brokenStore).
Proof.
  destruct (saved_set_is_reloaded [IdString "42"; IdNull; IdString "7"]
              freshWorld) as [H1 _].
  destruct (saved_set_is_reloaded [] brokenStore) as [_ H2].
  split.
  - apply H1; try reflexivity.
    repeat constructor; simpl; intuition discriminate.
  - apply (H2 brokenStore). reflexivity.
Defined.

(** X6.  A listing without id is never remembered across runs: whatever
    set is saved, the set loaded from the file does not hold [undefined]
    (it is written as [null]), so after a reload such a listing is emitted
    again whenever the keyword and price rules pass. *)
Theorem missing_id_is_forgotten_on_reload :
  forall (set : IdSet) (w : World) (CONFIG : Config) (l : RawListing),
    writable (pastItemsFile w) = true ->
    readable (pastItemsFile w) = true ->
    id l = IdUndefined ->
    filterRules CONFIG (toLowerCase (listingTitle l))
      (numericPrice (listingPrice l)) = None ->
    exists w1 reloaded item,
      savePastItems set w = (w1, Returned tt)
      /\ loadPastItems w1 = (w1, Returned reloaded)
      /\ has reloaded IdUndefined = false
      /\ (has set IdUndefined = true -> has reloaded IdNull = true)
      /\ examine CONFIG reloaded (edgeOf l) = inr (IdUndefined, item)
      /\ link item = "https://www.facebook.com/marketplace/item/undefined".
Proof.
  intros set w CONFIG l Hw Hr Hid Hrules.
  assert (Hno : has (newSet (map toJson set)) IdUndefined = false).
  { rewrite has_newSet. induction set as [|x set IH]; simpl; auto.
    rewrite IH. now destruct x. }
  eexists. exists (newSet (map toJson set)). eexists. conjuncts.
  - now apply savePastItems_writable.
  - apply loadPastItems_list; simpl; auto.
  - exact Hno.
  - intro Hu. rewrite has_newSet. clear Hno.
    induction set as [|x set IH]; simpl in *; [discriminate|].
    apply orb_true_iff in Hu. destruct Hu as [Hx|Hs].
    + destruct x; try discriminate. reflexivity.
    + rewrite (IH Hs). apply orb_true_r.
  - rewrite examine_fresh by now rewrite Hid.
    rewrite Hrules, Hid. reflexivity.
  - reflexivity.
Qed.

Lemma missing_id_is_forgotten_on_reload_witness :
  exists w1 reloaded item,
    savePastItems [IdUndefined] freshWorld = (w1, Returned tt)
    /\ loadPastItems w1 = (w1, Returned reloaded)
    /\ examine defaultConfig reloaded (edgeOf withoutId)
       = inr (IdUndefined, item).
Proof.
  destruct (missing_id_is_forgotten_on_reload [IdUndefined] freshWorld
              defaultConfig withoutId eq_refl eq_refl eq_refl eq_refl)
    as (w1 & reloaded & item & H1 & H2 & _ & _ & H5 & _).
  exists w1, reloaded, item. auto.
Defined.

(** X7.  The persistence helpers fail soft.  [loadPastItems] creates a
    missing file with the empty list and returns the empty set, and it
    never writes a file that exists; [savePastItems] on a file that cannot
    be written returns normally and leaves the file as it was. *)
Theorem persistence_fails_soft :
  forall (w : World) (set : IdSet),
    (content (pastItemsFile w) = None ->
     writable (pastItemsFile w) = true ->
     loadPastItems w
     = ({| pastItemsFile := store (pastItemsFile w) (IdList []);
           bufferFile := bufferFile w;
           journal := journal w ++ [WritePastItems (IdList [])] |},
        Returned []))
    /\ (content (pastItemsFile w) = None ->
        writable (pastItemsFile w) = false ->
        exists w', loadPastItems w = (w', Returned [])
                   /\ pastItemsFile w' = pastItemsFile w)
    /\ (content (pastItemsFile w) <> None ->
        loadPastItems w = (w, Returned (loadedSet w)))
    /\ (writable (pastItemsFile w) = false ->
        exists w', savePastItems set w = (w', Returned tt)
                   /\ pastItemsFile w' = pastItemsFile w
                   /\ bufferFile w' = bufferFile w).
Proof.
  intros w set. destruct w as [[c r wr] bf j]. simpl. conjuncts.
  - intros Hc Hw. subst.
    unfold loadPastItems, tryCatch, bind, existsPastItems, readPastItems,
      writePastItems, bind, record, setPastItemsFile, ret, throw. simpl.
    now destruct r.
  - intros Hc Hw. subst.
    unfold loadPastItems, tryCatch, bind, existsPastItems, readPastItems,
      writePastItems, bind, record, setPastItemsFile, ret, throw. simpl.
    eexists. split; reflexivity.
  - intro Hc. destruct c as [d|]; [|congruence].
    unfold loadPastItems, loadedSet, tryCatch, bind, existsPastItems,
      readPastItems, ret, throw. simpl.
    destruct r; destruct d; reflexivity.
  - intro Hw. subst.
    unfold savePastItems, tryCatch, writePastItems, bind, record, ret. simpl.
    eexists. conjuncts; reflexivity.
Qed.

Lemma persistence_fails_soft_witness :
  loadPastItems freshWorld
  = ({| pastItemsFile := store (pastItemsFile freshWorld) (IdList []);
        bufferFile := bufferFile freshWorld;
        journal := journal freshWorld ++ [WritePastItems (IdList [])] |},
     Returned [])
  /\ loadPastItems brokenStore = (brokenStore, Returned (loadedSet brokenStore)).
Proof.
  destruct (persistence_fails_soft freshWorld []) as (H1 & _).
  destruct (persistence_fails_soft brokenStore []) as (_ & _ & H3 & _).
  split.
  - apply H1; reflexivity.
  - apply H3. discriminate.
Defined.


(** ** The buffer between calls of [notify] *)

Lemma store_store {A : Type} (f : File A) (a b : A) :
  store (store f a) b = store f b.
Proof. reflexivity. Qed.

Lemma store_same {A : Type} (f : File A) (a : A) :
  content f = Some a -> store f a = f.
Proof. destruct f as [c r w]. simpl. intro H. now subst. Qed.

Lemma notifyEach_outside (CONFIG : Config) (calls : list NotifyCall) :
  (forall c, In c calls ->
             snd c <> []
             /\ withinWindow CONFIG (nowHour (fst (fst c))) = false) ->
  forall (w : World) (old : string),
    content (bufferFile w) = Some old ->
    writable (bufferFile w) = true ->
    notifyEach CONFIG calls w
    = ({| pastItemsFile := pastItemsFile w;
          bufferFile :=
            store (bufferFile w)
              (old ++ String.concat "" (map callBlock calls))%string;
          journal := journal w ++ map (fun c => AppendBuffer (callBlock c)) calls |},
       Returned tt).
Proof.
  induction calls as [|c calls IH]; intros Hall w old Hc Hw.
  - simpl. unfold ret. rewrite append_empty, app_nil_r.
    rewrite (store_same _ _ Hc). now destruct w.
  - destruct (Hall c (or_introl eq_refl)) as [Hi Ho].
    unfold notifyEach. cbn [forEach]. unfold bind.
    rewrite (notify_outside CONFIG _ _ _ w Hi Ho Hw). rewrite Hc.
    fold (notifyEach CONFIG calls). fold (callBlock c).
    set (w1 := {| pastItemsFile := pastItemsFile w;
                  bufferFile :=
                    store (bufferFile w) (old ++ callBlock c)%string;
                  journal := journal w ++ [AppendBuffer (callBlock c)] |}).
    assert (Hc1 : content (bufferFile w1) = Some (old ++ callBlock c)%string)
      by reflexivity.
    assert (Hw1 : writable (bufferFile w1) = true) by exact Hw.
    rewrite (IH (fun c' H => Hall c' (or_intror H)) w1 _ Hc1 Hw1).
    subst w1. cbn [pastItemsFile bufferFile journal]. rewrite store_store.
    rewrite <- app_assoc. cbn [map app].
    replace (String.concat "" (callBlock c :: map callBlock calls))
      with (callBlock c ++ String.concat "" (map callBlock calls))%string.
    + now rewrite append_assoc.
    + destruct calls; simpl; [now rewrite append_empty | reflexivity].
Qed.

Lemma concat_includes (blocks : list string) (b : string) :
  In b blocks ->
  exists x y, String.concat "" blocks = (x ++ b ++ y)%string.
Proof.
  induction blocks as [|a blocks IH]; [easy|]. intros [H|H].
  - subst a. exists "". destruct blocks as [|a' blocks'].
    + exists "". simpl. now rewrite append_empty.
    + exists (String.concat "" (a' :: blocks')). reflexivity.
  - destruct (IH H) as (x & y & E). destruct blocks as [|a' blocks']; [easy|].
    exists (a ++ x)%string, y.
    change (String.concat "" (a :: a' :: blocks'))
      with (a ++ "" ++ String.concat "" (a' :: blocks'))%string.
    rewrite E. simpl. now rewrite append_assoc.
Qed.

(** X8.  Notifications made outside the active window pile up in the
    buffer file in the order of the calls and none of them sends a mail;
    the first call inside the window then sends, to each recipient, one
    mail whose text holds every buffered block, and empties the file. *)
Theorem buffer_accumulates_until_flushed :
  forall (CONFIG : Config) (calls : list NotifyCall) (env : TermEnv)
         (term : string) (items : list Item) (w : World) (old : string),
    (forall c, In c calls ->
               snd c <> []
               /\ withinWindow CONFIG (nowHour (fst (fst c))) = false) ->
    calls <> [] ->
    items <> [] ->
    withinWindow CONFIG (nowHour env) = true ->
    content (bufferFile w) = Some old ->
    readable (bufferFile w) = true ->
    writable (bufferFile w) = true ->
    exists w1 w2,
      notifyEach CONFIG calls w = (w1, Returned tt)
      /\ content (bufferFile w1)
         = Some (old ++ String.concat "" (map callBlock calls))%string
      /\ journal w1
         = journal w ++ map (fun c => AppendBuffer (callBlock c)) calls
      /\ notify CONFIG env term items w1 = (w2, Returned tt)
      /\ content (bufferFile w2) = Some ""
      /\ mailCount w2 = (mailCount w + List.length (email_recipients CONFIG))%nat
      /\ (forall e c, In (SendMail e) (journal w2) ->
                      ~ In (SendMail e) (journal w) ->
                      In c calls -> includes (text e) (callBlock c) = true).
Proof.
  intros CONFIG calls env term items w old Hall Hne Hi Hin Hc Hr Hw.
  pose proof (notifyEach_outside CONFIG calls Hall w old Hc Hw) as H1.
  set (held := (old ++ String.concat "" (map callBlock calls))%string) in *.
  set (w1 := {| pastItemsFile := pastItemsFile w;
                bufferFile := store (bufferFile w) held;
                journal := journal w
                           ++ map (fun c => AppendBuffer (callBlock c)) calls |})
    in *.
  assert (Hink : allChars spaceByte held = false).
  { subst held. rewrite allChars_append.
    destruct calls as [|c calls]; [congruence|].
    replace (String.concat "" (map callBlock (c :: calls)))
      with (callBlock c ++ String.concat "" (map callBlock calls))%string
      by (destruct calls; simpl; [now rewrite append_empty | reflexivity]).
    rewrite allChars_append. unfold callBlock at 1.
    rewrite bufferBlock_has_ink. simpl. apply andb_false_r. }
  pose proof (notify_inside CONFIG env term items w1 held Hi Hin eq_refl
                Hr Hw Hink) as H2.
  eexists. eexists. split; [exact H1|].
  split; [reflexivity|]. split; [reflexivity|].
  split; [exact H2|]. split; [reflexivity|]. split.
  - unfold mailCount. cbn [journal w1].
    rewrite !filter_app, !length_app. cbn [filter isSendMail].
    assert (Hz : filter isSendMail
                   (map (fun c => AppendBuffer (callBlock c)) calls) = []).
    { clear. induction calls; simpl; auto. }
    rewrite Hz. cbn [List.length]. rewrite Nat.add_0_r. f_equal.
    generalize (email_recipients CONFIG). intro l.
    induction l; simpl; auto.
  - intros e c He Hnew Hcin. cbn [journal w1] in He.
    rewrite !in_app_iff in He. destruct He as [[He|He]|He].
    + contradiction.
    + apply in_map_iff in He. destruct He as (x & Hx & _). discriminate.
    + destruct He as [He|He]; [discriminate|].
      apply in_map_iff in He. destruct He as (r & Hm & _).
      injection Hm as Hm. rewrite <- Hm.
      change (includes
                (("Previous notifications:" ++ nl ++ held ++ nl ++ nl)
                 ++ String.concat (nl ++ nl) (map textEntry items))
                (callBlock c) = true).
      destruct (concat_includes (map callBlock calls) (callBlock c)
                  (in_map callBlock calls c Hcin)) as (x & y & E).
      subst held. rewrite E. rewrite !append_assoc.
      rewrite <- (append_assoc "Previous notifications:").
      rewrite <- (append_assoc _ old). rewrite <- (append_assoc _ x).
      apply includes_append.
Qed.


Lemma buffer_accumulates_until_flushed_witness :
  exists w1 w2,
    notifyEach defaultConfig
      [(termAt [] 3, "phone", [item42]); (termAt [] 23, "lamp", [item42])]
      (worldWithBuffer "" true true) = (w1, Returned tt)
    /\ notify defaultConfig (termAt [] 9) "phone" [item42] w1
       = (w2, Returned tt)
    /\ content (bufferFile w2) = Some ""
    /\ mailCount w2 = 2%nat.
Proof.
  destruct (buffer_accumulates_until_flushed defaultConfig
              [(termAt [] 3, "phone", [item42]);
               (termAt [] 23, "lamp", [item42])]
              (termAt [] 9) "phone" [item42]
              (worldWithBuffer "" true true) "")
    as (w1 & w2 & H1 & _ & _ & H4 & H5 & H6 & _);
    try reflexivity; try discriminate.
  - intros c [H|[H|[]]]; subst c; split; (discriminate || reflexivity).
  - exists w1, w2. auto.
Defined.

(** X9.  A call of [notify] inside the window with nothing buffered sends
    the new entries alone.  When there is no buffer file, none is created;
    when the file holds only white space (that of [trim]: U+00A0, U+FEFF
    and the like included), no "Previous notifications" header is
    written, but the file is still emptied. *)
Theorem flush_with_nothing_buffered :
  forall (CONFIG : Config) (env : TermEnv) (term : string)
         (items : list Item) (w : World),
    items <> [] ->
    withinWindow CONFIG (nowHour env) = true ->
    let mail (recipient : string) :=
      SendMail {| from := email_sender CONFIG; to := recipient;
                  subject := mailSubject term items;
                  text := String.concat (nl ++ nl) (map textEntry items);
                  html := String.concat "" (map itemHtml items) |} in
    (content (bufferFile w) = None ->
     notify CONFIG env term items w
     = ({| pastItemsFile := pastItemsFile w; bufferFile := bufferFile w;
           journal := journal w ++ map mail (email_recipients CONFIG) |},
        Returned tt))
    /\ (forall held,
          content (bufferFile w) = Some held ->
          isBlank held = true ->
          readable (bufferFile w) = true ->
          writable (bufferFile w) = true ->
          notify CONFIG env term items w
          = ({| pastItemsFile := pastItemsFile w;
                bufferFile := store (bufferFile w) "";
                journal :=
                  journal w
                  ++ WriteBuffer "" :: map mail (email_recipients CONFIG) |},
             Returned tt)).
Proof.
  intros CONFIG env term items w Hi Hin mail.
  destruct items as [|it items]; [now contradiction Hi|].
  split.
  - intro Hc. unfold notify.
    change (List.length (it :: items) =? 0)%nat with false. cbv iota.
    rewrite Hin. cbn [negb]. cbv iota.
    unfold bind, takeBuffer, bind, existsBuffer, ret. rewrite Hc.
    rewrite forEach_sendMail. reflexivity.
  - intros held Hc Hb Hr Hw. unfold notify.
    change (List.length (it :: items) =? 0)%nat with false. cbv iota.
    rewrite Hin. cbn [negb]. cbv iota.
    unfold bind. rewrite (takeBuffer_held w held Hc Hr Hw).
    rewrite (trim_blank held Hb). cbn [String.length Nat.ltb Nat.leb].
    rewrite forEach_sendMail.
    cbn [pastItemsFile bufferFile journal]. now rewrite <- app_assoc.
Qed.

Lemma flush_with_nothing_buffered_witness :
  journal (fst (notify defaultConfig (termAt [] 9) "phone" [item42]
                  freshWorld))
  = map (fun r =>
           SendMail {| from := ""; to := r;
                       subject := mailSubject "phone" [item42];
                       text := String.concat (nl ++ nl)
                                 (map textEntry [item42]);
                       html := String.concat "" (map itemHtml [item42]) |})
        ["kfcoleman77@gmail.com"; "mtopyan@gmail.com"]
  /\ journal (fst (notify defaultConfig (termAt [] 9) "phone" [item42]
                     (worldWithBuffer (encodeUtf8 160 ++ " " ++ encodeUtf8 65279)
                        true true)))
     = WriteBuffer ""
       :: map (fun r =>
                 SendMail {| from := ""; to := r;
                             subject := mailSubject "phone" [item42];
                             text := String.concat (nl ++ nl)
                                       (map textEntry [item42]);
                             html := String.concat "" (map itemHtml [item42]) |})
              ["kfcoleman77@gmail.com"; "mtopyan@gmail.com"].
Proof.
  destruct (flush_with_nothing_buffered defaultConfig (termAt [] 9) "phone"
              [item42] freshWorld ltac:(discriminate) eq_refl) as [H1 _].
  destruct (flush_with_nothing_buffered defaultConfig (termAt [] 9) "phone"
              [item42]
              (worldWithBuffer (encodeUtf8 160 ++ " " ++ encodeUtf8 65279)
                 true true)
              ltac:(discriminate) eq_refl) as [_ H2].
  split.
  - rewrite (H1 eq_refl). reflexivity.
  - rewrite (H2 _ eq_refl eq_refl eq_refl eq_refl). reflexivity.
Defined.

(** X10.  A flush that fails loses nothing that was buffered and sends
    nothing: when the buffer file exists but cannot be read, or cannot be
    written, a call of [notify] inside the window throws before the mail
    transport is called and leaves the file as it was. *)
Theorem failed_flush_keeps_buffer :
  forall (CONFIG : Config) (env : TermEnv) (term : string)
         (items : list Item) (w : World) (held : string),
    items <> [] ->
    withinWindow CONFIG (nowHour env) = true ->
    content (bufferFile w) = Some held ->
    readable (bufferFile w) = false \/ writable (bufferFile w) = false ->
    exists w',
      notify CONFIG env term items w = (w', Thrown)
      /\ bufferFile w' = bufferFile w
      /\ pastItemsFile w' = pastItemsFile w
      /\ mailCount w' = mailCount w.
Proof.
  intros CONFIG env term items w held Hi Hin Hc Hfail.
  destruct items as [|it items]; [now contradiction Hi|].
  unfold notify.
  change (List.length (it :: items) =? 0)%nat with false. cbv iota.
  rewrite Hin. cbn [negb]. cbv iota.
  unfold bind at 1. unfold takeBuffer, bind, existsBuffer, readBuffer,
    writeBuffer, bind, record, setBufferFile, ret.
  rewrite Hc. simpl. rewrite Hc.
  destruct (readable (bufferFile w)) eqn:Hr.
  - destruct Hfail as [Hf|Hf]; [discriminate|]. simpl. rewrite Hf.
    eexists. conjuncts; try reflexivity.
    unfold mailCount. simpl. rewrite filter_app, length_app. simpl. lia.
  - eexists. conjuncts; reflexivity.
Qed.

Lemma failed_flush_keeps_buffer_witness :
  exists w',
    notify defaultConfig (termAt [] 9) "phone" [item42]
      (worldWithBuffer "held" true false) = (w', Thrown)
    /\ bufferFile w' = bufferFile (worldWithBuffer "held" true false)
    /\ mailCount w' = 0%nat.
Proof.
  destruct (failed_flush_keeps_buffer defaultConfig (termAt [] 9) "phone"
              [item42] (worldWithBuffer "held" true false) "held"
              ltac:(discriminate) eq_refl eq_refl (or_intror eq_refl))
    as (w' & H1 & H2 & _ & H4).
  exists w'. auto.
Defined.


(** ** Counting the mails of a run *)

Lemma mailCount_grows (w w' : World) :
  growsBy notMail w w' -> mailCount w' = mailCount w.
Proof.
  intros (added & Hj & Hok). unfold mailCount. rewrite Hj, filter_app.
  rewrite length_app.
  assert (Hz : filter isSendMail added = []).
  { clear Hj. induction added as [|e added IH]; simpl in *; auto.
    apply andb_true_iff in Hok. destruct Hok as [He Ha].
    unfold notMail in He. apply negb_true_iff in He. rewrite He. auto. }
  rewrite Hz. simpl. lia.
Qed.

Lemma sendsAtMost_weaken {A : Type} (r r' : nat) (c : M A) :
  (r <= r')%nat -> sendsAtMost r c -> sendsAtMost r' c.
Proof. intros Hr Hc w w' o H. specialize (Hc w w' o H). lia. Qed.

Lemma sendsAtMost_ret {A : Type} (a : A) : sendsAtMost 0 (ret a).
Proof. intros w w' o H. inversion H. lia. Qed.

Lemma sendsAtMost_throw {A : Type} : sendsAtMost 0 (@throw A).
Proof. intros w w' o H. inversion H. lia. Qed.

Lemma sendsAtMost_bind {A B : Type} (a b : nat) (c : M A) (k : A -> M B) :
  sendsAtMost a c -> (forall x, sendsAtMost b (k x)) ->
  sendsAtMost (a + b) (bind c k).
Proof.
  intros Hc Hk w w' o H. unfold bind in H.
  destruct (c w) as [w1 [x|]] eqn:E.
  - specialize (Hc w w1 _ E). specialize (Hk x w1 w' o H). lia.
  - inversion H. subst. specialize (Hc w w' _ E). lia.
Qed.

Lemma sendsAtMost_tryCatch {A : Type} (a b : nat) (c handler : M A) :
  sendsAtMost a c -> sendsAtMost b handler ->
  sendsAtMost (a + b) (tryCatch c handler).
Proof.
  intros Hc Hh w w' o H. unfold tryCatch in H.
  destruct (c w) as [w1 [x|]] eqn:E.
  - inversion H. subst. specialize (Hc w w' _ E). lia.
  - specialize (Hc w w1 _ E). specialize (Hh w1 w' o H). lia.
Qed.

Lemma sendsAtMost_silent {A : Type} (c : M A) :
  makesOnly notMail c -> sendsAtMost 0 c.
Proof.
  intros Hc w w' o H. rewrite (mailCount_grows w w' (Hc w w' o H)). lia.
Qed.

Lemma makesOnly_record (ok : Effect -> bool) (e : Effect) :
  ok e = true -> makesOnly ok (record e).
Proof.
  intros He w w' o H. unfold record in H. inversion H. subst.
  exists [e]. simpl. now rewrite He.
Qed.

Lemma makesOnly_same {A : Type} (ok : Effect -> bool) (c : M A) :
  (forall w, journal (fst (c w)) = journal w) -> makesOnly ok c.
Proof.
  intros Hc w w' o H. specialize (Hc w). rewrite H in Hc. simpl in Hc.
  exists []. now rewrite app_nil_r.
Qed.

Lemma makesOnly_bind {A B : Type} (ok : Effect -> bool) (c : M A)
      (k : A -> M B) :
  makesOnly ok c -> (forall x, makesOnly ok (k x)) -> makesOnly ok (bind c k).
Proof.
  intros Hc Hk w w' o H. unfold bind in H.
  destruct (c w) as [w1 [x|]] eqn:E.
  - destruct (Hc w w1 _ E) as (a & Ha & Hoa).
    destruct (Hk x w1 w' o H) as (b & Hb & Hob).
    exists (a ++ b). rewrite Hb, Ha, app_assoc, forallb_app, Hoa, Hob. auto.
  - inversion H. subst. eapply Hc; eauto.
Qed.

Lemma makesOnly_tryCatch {A : Type} (ok : Effect -> bool) (c handler : M A) :
  makesOnly ok c -> makesOnly ok handler -> makesOnly ok (tryCatch c handler).
Proof.
  intros Hc Hh w w' o H. unfold tryCatch in H.
  destruct (c w) as [w1 [x|]] eqn:E.
  - inversion H. subst. eapply Hc; eauto.
  - destruct (Hc w w1 _ E) as (a & Ha & Hoa).
    destruct (Hh w1 w' o H) as (b & Hb & Hob).
    exists (a ++ b). rewrite Hb, Ha, app_assoc, forallb_app, Hoa, Hob. auto.
Qed.

Lemma makesOnly_guarded_set (ok : Effect -> bool) (f : World -> File string) :
  makesOnly ok (fun w => if writable (bufferFile w)
                         then setBufferFile (f w) w
                         else (w, Thrown)).
Proof.
  apply makesOnly_same. intro w. now destruct (writable (bufferFile w)).
Qed.

Lemma silent_appendBuffer (s : string) : makesOnly notMail (appendBuffer s).
Proof.
  unfold appendBuffer. apply makesOnly_bind.
  - now apply makesOnly_record.
  - intros _. apply makesOnly_same. intro w.
    now destruct (writable (bufferFile w)).
Qed.

Lemma silent_writeBuffer (s : string) : makesOnly notMail (writeBuffer s).
Proof.
  unfold writeBuffer. apply makesOnly_bind.
  - now apply makesOnly_record.
  - intros _. apply makesOnly_same. intro w.
    now destruct (writable (bufferFile w)).
Qed.

Lemma silent_takeBuffer : makesOnly notMail takeBuffer.
Proof.
  unfold takeBuffer. apply makesOnly_bind.
  - apply makesOnly_same. reflexivity.
  - intros [|].
    + apply makesOnly_bind.
      * apply makesOnly_same. intro w. unfold readBuffer.
        destruct (content (bufferFile w)); [|reflexivity].
        now destruct (readable (bufferFile w)).
      * intros buffer. apply makesOnly_bind; [apply silent_writeBuffer|].
        intros _. apply makesOnly_same. reflexivity.
    + apply makesOnly_same. reflexivity.
Qed.

Lemma silent_writePastItems (d : PastData) :
  makesOnly notMail (writePastItems d).
Proof.
  unfold writePastItems. apply makesOnly_bind.
  - now apply makesOnly_record.
  - intros _. apply makesOnly_same. intro w.
    now destruct (writable (pastItemsFile w)).
Qed.

Lemma silent_loadPastItems : makesOnly notMail loadPastItems.
Proof.
  unfold loadPastItems. apply makesOnly_tryCatch.
  - apply makesOnly_bind; [apply makesOnly_same; reflexivity|].
    intro present. apply makesOnly_bind.
    + destruct (negb present);
        [apply silent_writePastItems | apply makesOnly_same; reflexivity].
    + intros _. apply makesOnly_bind.
      * apply makesOnly_same. intro w. unfold readPastItems.
        destruct (content (pastItemsFile w)); [|reflexivity].
        now destruct (readable (pastItemsFile w)).
      * intros [| |ids]; apply makesOnly_same; reflexivity.
  - apply makesOnly_same. reflexivity.
Qed.

Lemma silent_savePastItems (set : IdSet) :
  makesOnly notMail (savePastItems set).
Proof.
  unfold savePastItems. apply makesOnly_tryCatch.
  - apply silent_writePastItems.
  - apply makesOnly_same. reflexivity.
Qed.

Lemma sendsAtMost_forEach_sendMail (mk : string -> Mail) (l : list string) :
  sendsAtMost (List.length l) (forEach l (fun r => sendMail (mk r))).
Proof.
  intros w w' o H. rewrite forEach_sendMail in H. inversion H. subst.
  unfold mailCount. simpl. rewrite filter_app, length_app.
  assert (Hl : List.length (filter isSendMail
                              (map (fun r => SendMail (mk r)) l))
               = List.length l).
  { clear. induction l; simpl; auto. }
  rewrite Hl. lia.
Qed.

Lemma sendsAtMost_notify (CONFIG : Config) (env : TermEnv) (term : string)
      (items : list Item) :
  sendsAtMost (if withinWindow CONFIG (nowHour env)
               then List.length (email_recipients CONFIG) else 0)
    (notify CONFIG env term items).
Proof.
  unfold notify. destruct (List.length items =? 0)%nat.
  { eapply sendsAtMost_weaken; [|apply sendsAtMost_ret]. lia. }
  destruct (withinWindow CONFIG (nowHour env)); cbn [negb]; cbv iota.
  - apply (sendsAtMost_bind 0).
    + apply sendsAtMost_silent, silent_takeBuffer.
    + intro buffered. apply sendsAtMost_forEach_sendMail.
  - apply sendsAtMost_silent, silent_appendBuffer.
Qed.

Section RunCounts.

Variable CONFIG : Config.
Variable categoryAvgPrices : CategoryAvgPrices.
Variable ENV : RunEnv.

Lemma sendsAtMost_deliver (n : nat) (term : string)
      (scraped : Outcome (list Item)) :
  sendsAtMost (termMails CONFIG ENV n)
    (tryCatch (deliver CONFIG (termEnv ENV n) term scraped) (ret tt)).
Proof.
  apply (sendsAtMost_weaken (termMails CONFIG ENV n + 0)); [lia|].
  apply sendsAtMost_tryCatch; [|apply sendsAtMost_ret].
  unfold deliver. destruct scraped as [items|].
  - destruct (0 <? List.length items)%nat.
    + apply sendsAtMost_notify.
    + eapply sendsAtMost_weaken; [|apply sendsAtMost_ret]. lia.
  - eapply sendsAtMost_weaken; [|apply sendsAtMost_throw]. lia.
Qed.

Lemma sendsAtMost_processTerms (terms : list string) :
  forall (n : nat) (pastItems : IdSet),
    sendsAtMost (runMails CONFIG ENV n terms)
      (processTerms CONFIG categoryAvgPrices ENV n terms pastItems).
Proof.
  induction terms as [|term terms IH]; intros n P.
  - apply sendsAtMost_ret.
  - cbn [processTerms runMails].
    destruct (scrapeTerm CONFIG categoryAvgPrices (termEnv ENV n) P)
      as [P' scraped].
    apply (sendsAtMost_bind (termMails CONFIG ENV n)
             (runMails CONFIG ENV (S n) terms));
      [apply sendsAtMost_deliver|].
    intros _. apply IH.
Qed.

Lemma runMails_bound (terms : list string) :
  forall n,
    (runMails CONFIG ENV n terms
     <= List.length terms * List.length (email_recipients CONFIG))%nat.
Proof.
  induction terms as [|term terms IH]; intro n; simpl; [lia|].
  specialize (IH (S n)). unfold termMails.
  destruct (withinWindow CONFIG (nowHour (termEnv ENV n))); lia.
Qed.

Lemma runMails_night (terms : list string) :
  (forall n, withinWindow CONFIG (nowHour (termEnv ENV n)) = false) ->
  forall n, runMails CONFIG ENV n terms = 0%nat.
Proof.
  intro Hn. induction terms as [|term terms IH]; intro n; simpl; auto.
  unfold termMails. now rewrite Hn, IH.
Qed.

Lemma sendsAtMost_run :
  sendsAtMost (runMails CONFIG ENV 0 (searchTerms CONFIG))
    (run CONFIG categoryAvgPrices ENV).
Proof.
  set (r := runMails CONFIG ENV 0 (searchTerms CONFIG)).
  unfold run.
  apply (sendsAtMost_bind 0 r);
    [apply sendsAtMost_silent, silent_loadPastItems|].
  intro P.
  apply (sendsAtMost_bind 0 r).
  { destruct (browserLaunches ENV && pageOpens ENV);
      [apply sendsAtMost_ret | apply sendsAtMost_throw]. }
  intros _.
  apply (sendsAtMost_weaken (r + 0) r); [lia|].
  apply (sendsAtMost_bind r 0); [apply sendsAtMost_processTerms|].
  intro P'. apply (sendsAtMost_bind 0 0).
  { destruct (browserCloses ENV);
      [apply sendsAtMost_ret | apply sendsAtMost_throw]. }
  intros _. apply sendsAtMost_silent, silent_savePastItems.
Qed.

End RunCounts.

(** X11.  A run sends at most one mail per recipient for each search term,
    however many listings it finds and however it ends; a run all of whose
    terms are handled outside the active window sends none. *)
Theorem run_sends_at_most_one_mail_per_term :
  forall (CONFIG : Config) (categoryAvgPrices : CategoryAvgPrices)
         (ENV : RunEnv) (w w' : World) (o : Outcome unit),
    run CONFIG categoryAvgPrices ENV w = (w', o) ->
    (mailCount w <= mailCount w')%nat
    /\ (mailCount w'
        <= mailCount w
           + List.length (searchTerms CONFIG)
             * List.length (email_recipients CONFIG))%nat
    /\ ((forall n, withinWindow CONFIG (nowHour (termEnv ENV n)) = false) ->
        mailCount w' = mailCount w).
Proof.
  intros CONFIG cats ENV w w' o H.
  pose proof (sendsAtMost_run CONFIG cats ENV w w' o H) as [H1 H2].
  pose proof (runMails_bound CONFIG ENV (searchTerms CONFIG) 0%nat) as Hb.
  split; [exact H1|]. split; [lia|].
  intro Hn. rewrite (runMails_night CONFIG ENV _ Hn) in H2. lia.
Qed.

Lemma run_sends_at_most_one_mail_per_term_witness :
  (mailCount (fst (run twoTerms [] firstFails brokenStore)) <= 0 + 2 * 2)%nat
  /\ mailCount (fst (run defaultConfig [] nightRun freshWorld)) = 0%nat.
Proof.
  destruct (run_sends_at_most_one_mail_per_term twoTerms [] firstFails
              brokenStore _ _ (surjective_pairing _)) as (_ & H2 & _).
  destruct (run_sends_at_most_one_mail_per_term defaultConfig [] nightRun
              freshWorld _ _ (surjective_pairing _)) as (_ & _ & H3).
  split.
  - exact H2.
  - rewrite H3; reflexivity.
Defined.


(** ** What [scrapeTerm] returns and what a run stores *)

Section ScrapeFacts.

Variable CONFIG : Config.
Variable categoryAvgPrices : CategoryAvgPrices.

Lemma fold_filterStep_blank (edges : list Edge) :
  forall (st : IdSet * list Item),
    Forall (fun it => description it = "") (snd st) ->
    Forall (fun it => description it = "")
           (snd (fold_left (filterStep CONFIG) edges st)).
Proof.
  induction edges as [|e edges IH]; intros st H; simpl; auto.
  apply IH. unfold filterStep.
  destruct (examine CONFIG (fst st) e) as [s|[i item]] eqn:E; auto.
  simpl. apply Forall_app. split; auto. constructor; [|constructor].
  apply examine_accepts in E. destruct E as (l & _ & _ & _ & _ & Hit).
  now subst item.
Qed.

Lemma scrapeTerm_feed (env : TermEnv) (pastItems : IdSet)
      (edges : list Edge) :
  search env = FeedEdges edges ->
  fst (scrapeTerm CONFIG categoryAvgPrices env pastItems)
  = fst (filterEdges CONFIG pastItems edges).
Proof.
  intro H. unfold scrapeTerm. rewrite H.
  destruct (filterEdges CONFIG pastItems edges) as [P' newItems].
  destruct (fetchListingDetails CONFIG && (0 <? List.length newItems)%nat);
    [|reflexivity].
  destruct (negb (detailPageOpens env)); [reflexivity|].
  now destruct (negb (detailPageCloses env)).
Qed.

Lemma scrapeTerm_grows (env : TermEnv) (pastItems : IdSet) :
  exists ids,
    fst (scrapeTerm CONFIG categoryAvgPrices env pastItems) = pastItems ++ ids
    /\ (forall i, In i ids -> has pastItems i = false)
    /\ NoDup ids.
Proof.
  destruct (search env) as [| | |edges] eqn:Hs.
  1-3: exists []; unfold scrapeTerm; rewrite Hs; simpl;
    rewrite app_nil_r; conjuncts; [reflexivity | intros i [] | constructor].
  rewrite (scrapeTerm_feed env pastItems edges Hs). unfold filterEdges.
  destruct (fold_filterStep_grows CONFIG edges pastItems [])
    as (ids & new & Hfold & _ & Hfresh & Hnd).
  exists ids. rewrite Hfold. auto.
Qed.

Variable ENV : RunEnv.

Lemma processTerms_grows (terms : list string) :
  forall (n : nat) (pastItems : IdSet) (w w' : World) (o : Outcome IdSet),
    processTerms CONFIG categoryAvgPrices ENV n terms pastItems w = (w', o) ->
    exists ids,
      o = Returned (pastItems ++ ids)
      /\ (forall i, In i ids -> has pastItems i = false)
      /\ NoDup ids.
Proof.
  induction terms as [|term terms IH]; intros n P w w' o H.
  - inversion H. exists []. rewrite app_nil_r.
    conjuncts; [reflexivity | intros i [] | constructor].
  - destruct (processTerms_step CONFIG categoryAvgPrices ENV n term terms P w)
      as (w1 & _ & _ & Heq).
    rewrite Heq in H.
    destruct (scrapeTerm_grows (termEnv ENV n) P) as (ids1 & H1 & Hf1 & Hn1).
    rewrite H1 in H.
    destruct (IH _ _ _ _ _ H) as (ids2 & H2 & Hf2 & Hn2).
    exists (ids1 ++ ids2). rewrite app_assoc. conjuncts; auto.
    + intros i Hi. apply in_app_iff in Hi. destruct Hi as [Hi|Hi]; auto.
      specialize (Hf2 i Hi). rewrite has_app in Hf2.
      now apply orb_false_iff in Hf2.
    + apply NoDup_app; auto. intros i Hi1 Hi2.
      specialize (Hf2 i Hi2). rewrite has_app in Hf2.
      apply orb_false_iff in Hf2. destruct Hf2 as [_ Hf2].
      apply has_In in Hi1. congruence.
Qed.

End ScrapeFacts.

(** X12.  What [scrapeTerm] returns matches what it marked: one item for
    each id it appended to the seen-id set, in the same order and with
    that id's link, and every item carries the estimate of its own price,
    title and description. *)
Theorem scraped_items_match_marked_ids :
  forall (CONFIG : Config) (categoryAvgPrices : CategoryAvgPrices)
         (env : TermEnv) (pastItems pastItems' : IdSet) (items : list Item),
    scrapeTerm CONFIG categoryAvgPrices env pastItems
    = (pastItems', Returned items) ->
    exists ids,
      pastItems' = pastItems ++ ids
      /\ map link items = map itemLink ids
      /\ (forall i, In i ids -> has pastItems i = false)
      /\ NoDup ids
      /\ Forall (fun it =>
                   estimate it
                   = estimateResaleValue CONFIG categoryAvgPrices
                       (price it) (title it) (description it)) items.
Proof.
  intros CONFIG cats env P P' items H. unfold scrapeTerm in H.
  destruct (search env) as [| | |edges]; try discriminate.
  1-2: inversion H; subst; exists []; rewrite app_nil_r;
    conjuncts; auto; [intros i [] | constructor].
  unfold filterEdges in H.
  pose proof (fold_filterStep_blank CONFIG edges (P, []) (Forall_nil _))
    as Hblank.
  destruct (fold_filterStep_grows CONFIG edges P [])
    as (ids & new & Hfold & Hlinks & Hfresh & Hnd).
  rewrite Hfold in H, Hblank. simpl in H, Hblank.
  exists ids.
  destruct (fetchListingDetails CONFIG && (0 <? List.length new)%nat).
  - destruct (negb (detailPageOpens env)); [discriminate|].
    destruct (negb (detailPageCloses env)); [discriminate|].
    inversion H. subst. conjuncts; auto.
    + rewrite map_map. simpl. exact Hlinks.
    + apply Forall_map. apply Forall_forall. reflexivity.
  - inversion H. subst. conjuncts; auto.
    + rewrite map_map. simpl. exact Hlinks.
    + apply Forall_map. eapply Forall_impl; [|exact Hblank].
      intros it Hd. simpl. now rewrite Hd.
Qed.

Lemma scraped_items_match_marked_ids_witness :
  exists ids,
    fst (scrapeTerm defaultConfig electronics
           (termAt [edgeOf listing42; edgeOf withoutId] 9) [IdString "0"])
    = [IdString "0"] ++ ids
    /\ NoDup ids.
Proof.
  destruct (scraped_items_match_marked_ids defaultConfig electronics
              (termAt [edgeOf listing42; edgeOf withoutId] 9)
              [IdString "0"] _ _ ltac:(vm_compute; reflexivity))
    as (ids & H1 & _ & _ & H4 & _).
  exists ids. split; [|exact H4].
  rewrite <- H1. vm_compute. reflexivity.
Defined.

(** X13.  Listings are marked as seen before they are delivered, so a
    failure after the loop loses them: when detail fetching is on and the
    detail page cannot be opened or closed, [scrapeTerm] throws although
    the ids of the new listings are already in the set, the term sends
    nothing, and a later scrape of the same feed on that set returns no
    item. *)
Theorem new_listings_are_lost_when_details_fail :
  forall (CONFIG : Config) (categoryAvgPrices : CategoryAvgPrices)
         (ENV : RunEnv) (n : nat) (term : string) (terms : list string)
         (later : TermEnv) (pastItems : IdSet) (edges : list Edge)
         (w : World),
    fetchListingDetails CONFIG = true ->
    search (termEnv ENV n) = FeedEdges edges ->
    detailPageOpens (termEnv ENV n) = false
    \/ detailPageCloses (termEnv ENV n) = false ->
    snd (filterEdges CONFIG pastItems edges) <> [] ->
    search later = FeedEdges edges ->
    let marked := fst (filterEdges CONFIG pastItems edges) in
    scrapeTerm CONFIG categoryAvgPrices (termEnv ENV n) pastItems
    = (marked, Thrown)
    /\ marked <> pastItems
    /\ processTerms CONFIG categoryAvgPrices ENV n (term :: terms) pastItems w
       = processTerms CONFIG categoryAvgPrices ENV (S n) terms marked w
    /\ scrapeTerm CONFIG categoryAvgPrices later marked
       = (marked, Returned []).
Proof.
  intros CONFIG cats ENV n term terms later P edges w Hf Hs Hfail Hne Hl
         marked.
  assert (H1 : scrapeTerm CONFIG cats (termEnv ENV n) P = (marked, Thrown)).
  { unfold scrapeTerm. rewrite Hs. subst marked.
    destruct (filterEdges CONFIG P edges) as [P' new]. simpl in *.
    rewrite Hf. destruct new as [|it new]; [congruence|]. simpl.
    destruct Hfail as [Ho|Hc].
    - now rewrite Ho.
    - rewrite Hc. now destruct (detailPageOpens (termEnv ENV n)). }
  conjuncts.
  - exact H1.
  - subst marked. unfold filterEdges in *.
    destruct (fold_filterStep_grows CONFIG edges P [])
      as (ids & new & Hfold & Hlinks & _).
    rewrite Hfold in *. simpl in *.
    destruct ids as [|i ids].
    + destruct new; [congruence | discriminate].
    + intro E. apply (f_equal (@List.length JsId)) in E.
      rewrite length_app in E. simpl in E. lia.
  - rewrite processTerms_failed_term; rewrite H1; reflexivity.
  - assert (Hre : filterEdges CONFIG marked edges = (marked, [])).
    { unfold filterEdges. apply fold_filterStep_all_skipped.
      intros val Hin. simpl.
      apply (met_records_are_skipped CONFIG edges (P, []) marked val); auto. }
    unfold scrapeTerm. rewrite Hl, Hre. simpl.
    now rewrite andb_false_r.
Qed.

Lemma new_listings_are_lost_when_details_fail_witness :
  scrapeTerm defaultConfig []
    (termEnv (runEnvOf (fun _ => detailsFail [edgeOf listing42])) 0)
    []
  = ([IdString "42"], Thrown)
  /\ scrapeTerm defaultConfig [] (termAt [edgeOf listing42] 9) [IdString "42"]
     = ([IdString "42"], Returned []).
Proof.
  destruct (new_listings_are_lost_when_details_fail defaultConfig []
              (runEnvOf (fun _ => detailsFail [edgeOf listing42])) 0%nat
              "phone" [] (termAt [edgeOf listing42] 9) []
              [edgeOf listing42] freshWorld eq_refl eq_refl
              (or_introl eq_refl) ltac:(vm_compute; discriminate) eq_refl)
    as (H1 & _ & _ & H4).
  split; [exact H1 | exact H4].
Defined.

(** X14.  A run that ends normally writes the set it loaded followed by
    the ids marked during the run, which are new and pairwise different.
    So when the seen-id file could be read, every id it held is in the
    list written; when the file is there but cannot be read or does not
    parse, the loaded set is empty and the file is overwritten with the
    ids of this run alone. *)
Theorem run_writes_loaded_set_and_new_ids :
  forall (CONFIG : Config) (categoryAvgPrices : CategoryAvgPrices)
         (ENV : RunEnv) (w : World),
    browserLaunches ENV = true ->
    pageOpens ENV = true ->
    browserCloses ENV = true ->
    writable (pastItemsFile w) = true ->
    exists w' ids,
      run CONFIG categoryAvgPrices ENV w = (w', Returned tt)
      /\ content (pastItemsFile w')
         = Some (IdList (map toJson (loadedSet w ++ ids)))
      /\ (forall i, In i ids -> has (loadedSet w) i = false)
      /\ NoDup ids
      /\ (forall stored,
            content (pastItemsFile w) = Some (IdList stored) ->
            readable (pastItemsFile w) = true ->
            forall i, In i stored ->
                      In (toJson i) (map toJson (loadedSet w ++ ids)))
      /\ (loadFails w ->
          content (pastItemsFile w') = Some (IdList (map toJson ids))).
Proof.
  intros CONFIG cats ENV w Hl Hp Hc Hw.
  destruct (loadPastItems_returns w) as [w0 Hload].
  destruct (processTerms_returns CONFIG cats ENV (searchTerms CONFIG)
              0%nat (loadedSet w) w0)
    as (w1 & p1 & Hproc & [Hfile _]).
  destruct (processTerms_grows CONFIG cats ENV _ _ _ _ _ _ Hproc)
    as (ids & Hp1 & Hfresh & Hnd).
  inversion Hp1. subst p1.
  destruct (savePastItems_returns (loadedSet w ++ ids) w1)
    as (w2 & Hsave & _ & Hcont).
  assert (Hwritten : content (pastItemsFile w2)
                     = Some (IdList (map toJson (loadedSet w ++ ids)))).
  { apply Hcont. rewrite Hfile.
    now rewrite (loadPastItems_keeps_flags _ _ _ Hload). }
  exists w2, ids. conjuncts; auto.
  - unfold run, bind. rewrite Hload, Hl, Hp. simpl. unfold ret.
    rewrite Hproc, Hc. exact Hsave.
  - intros stored Hs Hr i Hi. apply in_map. apply in_or_app. left.
    unfold loadedSet. rewrite Hs, Hr. apply has_In.
    rewrite has_newSet. apply existsb_exists. exists i. split; auto.
    apply JsId_eqb_refl.
  - intro Hf. rewrite Hwritten. now rewrite (loadFails_empty w Hf).
Qed.

Lemma run_writes_loaded_set_and_new_ids_witness :
  (exists w' ids,
      run defaultConfig [] sameListingEveryRun (storedWorld true)
      = (w', Returned tt)
      /\ content (pastItemsFile w')
         = Some (IdList (map toJson (loadedSet (storedWorld true) ++ ids)))
      /\ In (IdString "1")
            (map toJson (loadedSet (storedWorld true) ++ ids)))
  /\ (exists v' ids',
         run defaultConfig [] sameListingEveryRun (storedWorld false)
         = (v', Returned tt)
         /\ content (pastItemsFile v') = Some (IdList (map toJson ids'))).
Proof.
  destruct (run_writes_loaded_set_and_new_ids defaultConfig []
              sameListingEveryRun (storedWorld true)
              eq_refl eq_refl eq_refl eq_refl)
    as (w' & ids & H1 & H2 & _ & _ & H5 & _).
  destruct (run_writes_loaded_set_and_new_ids defaultConfig []
              sameListingEveryRun (storedWorld false)
              eq_refl eq_refl eq_refl eq_refl)
    as (v' & ids' & G1 & _ & _ & _ & _ & G6).
  split.
  - exists w', ids. conjuncts; auto.
    apply (H5 _ eq_refl eq_refl (IdString "1")). now left.
  - exists v', ids'. split; [exact G1|].
    apply G6. left. eexists. split; reflexivity.
Defined.

(** X15.  The browser session is outside every [try] of [run].  When the
    browser or its page cannot be opened, the run throws right after
    loading: no term is handled and nothing is saved.  When the browser
    cannot be closed, the run throws after the loop over the terms: what
    the terms sent or buffered stays, but the seen-id file is not written,
    so it still holds what it held after loading. *)
Theorem browser_failures_skip_the_save :
  forall (CONFIG : Config) (categoryAvgPrices : CategoryAvgPrices)
         (ENV : RunEnv) (w : World),
    exists w0,
      loadPastItems w = (w0, Returned (loadedSet w))
      /\ (browserLaunches ENV = false \/ pageOpens ENV = false ->
          run CONFIG categoryAvgPrices ENV w = (w0, Thrown))
      /\ (browserLaunches ENV = true -> pageOpens ENV = true ->
          browserCloses ENV = false ->
          exists w1 pastItems1,
            processTerms CONFIG categoryAvgPrices ENV 0 (searchTerms CONFIG)
              (loadedSet w) w0 = (w1, Returned pastItems1)
            /\ run CONFIG categoryAvgPrices ENV w = (w1, Thrown)
            /\ pastItemsFile w1 = pastItemsFile w0).
Proof.
  intros CONFIG cats ENV w.
  destruct (loadPastItems_returns w) as [w0 Hload].
  exists w0. conjuncts; auto.
  - intro Hfail. unfold run, bind. rewrite Hload.
    destruct Hfail as [H|H]; rewrite H; [|rewrite andb_false_r]; reflexivity.
  - intros Hl Hp Hc.
    destruct (processTerms_returns CONFIG cats ENV (searchTerms CONFIG)
                0%nat (loadedSet w) w0)
      as (w1 & p1 & Hproc & [Hfile _]).
    exists w1, p1. conjuncts; auto.
    unfold run, bind. rewrite Hload, Hl, Hp. simpl. unfold ret.
    now rewrite Hproc, Hc.
Qed.

Lemma browser_failures_skip_the_save_witness :
  (exists w0, run defaultConfig [] cannotLaunch freshWorld = (w0, Thrown)
              /\ mailCount w0 = 0%nat)
  /\ (exists w1, run defaultConfig [] cannotClose freshWorld = (w1, Thrown)
                 /\ mailCount w1 = 2%nat
                 /\ content (pastItemsFile w1) = Some (IdList [])).
Proof.
  destruct (browser_failures_skip_the_save defaultConfig [] cannotLaunch
              freshWorld) as (w0 & Hload & H1 & _).
  destruct (browser_failures_skip_the_save defaultConfig [] cannotClose
              freshWorld) as (w0' & Hload' & _ & H2).
  split.
  - exists w0. split; [apply H1; now left|].
    vm_compute in Hload. inversion Hload. reflexivity.
  - destruct (H2 eq_refl eq_refl eq_refl) as (w1 & p1 & Hproc & Hrun & _).
    exists w1. split; [exact Hrun|].
    vm_compute in Hload'. inversion Hload'. subst w0'.
    vm_compute in Hproc. inversion Hproc. split; reflexivity.
Defined.


(** ** The search URL *)

Lemma append_cancel_l (a x y : string) :
  (a ++ x)%string = (a ++ y)%string -> x = y.
Proof.
  induction a as [|c a IH]; simpl; intro H; [exact H|].
  injection H as H. auto.
Qed.

Lemma append_cancel_r (b : string) :
  forall x y : string, (x ++ b)%string = (y ++ b)%string -> x = y.
Proof.
  induction x as [|c x IH]; intros [|d y] H; simpl in H.
  - reflexivity.
  - apply (f_equal String.length) in H. simpl in H.
    rewrite length_append in H. lia.
  - apply (f_equal String.length) in H. simpl in H.
    rewrite length_append in H. lia.
  - injection H as Hc H. subst d. f_equal. auto.
Qed.

Lemma concat_cons (sep a : string) (l : list string) :
  l <> [] ->
  String.concat sep (a :: l) = (a ++ sep ++ String.concat sep l)%string.
Proof. destruct l; [congruence | reflexivity]. Qed.

Lemma concat_before_last_two (sep : string) (pre : list string) :
  exists P : string,
    forall x e : string,
      String.concat sep (pre ++ [x; e]) = (P ++ x ++ sep ++ e)%string.
Proof.
  induction pre as [|a pre [P IH]].
  - exists ""%string. reflexivity.
  - exists (a ++ sep ++ P)%string. intros x e.
    change ((a :: pre) ++ [x; e]) with (a :: (pre ++ [x; e])).
    rewrite concat_cons by (destruct pre; discriminate).
    rewrite IH. now rewrite !append_assoc.
Qed.

Lemma escape_decodes (c : ascii) :
  ascii_of_N (16 * hexValue (hexDigit (code c / 16))
              + hexValue (hexDigit (code c mod 16))) = c.
Proof.
  destruct c as [[] [] [] [] [] [] [] []]; vm_compute; reflexivity.
Qed.

Lemma hexDigit_unreserved (c : ascii) :
  isUnreserved (hexDigit (code c / 16)) = true
  /\ isUnreserved (hexDigit (code c mod 16)) = true.
Proof.
  destruct c as [[] [] [] [] [] [] [] []]; vm_compute; split; reflexivity.
Qed.

Lemma unreserved_not_percent (c : ascii) :
  isUnreserved c = true -> (code c =? 37)%N = false.
Proof.
  destruct c as [[] [] [] [] [] [] [] []]; vm_compute; congruence.
Qed.

Lemma decodeEscapes_plain (c : ascii) (t : string) :
  (code c =? 37)%N = false ->
  decodeEscapes (String c t) = String c (decodeEscapes t).
Proof.
  intro H. destruct t as [|h [|l t]]; cbn [decodeEscapes]; try reflexivity.
  now rewrite H.
Qed.

Lemma decodeEscapes_encodeURIComponent (s : string) :
  decodeEscapes (encodeURIComponent s) = s.
Proof.
  induction s as [|c s IH]; [reflexivity|].
  cbn [encodeURIComponent].
  destruct (isUnreserved c) eqn:U.
  - rewrite decodeEscapes_plain by now apply unreserved_not_percent.
    now rewrite IH.
  - cbn [decodeEscapes].
    change (code "%" =? 37)%N with true. cbv iota.
    now rewrite escape_decodes, IH.
Qed.

(** X16.  The encoded search term cannot break the query string: each of
    its characters is an unreserved character or the percent sign of an
    escape, so it contains no ampersand, equals sign, hash, question mark,
    slash, plus or blank; an unreserved term is left as it is. *)
Theorem encoded_term_is_url_safe :
  forall (term : string) (c : ascii),
    In c (list_ascii_of_string (encodeURIComponent term)) ->
    (isUnreserved c = true \/ c = "%"%char)
    /\ ~ In c ["&"; "="; "#"; "?"; "/"; "+"; " "]%char.
Proof.
  intros term c Hin.
  assert (H : isUnreserved c = true \/ c = "%"%char).
  { induction term as [|d term IH]; [destruct Hin|].
    cbn [encodeURIComponent] in Hin.
    destruct (isUnreserved d) eqn:U; simpl in Hin.
    - destruct Hin as [->|Hin]; auto.
    - destruct (hexDigit_unreserved d) as [Hh Hl].
      destruct Hin as [<-|[<-|[<-|Hin]]]; auto. }
  split; [exact H|].
  intro Hbad. simpl in Hbad.
  destruct H as [H|H].
  - repeat (destruct Hbad as [<-|Hbad]; [vm_compute in H; discriminate H|]).
    exact Hbad.
  - subst c.
    repeat (destruct Hbad as [Hbad|Hbad]; [discriminate Hbad|]).
    exact Hbad.
Qed.

Lemma encoded_term_is_url_safe_witness :
  ~ In "0"%char ["&"; "="; "#"; "?"; "/"; "+"; " "]%char.
Proof.
  apply (encoded_term_is_url_safe "a b&c=d" "0"%char).
  vm_compute. right. right. right. now left.
Defined.

(** X17.  In a fixed configuration different search terms never share a
    search URL: the URL is a fixed text around the encoded term, and the
    encoding can be undone. *)
Theorem search_url_determines_term :
  forall (CONFIG : Config) (OPTIONS : SearchOptions) (term term' : string),
    term <> term' ->
    buildSearchUrl CONFIG OPTIONS term <> buildSearchUrl CONFIG OPTIONS term'.
Proof.
  intros CONFIG OPTIONS t t' Hne H. apply Hne. clear Hne.
  unfold buildSearchUrl, searchParams in H.
  rewrite !app_assoc in H.
  match type of H with
  | context [String.concat _ (?pre ++ [_; _])] =>
      destruct (concat_before_last_two "&" pre) as [P HP]
  end.
  rewrite !HP in H.
  do 3 apply append_cancel_l in H.
  rewrite <- !append_assoc in H.
  do 3 apply append_cancel_r in H.
  apply append_cancel_l in H.
  rewrite <- (decodeEscapes_encodeURIComponent t),
          <- (decodeEscapes_encodeURIComponent t').
  now rewrite H.
Qed.

Lemma search_url_determines_term_witness :
  buildSearchUrl tenToTwenty defaultOptions "a b"
  <> buildSearchUrl tenToTwenty defaultOptions "a%20b".
Proof.
  apply (search_url_determines_term tenToTwenty defaultOptions
           "a b" "a%20b").
  discriminate.
Defined.

(** ** A window across midnight *)

(** X18.  The active window does not wrap around midnight: when its start
    is after its end no hour is inside it, so a run sends no mail at any
    time of the day. *)
Theorem window_across_midnight_never_sends :
  forall (CONFIG : Config) (categoryAvgPrices : CategoryAvgPrices)
         (ENV : RunEnv) (w : World),
    activeHours_end CONFIG < activeHours_start CONFIG ->
    (forall hour, withinWindow CONFIG hour = false)
    /\ mailCount (fst (run CONFIG categoryAvgPrices ENV w)) = mailCount w.
Proof.
  intros CONFIG cats ENV w Hlt.
  assert (Hout : forall hour, withinWindow CONFIG hour = false).
  { intro hour. destruct (withinWindow CONFIG hour) eqn:E; [|reflexivity].
    apply withinWindow_spec in E. lia. }
  split; [exact Hout|].
  pose proof (sendsAtMost_run CONFIG cats ENV w _ _ (surjective_pairing _))
    as [H1 H2].
  rewrite (runMails_night CONFIG ENV _ (fun n => Hout _)) in H2. lia.
Qed.

Lemma window_across_midnight_never_sends_witness :
  withinWindow (overnight defaultConfig) 23 = false
  /\ mailCount (fst (run (overnight defaultConfig) [] sameListingEveryRun
                       freshWorld)) = 0%nat.
Proof.
  destruct (window_across_midnight_never_sends (overnight defaultConfig) []
              sameListingEveryRun freshWorld ltac:(vm_compute; reflexivity))
    as [H1 H2].
  split; [apply H1 | exact H2].
Defined.

